(** * Collision index of the symbol placement engine

    A shallow embedding of [src/symbol/collision_index.js] and the
    properties stated about it.

    Numbers.  JavaScript numbers are IEEE-754 doubles.  They are modelled
    by the mathematical reals [R]: arithmetic is exact, there is no NaN and
    no Infinity, and [a / 0] has the (arbitrary) value Rocq gives it.  The
    model therefore says what the code does only on calls in which no
    division by zero occurs, that is calls whose anchor has [w <> 0] and,
    for circle chains, a radius other than 0 (with radius 0 the loop that
    fills a segment counts up to [Infinity]).  A statement whose truth
    depends on a divisor carries the hypothesis that it is not zero.  The
    concrete inputs evaluated below are small integers and dyadic
    fractions, on which the double computation takes the same branches
    and gives the same values.

    Collaborators that live outside the file ([grid_index.js],
    [projection.js], [intersection_tests.js]) are either modelled from
    their description or taken as parameters of a section; each such
    definition says so. *)

From Stdlib Require Import Reals Lra Psatz ZArith Bool List.
From stdpp Require Import base decidable option list gmap.

Open Scope R_scope.

(** ** JavaScript numbers and booleans *)

#[global] Instance Rlt_decision (a b : R) : Decision (a < b) := Rlt_dec a b.
#[global] Instance Rle_decision (a b : R) : Decision (a <= b) := Rle_dec a b.
#[global] Instance Rgt_decision (a b : R) : Decision (a > b) := Rgt_dec a b.
#[global] Instance Rge_decision (a b : R) : Decision (a >= b) := Rge_dec a b.

Declare Scope js_scope.
Delimit Scope js_scope with js.
Notation "a <? b" := (bool_decide (a < b)) (at level 70) : js_scope.
Notation "a <=? b" := (bool_decide (a <= b)) (at level 70) : js_scope.
Notation "a >? b" := (bool_decide (a > b)) (at level 70) : js_scope.
Notation "a >=? b" := (bool_decide (a >= b)) (at level 70) : js_scope.
Open Scope js_scope.

(** [Math.ceil], on the reals. *)
Definition Math_ceil (v : R) : Z := Zceil v.

(** [Number.MAX_VALUE = (2 - 2^-52) * 2^1023]. *)
Definition Number_MAX_VALUE : R := (2 - / 2 ^ 52) * 2 ^ 1023.

(** A boolean used as a number ([LEFT * (a < b)]). *)
Definition bool_to_Z (b : bool) : Z := if b then 1%Z else 0%Z.

(** Truthiness of an integer ([!region]). *)
Definition truthy (n : Z) : bool := negb (n =? 0)%Z.

(** ** [@mapbox/point-geometry] *)

Module Point.
Record t : Type := mk { x : R; y : R }.

Definition add (p q : t) : t := mk (x p + x q) (y p + y q).
Definition sub (p q : t) : t := mk (x p - x q) (y p - y q).
Definition mult (p : t) (k : R) : t := mk (x p * k) (y p * k).
Definition div (p : t) (k : R) : t := mk (x p / k) (y p / k).
Definition mag (p : t) : R := sqrt (x p * x p + y p * y p).
Definition distSqr (p q : t) : R :=
  let dx := x q - x p in
  let dy := y q - y p in
  dx * dx + dy * dy.
Definition dist (p q : t) : R := sqrt (distSqr p q).
End Point.

Abbreviation Point := Point.t.

(** ** Feature keys and the spatial grid *)

Record Key : Type := mkKey {
  bucketInstanceId : Z;
  featureIndex : Z;
  collisionGroupID : Z
}.

(** The optional [collisionGroupPredicate]: [None] is the omitted
    argument, which filters nothing. *)
Definition Predicate : Type := option (Key -> bool).

Definition accepts (predicate : Predicate) (k : Key) : bool :=
  match predicate with
  | None => true
  | Some p => p k
  end.

Module Grid.
(** What an entry stores: a box by its corners, a circle by its centre
    and radius. *)
Inductive Shape : Type :=
| Box (x1 y1 x2 y2 : R)
| Circle (x y radius : R).

Record Entry : Type := mkEntry { key : Key; shape : Shape }.

(** An entry as [query] reports it: the key and the bounding
    rectangle. *)
Record Found : Type := mkFound {
  found_key : Key;
  found_x1 : R; found_y1 : R; found_x2 : R; found_y2 : R
}.

(** Modelled from the spec: [grid_index.js] is not among the sources.
    The spatial grid is described as a 2D index into which boxes and
    circles tagged with a key are inserted, with range queries that
    return all entries intersecting a query box, existence queries
    ("does this box/circle intersect anything") with an optional
    predicate filter, and [keysLength].  The model keeps the entries in
    insertion order; the cell structure, which only speeds the queries
    up, is left out. *)
Record t : Type := mk {
  width : R;
  height : R;
  cellSize : R;
  entries : list Entry
}.

(** Modelled from the spec: [new Grid(width, height, cellSize)], an
    index without entries. *)
Definition new (width height cellSize : R) : t :=
  mk width height cellSize [].

(** Modelled from the spec: [keysLength() -> int], the number of
    entries. *)
Definition keysLength (g : t) : nat := length (entries g).

(** Modelled from the spec: [insert(key, x1, y1, x2, y2)]. *)
Definition insert (k : Key) (x1 y1 x2 y2 : R) (g : t) : t :=
  mk (width g) (height g) (cellSize g)
     (entries g ++ [mkEntry k (Box x1 y1 x2 y2)]).

(** Modelled from the spec: [insertCircle(key, x, y, r)]. *)
Definition insertCircle (k : Key) (x y radius : R) (g : t) : t :=
  mk (width g) (height g) (cellSize g)
     (entries g ++ [mkEntry k (Circle x y radius)]).

(** Modelled from the spec: when a query box meets a stored shape.
    Rectangles are closed; a circle meets a box when the point of the
    box nearest to its centre is within the radius. *)
Definition boxMeets (x1 y1 x2 y2 : R) (s : Shape) : bool :=
  match s with
  | Box bx1 by1 bx2 by2 =>
      (x1 <=? bx2) && (y1 <=? by2) && (x2 >=? bx1) && (y2 >=? by1)
  | Circle cx cy r =>
      let nx := Rmax x1 (Rmin cx x2) in
      let ny := Rmax y1 (Rmin cy y2) in
      (cx - nx) * (cx - nx) + (cy - ny) * (cy - ny) <=? r * r
  end.

(** Modelled from the spec: when a query circle meets a stored shape. *)
Definition circleMeets (x y radius : R) (s : Shape) : bool :=
  match s with
  | Box bx1 by1 bx2 by2 =>
      let nx := Rmax bx1 (Rmin x bx2) in
      let ny := Rmax by1 (Rmin y by2) in
      (x - nx) * (x - nx) + (y - ny) * (y - ny) <=? radius * radius
  | Circle cx cy r =>
      (cx - x) * (cx - x) + (cy - y) * (cy - y)
        <=? (radius + r) * (radius + r)
  end.

(** Modelled from the spec: [hitTest(x1, y1, x2, y2, predicate) -> bool]. *)
Definition hitTest (g : t) (x1 y1 x2 y2 : R) (predicate : Predicate) : bool :=
  existsb (fun e => accepts predicate (key e) && boxMeets x1 y1 x2 y2 (shape e))
          (entries g).

(** Modelled from the spec: [hitTestCircle(x, y, r, predicate) -> bool]. *)
Definition hitTestCircle (g : t) (x y radius : R) (predicate : Predicate) : bool :=
  existsb (fun e => accepts predicate (key e) && circleMeets x y radius (shape e))
          (entries g).

(** The bounding rectangle an entry is reported with. *)
Definition found (e : Entry) : Found :=
  match shape e with
  | Box bx1 by1 bx2 by2 => mkFound (key e) bx1 by1 bx2 by2
  | Circle cx cy r => mkFound (key e) (cx - r) (cy - r) (cx + r) (cy + r)
  end.

(** Modelled from the spec: [query(x1, y1, x2, y2) -> sequence<entry>],
    the entries meeting the query box, each with its key and bounding
    rectangle. *)
Definition query (g : t) (x1 y1 x2 y2 : R) : list Found :=
  map found (filter (fun e => Is_true (boxMeets x1 y1 x2 y2 (shape e))) (entries g)).
End Grid.

(** ** The camera transform and the index *)

Definition viewportPadding : R := 100.

Module Transform.
Record t : Type := mk {
  width : R;
  height : R;
  cameraToCenterDistance : R;
  _pitch : R
}.
End Transform.

Record CollisionIndex : Type := mkCollisionIndex {
  grid : Grid.t;
  ignoredGrid : Grid.t;
  transform : Transform.t;
  pitchfactor : R;
  screenRightBoundary : R;
  screenBottomBoundary : R;
  gridRightBoundary : R;
  gridBottomBoundary : R
}.

(** [constructor(transform, grid, ignoredGrid)] *)
Definition constructor (transform : Transform.t) (grid ignoredGrid : Grid.t)
  : CollisionIndex :=
  mkCollisionIndex
    grid ignoredGrid transform
    (cos (Transform._pitch transform) * Transform.cameraToCenterDistance transform)
    (Transform.width transform + viewportPadding)
    (Transform.height transform + viewportPadding)
    (Transform.width transform + 2 * viewportPadding)
    (Transform.height transform + 2 * viewportPadding).

(** The default value of both grid arguments. *)
Definition defaultGrid (transform : Transform.t) : Grid.t :=
  Grid.new (Transform.width transform + 2 * viewportPadding)
           (Transform.height transform + 2 * viewportPadding) 25.

(** [new CollisionIndex(transform)] *)
Definition newCollisionIndex (transform : Transform.t) : CollisionIndex :=
  constructor transform (defaultGrid transform) (defaultGrid transform).

Definition set_grid (g : Grid.t) (this : CollisionIndex) : CollisionIndex :=
  mkCollisionIndex g (ignoredGrid this) (transform this) (pitchfactor this)
    (screenRightBoundary this) (screenBottomBoundary this)
    (gridRightBoundary this) (gridBottomBoundary this).

Definition set_ignoredGrid (g : Grid.t) (this : CollisionIndex) : CollisionIndex :=
  mkCollisionIndex (grid this) g (transform this) (pitchfactor this)
    (screenRightBoundary this) (screenBottomBoundary this)
    (gridRightBoundary this) (gridBottomBoundary this).

(** [isOffscreen(x1, y1, x2, y2)] *)
Definition isOffscreen (this : CollisionIndex) (x1 y1 x2 y2 : R) : bool :=
  (x2 <? viewportPadding) || (x1 >=? screenRightBoundary this)
  || (y2 <? viewportPadding) || (y1 >? screenBottomBoundary this).

(** [isInsideGrid(x1, y1, x2, y2)] *)
Definition isInsideGrid (this : CollisionIndex) (x1 y1 x2 y2 : R) : bool :=
  (x2 >=? 0) && (x1 <? gridRightBoundary this)
  && (y2 >=? 0) && (y1 <? gridBottomBoundary this).

(** ** Projection *)

(** A [mat4] of gl-matrix: sixteen numbers, column-major. *)
Record mat4 : Type := mkMat4 {
  m0 : R; m1 : R; m2 : R; m3 : R;
  m4 : R; m5 : R; m6 : R; m7 : R;
  m8 : R; m9 : R; m10 : R; m11 : R;
  m12 : R; m13 : R; m14 : R; m15 : R
}.

Record vec4 : Type := mkVec4 { v0 : R; v1 : R; v2 : R; v3 : R }.

(** Modelled from the spec: [projection.xyTransformMat4(out, a, m)] is
    not among the sources.  It "transforms the tile-local point by the
    matrix, yielding homogeneous w": the product of the matrix with
    [(x, y, 0, 1)], of which the x, y and w rows are written to [out]. *)
Definition xyTransformMat4 (out a : vec4) (m : mat4) : vec4 :=
  let x := v0 a in
  let y := v1 a in
  mkVec4 (m0 m * x + m4 m * y + m12 m)
         (m1 m * x + m5 m * y + m13 m)
         (v2 out)
         (m3 m * x + m7 m * y + m15 m).

Module ProjectedAnchor.
Record t : Type := mk { perspectiveRatio : R; cameraDistance : R }.
End ProjectedAnchor.

Module ProjectedPoint.
Record t : Type := mk { point : Point; perspectiveRatio : R }.
End ProjectedPoint.

(** [projectAnchor(posMatrix, x, y)] *)
Definition projectAnchor (this : CollisionIndex) (posMatrix : mat4) (x y : R)
  : ProjectedAnchor.t :=
  let p := mkVec4 x y 0 1 in
  let p := xyTransformMat4 p p posMatrix in
  ProjectedAnchor.mk
    (0.5 + 0.5 * (Transform.cameraToCenterDistance (transform this) / v3 p))
    (v3 p).

(** [projectPoint(posMatrix, x, y)] *)
Definition projectPoint (this : CollisionIndex) (posMatrix : mat4) (x y : R)
  : Point :=
  let p := mkVec4 x y 0 1 in
  let p := xyTransformMat4 p p posMatrix in
  Point.mk
    ((((v0 p / v3 p + 1) / 2) * Transform.width (transform this)) + viewportPadding)
    ((((- v1 p / v3 p + 1) / 2) * Transform.height (transform this)) + viewportPadding).

(** [projectAndGetPerspectiveRatio(posMatrix, x, y)] *)
Definition projectAndGetPerspectiveRatio (this : CollisionIndex) (posMatrix : mat4)
    (x y : R) : ProjectedPoint.t :=
  let p := mkVec4 x y 0 1 in
  let p := xyTransformMat4 p p posMatrix in
  let a := Point.mk
    ((((v0 p / v3 p + 1) / 2) * Transform.width (transform this)) + viewportPadding)
    ((((- v1 p / v3 p + 1) / 2) * Transform.height (transform this)) + viewportPadding) in
  ProjectedPoint.mk a
    (0.5 + 0.5 * (Transform.cameraToCenterDistance (transform this) / v3 p)).

(** ** Box placement *)

Record SingleCollisionBox : Type := mkSingleCollisionBox {
  x1 : R; y1 : R; x2 : R; y2 : R;
  anchorPointX : R; anchorPointY : R
}.

Module PlacedBox.
Record t : Type := mk { box : list R; offscreen : bool }.
End PlacedBox.

(** The four corner coordinates [tlX, tlY, brX, brY] that
    [placeCollisionBox] computes first. *)
Definition projectedBox (this : CollisionIndex) (collisionBox : SingleCollisionBox)
    (textPixelRatio : R) (posMatrix : mat4) : R * R * R * R :=
  let projectedPoint :=
    projectAndGetPerspectiveRatio this posMatrix
      (anchorPointX collisionBox) (anchorPointY collisionBox) in
  let tileToViewport := textPixelRatio * ProjectedPoint.perspectiveRatio projectedPoint in
  let tlX := x1 collisionBox * tileToViewport + Point.x (ProjectedPoint.point projectedPoint) in
  let tlY := y1 collisionBox * tileToViewport + Point.y (ProjectedPoint.point projectedPoint) in
  let brX := x2 collisionBox * tileToViewport + Point.x (ProjectedPoint.point projectedPoint) in
  let brY := y2 collisionBox * tileToViewport + Point.y (ProjectedPoint.point projectedPoint) in
  (tlX, tlY, brX, brY).

(** [placeCollisionBox(collisionBox, allowOverlap, textPixelRatio,
    posMatrix, collisionGroupPredicate)] *)
Definition placeCollisionBox (this : CollisionIndex) (collisionBox : SingleCollisionBox)
    (allowOverlap : bool) (textPixelRatio : R) (posMatrix : mat4)
    (collisionGroupPredicate : Predicate) : PlacedBox.t :=
  let '(tlX, tlY, brX, brY) := projectedBox this collisionBox textPixelRatio posMatrix in
  if negb (isInsideGrid this tlX tlY brX brY)
     || (negb allowOverlap
         && Grid.hitTest (grid this) tlX tlY brX brY collisionGroupPredicate)
  then PlacedBox.mk [] false
  else PlacedBox.mk [tlX; tlY; brX; brY] (isOffscreen this tlX tlY brX brY).

(** ** Insertion *)

(** [insertCollisionBox(collisionBox, ignorePlacement, bucketInstanceId,
    featureIndex, collisionGroupID)].  The array holds the four numbers of
    a placed box; reading a missing element has no counterpart on the
    reals and is modelled as 0. *)
Definition insertCollisionBox (collisionBox : list R) (ignorePlacement : bool)
    (bucketInstanceId featureIndex collisionGroupID : Z)
    (this : CollisionIndex) : CollisionIndex :=
  let key := mkKey bucketInstanceId featureIndex collisionGroupID in
  let ins := Grid.insert key (nth 0 collisionBox 0) (nth 1 collisionBox 0)
                         (nth 2 collisionBox 0) (nth 3 collisionBox 0) in
  if ignorePlacement
  then set_ignoredGrid (ins (ignoredGrid this)) this
  else set_grid (ins (grid this)) this.

(** The body of the loop of [insertCollisionCircles]: one grid entry per
    4-tuple. *)
Fixpoint insertCircleTuples (key : Key) (collisionCircles : list R) (g : Grid.t)
  : Grid.t :=
  match collisionCircles with
  | [] => g
  | cx :: cy :: r :: _ :: rest =>
      insertCircleTuples key rest (Grid.insertCircle key cx cy r g)
  | cx :: rest =>
      Grid.insertCircle key cx (nth 0 rest 0) (nth 1 rest 0) g
  end.

(** [insertCollisionCircles(collisionCircles, ignorePlacement,
    bucketInstanceId, featureIndex, collisionGroupID)] *)
Definition insertCollisionCircles (collisionCircles : list R) (ignorePlacement : bool)
    (bucketInstanceId featureIndex collisionGroupID : Z)
    (this : CollisionIndex) : CollisionIndex :=
  let key := mkKey bucketInstanceId featureIndex collisionGroupID in
  if ignorePlacement
  then set_ignoredGrid (insertCircleTuples key collisionCircles (ignoredGrid this)) this
  else set_grid (insertCircleTuples key collisionCircles (grid this)) this.

(** ** Line clipping *)

Definition LEFT : Z := Z.shiftl 1 0.
Definition RIGHT : Z := Z.shiftl 1 1.
Definition BOTTOM : Z := Z.shiftl 1 2.
Definition TOP : Z := Z.shiftl 1 3.

Definition epsilon : R := 0.00001.

(** [computeRegion(point, min, max)], the closure of [clipLine]. *)
Definition computeRegion (point min max : Point) : Z :=
  let region := 0%Z in
  let region := Z.lor region (LEFT * bool_to_Z (Point.x point <? Point.x min)) in
  let region := Z.lor region (RIGHT * bool_to_Z (Point.x point >? Point.x max)) in
  let region := Z.lor region (TOP * bool_to_Z (Point.y point <? Point.y min)) in
  let region := Z.lor region (BOTTOM * bool_to_Z (Point.y point >? Point.y max)) in
  region.

(** [slabCheckOnAxis(dirVec, minVec, maxVec, startVec)], the closure of
    [clipLine] that narrows the captured [tMin] and [tMax]: the pair is
    threaded through. *)
Definition slabCheckOnAxis (dirVec minVec maxVec startVec : R) (t : R * R)
  : bool * (R * R) :=
  let '(tMin, tMax) := t in
  if Rabs dirVec <? epsilon then
    if (startVec <? minVec) || (startVec >? maxVec)
    then (false, (tMin, tMax))
    else (true, (tMin, tMax))
  else
    let ood := 1 / dirVec in
    let t1 := (minVec - startVec) * ood in
    let t2 := (maxVec - startVec) * ood in
    let '(t1, t2) := if t1 >? t2 then (t2, t1) else (t1, t2) in
    let tMin := if t1 >? tMin then t1 else tMin in
    let tMax := if t2 <? tMax then t2 else tMax in
    if (tMin >? tMax) || (tMax <? 0)
    then (false, (tMin, tMax))
    else (true, (tMin, tMax)).

(** [clipLine(start, end, minBoundary, maxBoundary)]; [None] is [null]. *)
Definition clipLine (start end_ minBoundary maxBoundary : Point)
  : option (Point * Point) :=
  let startRegion := computeRegion start minBoundary maxBoundary in
  let endRegion := computeRegion end_ minBoundary maxBoundary in
  if negb (truthy startRegion) && negb (truthy endRegion) then Some (start, end_)
  else if (startRegion =? endRegion)%Z then None
  else
    let tMin := 0 in
    let tMax := Number_MAX_VALUE in
    let startToEnd := Point.sub end_ start in
    let len := Point.mag startToEnd in
    if len <? epsilon then Some (start, end_)
    else
      let dir := Point.div startToEnd len in
      let '(ok, (tMin, tMax)) :=
        slabCheckOnAxis (Point.x dir) (Point.x minBoundary) (Point.x maxBoundary)
                        (Point.x start) (tMin, tMax) in
      if negb ok then None
      else
        let '(ok, (tMin, tMax)) :=
          slabCheckOnAxis (Point.y dir) (Point.y minBoundary) (Point.y maxBoundary)
                          (Point.y start) (tMin, tMax) in
        if negb ok then None
        else
          let tMin := Rmin tMin len in
          let tMax := Rmin tMax len in
          Some (Point.add start (Point.mult startToEnd (tMin / len)),
                Point.add start (Point.mult startToEnd (tMax / len))).

(** ** Circle chains *)

Record Circle : Type := mkCircle { point : Point; radius : R }.

Record Symbol : Type := mkSymbol {
  anchorX : R; anchorY : R;
  lineOffsetX : R; lineOffsetY : R
}.

Module PlacedGlyph.
Record t : Type := mk { path : list Point }.
End PlacedGlyph.

Module FirstAndLastGlyph.
Record t : Type := mk { first : PlacedGlyph.t; last : PlacedGlyph.t }.
End FirstAndLastGlyph.

Module PlacedCircles.
Record t : Type := mk { circles : list R; offscreen : bool }.
End PlacedCircles.

(** The inner loop [for (let i = 1; i <= circlesInSegment; i++)]. *)
Definition fillSegment (startPoint circleToCircle : Point) (radius : R)
    (circlesInSegment : Z) : list Circle :=
  map (fun i => mkCircle (Point.add startPoint (Point.mult circleToCircle (INR i))) radius)
      (seq 1 (Z.to_nat circlesInSegment)).

(** One iteration of the loop over the segments of the projected path.
    The state is the array [circles] and [lastPlacedCircle]. *)
Definition placeSegment (radius : R) (labelPlaneMin labelPlaneMax : Point)
    (st : list Circle * option Point) (segStart segEnd : Point)
  : list Circle * option Point :=
  let '(circles, lastPlacedCircle) := st in
  match clipLine segStart segEnd labelPlaneMin labelPlaneMax with
  | None => (circles, lastPlacedCircle)
  | Some (startPoint, endPoint) =>
      let circles :=
        if match lastPlacedCircle with
           | None => true
           | Some l => Point.dist l startPoint >=? 2.0 * radius
           end
        then circles ++ [mkCircle startPoint radius]
        else circles in
      let circles := circles ++ [mkCircle endPoint radius] in
      let lastPlacedCircle := Some endPoint in
      let startToEnd := Point.sub endPoint startPoint in
      let segLen := Point.mag startToEnd in
      let circlesInSegment := (Math_ceil (segLen / (2.0 * radius)) - 1)%Z in
      let circleToCircle := Point.div startToEnd (IZR (circlesInSegment + 1)) in
      (circles ++ fillSegment startPoint circleToCircle radius circlesInSegment,
       lastPlacedCircle)
  end.

(** The loop [for (segIdx = 0; segIdx < projectedPath.length - 1; segIdx++)]. *)
Fixpoint placePath (radius : R) (labelPlaneMin labelPlaneMax : Point)
    (projectedPath : list Point) (st : list Circle * option Point)
  : list Circle * option Point :=
  match projectedPath with
  | segStart :: (segEnd :: _) as rest =>
      placePath radius labelPlaneMin labelPlaneMax rest
        (placeSegment radius labelPlaneMin labelPlaneMax st segStart segEnd)
  | _ => st
  end.

(** The variables of [placeCollisionCircles] that the loop over the
    circles updates. *)
Record ScanState : Type := mkScanState {
  placedCollisionCircles : list R;
  collisionDetected : bool;
  inGrid : bool;
  entirelyOffscreen : bool
}.

(** The loop [for (const circle of circles)]: [inl] is the [return] from
    inside the loop, [inr] the state the loop ends with. *)
Fixpoint scanCircles (this : CollisionIndex) (allowOverlap showCollisionCircles : bool)
    (collisionGroupPredicate : Predicate) (circles : list Circle) (st : ScanState)
  : PlacedCircles.t + ScanState :=
  match circles with
  | [] => inr st
  | circle :: rest =>
      let px := Point.x (point circle) + viewportPadding in
      let py := Point.y (point circle) + viewportPadding in
      let placed := placedCollisionCircles st ++ [px; py; radius circle; 0] in
      let x1 := px - radius circle in
      let y1 := py - radius circle in
      let x2 := px + radius circle in
      let y2 := py + radius circle in
      let entirelyOffscreen := entirelyOffscreen st && isOffscreen this x1 y1 x2 y2 in
      let inGrid := inGrid st || isInsideGrid this x1 y1 x2 y2 in
      if negb allowOverlap
         && Grid.hitTestCircle (grid this) px py (radius circle) collisionGroupPredicate
      then
        if negb showCollisionCircles
        then inl (PlacedCircles.mk [] false)
        else scanCircles this allowOverlap showCollisionCircles collisionGroupPredicate
               rest (mkScanState placed true inGrid entirelyOffscreen)
      else scanCircles this allowOverlap showCollisionCircles collisionGroupPredicate
             rest (mkScanState placed (collisionDetected st) inGrid entirelyOffscreen)
  end.

(** [labelPlaneMin] and [labelPlaneMax], the rectangle the segments are
    clipped against. *)
Definition labelPlaneMin : Point := Point.mk 0 0.

Definition labelPlaneMax (this : CollisionIndex) : Point :=
  Point.mk (Transform.width (transform this)) (Transform.height (transform this)).

(** [projectedPath]: the two path fragments without their first points,
    the first one reversed. *)
Definition projectedPathOf (firstAndLastGlyph : FirstAndLastGlyph.t) : list Point :=
  let first := FirstAndLastGlyph.first firstAndLastGlyph in
  let last := FirstAndLastGlyph.last firstAndLastGlyph in
  rev (drop 1 (PlacedGlyph.path first)) ++ drop 1 (PlacedGlyph.path last).

(** The array [circles] built from the two path fragments: the body of
    [if (firstAndLastGlyph)] up to the loop over the circles. *)
Definition chainCircles (this : CollisionIndex) (projectedAnchor : ProjectedAnchor.t)
    (firstAndLastGlyph : FirstAndLastGlyph.t) : list Circle :=
  let radius := 10 * ProjectedAnchor.perspectiveRatio projectedAnchor in
  let lastPlacedCircle : option Point := None in
  let projectedPath := projectedPathOf firstAndLastGlyph in
  fst (placePath radius labelPlaneMin (labelPlaneMax this) projectedPath
         ([], lastPlacedCircle)).

Section Projection.
(** The struct arrays of [data/array_types] are only handed on. *)
Context {SymbolLineVertexArray GlyphOffsetArray : Type}.

(** [projection.project(point, matrix).point], from [projection.js],
    which is not among the sources: a parameter. *)
Variable project : Point -> mat4 -> Point.

(** [projection.placeFirstAndLastGlyph], from [projection.js]: a
    parameter.  The projection cache it is given is a fresh object that
    [placeCollisionCircles] never reads, and is left out. *)
Variable placeFirstAndLastGlyph :
  R -> GlyphOffsetArray -> R -> R -> bool -> Point -> Point -> Symbol ->
  SymbolLineVertexArray -> mat4 -> bool -> option FirstAndLastGlyph.t.

(** The value of [firstAndLastGlyph] in [placeCollisionCircles]. *)
Definition firstAndLastGlyphOf (this : CollisionIndex) (symbol : Symbol)
    (lineVertexArray : SymbolLineVertexArray) (glyphOffsetArray : GlyphOffsetArray)
    (fontSize : R) (posMatrix labelPlaneMatrix : mat4)
  : option FirstAndLastGlyph.t :=
  let projectedAnchor := projectAnchor this posMatrix (anchorX symbol) (anchorY symbol) in
  let tileUnitAnchorPoint := Point.mk (anchorX symbol) (anchorY symbol) in
  let labelPlaneAnchorPoint := project tileUnitAnchorPoint labelPlaneMatrix in
  let fontScale := fontSize * ProjectedAnchor.perspectiveRatio projectedAnchor / 24 in
  let lineOffsetX := lineOffsetX symbol * fontScale in
  let lineOffsetY := lineOffsetY symbol * fontScale in
  placeFirstAndLastGlyph fontScale glyphOffsetArray lineOffsetX lineOffsetY
    false labelPlaneAnchorPoint tileUnitAnchorPoint symbol lineVertexArray
    labelPlaneMatrix true.

(** [placeCollisionCircles(collisionCircles, allowOverlap, scale,
    textPixelRatio, symbol, lineVertexArray, glyphOffsetArray, fontSize,
    posMatrix, labelPlaneMatrix, showCollisionCircles, pitchWithMap,
    collisionGroupPredicate)] *)
Definition placeCollisionCircles (this : CollisionIndex) (collisionCircles : list R)
    (allowOverlap : bool) (scale textPixelRatio : R) (symbol : Symbol)
    (lineVertexArray : SymbolLineVertexArray) (glyphOffsetArray : GlyphOffsetArray)
    (fontSize : R) (posMatrix labelPlaneMatrix : mat4)
    (showCollisionCircles pitchWithMap : bool)
    (collisionGroupPredicate : Predicate) : PlacedCircles.t :=
  let projectedAnchor := projectAnchor this posMatrix (anchorX symbol) (anchorY symbol) in
  let firstAndLastGlyph :=
    firstAndLastGlyphOf this symbol lineVertexArray glyphOffsetArray fontSize
      posMatrix labelPlaneMatrix in
  let st := mkScanState [] false false true in
  let scanned :=
    match firstAndLastGlyph with
    | Some fl =>
        scanCircles this allowOverlap showCollisionCircles collisionGroupPredicate
          (chainCircles this projectedAnchor fl) st
    | None => inr st
    end in
  match scanned with
  | inl returned => returned
  | inr st =>
      PlacedCircles.mk
        (if collisionDetected st || negb (inGrid st)
         then [] else placedCollisionCircles st)
        (entirelyOffscreen st)
  end.
End Projection.

(** ** Reverse query *)

(** [Math.min] folded over the values, starting from [Infinity]; the
    loop runs over a sequence that is not empty, so that the start value
    never survives. *)
Definition minOf (vs : list R) : R :=
  match vs with
  | [] => 0
  | v :: rest => foldl Rmin v rest
  end.

Definition maxOf (vs : list R) : R :=
  match vs with
  | [] => 0
  | v :: rest => foldl Rmax v rest
  end.

(** [seenFeatures[bucketInstanceId][featureIndex]], read for its truth
    value. *)
Definition seenBefore (seenFeatures : gmap Z (gmap Z bool)) (b f : Z) : bool :=
  match seenFeatures !! b with
  | Some fs => default false (fs !! f)
  | None => false
  end.

Section IntersectionTests.
(** [intersectionTests.polygonIntersectsPolygon], from
    [util/intersection_tests.js], which is not among the sources: a
    parameter. *)
Variable polygonIntersectsPolygon : list Point -> list Point -> bool.

(** One iteration of [for (const feature of features)]. *)
Definition queryFeature (query : list Point)
    (acc : gmap Z (gmap Z bool) * gmap Z (list Z)) (feature : Grid.Found)
  : gmap Z (gmap Z bool) * gmap Z (list Z) :=
  let '(seenFeatures, result) := acc in
  let featureKey := Grid.found_key feature in
  let b := bucketInstanceId featureKey in
  let f := featureIndex featureKey in
  let seenFeatures :=
    match seenFeatures !! b with
    | None => <[b := ∅]> seenFeatures
    | Some _ => seenFeatures
    end in
  if seenBefore seenFeatures b f then (seenFeatures, result)
  else
    let bbox := [
      Point.mk (Grid.found_x1 feature) (Grid.found_y1 feature);
      Point.mk (Grid.found_x2 feature) (Grid.found_y1 feature);
      Point.mk (Grid.found_x2 feature) (Grid.found_y2 feature);
      Point.mk (Grid.found_x1 feature) (Grid.found_y2 feature)
    ] in
    if negb (polygonIntersectsPolygon query bbox) then (seenFeatures, result)
    else
      let seenFeatures :=
        <[b := <[f := true]> (default ∅ (seenFeatures !! b))]> seenFeatures in
      let result :=
        match result !! b with
        | None => <[b := []]> result
        | Some _ => result
        end in
      let result := <[b := default [] (result !! b) ++ [f]]> result in
      (seenFeatures, result).

(** [queryRenderedSymbols(viewportQueryGeometry)] *)
Definition queryRenderedSymbols (this : CollisionIndex)
    (viewportQueryGeometry : list Point) : gmap Z (list Z) :=
  if (length viewportQueryGeometry =? 0)%nat
     || ((Grid.keysLength (grid this) =? 0)%nat
         && (Grid.keysLength (ignoredGrid this) =? 0)%nat)
  then ∅
  else
    let query :=
      map (fun point => Point.mk (Point.x point + viewportPadding)
                                 (Point.y point + viewportPadding))
          viewportQueryGeometry in
    let minX := minOf (map Point.x query) in
    let minY := minOf (map Point.y query) in
    let maxX := maxOf (map Point.x query) in
    let maxY := maxOf (map Point.y query) in
    let features :=
      Grid.query (grid this) minX minY maxX maxY
      ++ Grid.query (ignoredGrid this) minX minY maxX maxY in
    let seenFeatures : gmap Z (gmap Z bool) := ∅ in
    let result : gmap Z (list Z) := ∅ in
    snd (foldl (queryFeature query) (seenFeatures, result) features).
End IntersectionTests.

(** ** Debug flag of a stored circle *)

(** A JavaScript array of numbers that may have holes: [None] is a hole,
    which reads as [undefined]. *)
Definition JsArray : Type := list (option R).

(** [a[i]]; [None] is [undefined]. *)
Definition array_get (a : JsArray) (i : nat) : option R := mjoin (a !! i).

(** [a[i] = v]: in range the element is replaced, past the end the array
    grows and the skipped positions are holes. *)
Definition array_set (a : JsArray) (i : nat) (v : R) : JsArray :=
  if (i <? length a)%nat
  then <[i := Some v]> a
  else a ++ replicate (i - length a) None ++ [Some v].

(** [markCollisionCircleUsed(collisionCircles, index, used)] *)
Definition markCollisionCircleUsed (collisionCircles : JsArray) (index : nat)
    (used : bool) : JsArray :=
  array_set collisionCircles (index + 4) (if used then 1 else 0).

(** ** Calls on an index *)

(** A call of one of the methods, seen from the index it is made on.  The
    three queries are kept without their arguments: they return a value
    computed from the index and assign to none of its fields. *)
Inductive Call : Type :=
| PlaceCollisionBox
| PlaceCollisionCircles
| QueryRenderedSymbols
| InsertCollisionBox (collisionBox : list R) (ignorePlacement : bool)
    (bucketInstanceId featureIndex collisionGroupID : Z)
| InsertCollisionCircles (collisionCircles : list R) (ignorePlacement : bool)
    (bucketInstanceId featureIndex collisionGroupID : Z).

Definition isInsertion (c : Call) : bool :=
  match c with
  | InsertCollisionBox _ _ _ _ _ | InsertCollisionCircles _ _ _ _ _ => true
  | _ => false
  end.

(** The index after a call. *)
Definition after (c : Call) (this : CollisionIndex) : CollisionIndex :=
  match c with
  | PlaceCollisionBox | PlaceCollisionCircles | QueryRenderedSymbols => this
  | InsertCollisionBox collisionBox ignorePlacement b f g =>
      insertCollisionBox collisionBox ignorePlacement b f g this
  | InsertCollisionCircles collisionCircles ignorePlacement b f g =>
      insertCollisionCircles collisionCircles ignorePlacement b f g this
  end.

(** The index after a sequence of calls, in order. *)
Definition afterAll (cs : list Call) (this : CollisionIndex) : CollisionIndex :=
  foldl (fun idx c => after c idx) this cs.


(** ** The methods as they run on the object

    The methods of the class once more, this time with the object they
    run on threaded through: a call takes the state of the index (its
    fields, and the two grid objects that [this.grid] and
    [this.ignoredGrid] refer to) and gives the value returned together
    with the state after the call.  An expression that only reads fields
    is a [read]; a call of a method of a grid object runs on the grid the
    field refers to, and the grid after the call is what the field refers
    to afterwards.  Whether a call changes the index is then a matter of
    what the body of the method does. *)

Module GridCall.
(** A call of a method of a grid object: the value returned and the
    grid after the call. *)
Definition t (A : Type) : Type := Grid.t -> A * Grid.t.

(** Modelled from the spec: [keysLength() -> int] of [grid_index.js],
    which is not among the sources; the grid is left as it is. *)
Definition keysLength : t nat := fun g => (Grid.keysLength g, g).

(** Modelled from the spec: [insert(key, x1, y1, x2, y2)] adds the entry
    and returns nothing. *)
Definition insert (k : Key) (x1 y1 x2 y2 : R) : t unit :=
  fun g => (tt, Grid.insert k x1 y1 x2 y2 g).

(** Modelled from the spec: [insertCircle(key, x, y, r)] adds the entry
    and returns nothing. *)
Definition insertCircle (k : Key) (x y radius : R) : t unit :=
  fun g => (tt, Grid.insertCircle k x y radius g).

(** Modelled from the spec: [hitTest(x1, y1, x2, y2, predicate) -> bool]
    is an existence query ("does this box intersect anything"): it
    returns the answer and the grid is left as it is. *)
Definition hitTest (x1 y1 x2 y2 : R) (predicate : Predicate) : t bool :=
  fun g => (Grid.hitTest g x1 y1 x2 y2 predicate, g).

(** Modelled from the spec: [hitTestCircle(x, y, r, predicate) -> bool],
    an existence query as [hitTest] is. *)
Definition hitTestCircle (x y radius : R) (predicate : Predicate) : t bool :=
  fun g => (Grid.hitTestCircle g x y radius predicate, g).

(** Modelled from the spec: [query(x1, y1, x2, y2) -> sequence<entry>], a
    range query; the grid is left as it is. *)
Definition query (x1 y1 x2 y2 : R) : t (list Grid.Found) :=
  fun g => (Grid.query g x1 y1 x2 y2, g).
End GridCall.

Module Method.
(** A method of the index: from the state of the object to the value
    returned and the state after the call. *)
Definition t (A : Type) : Type := CollisionIndex -> A * CollisionIndex.

Definition ret {A : Type} (a : A) : t A := fun this => (a, this).

Definition bind {A B : Type} (m : t A) (k : A -> t B) : t B :=
  fun this => let '(a, this) := m this in k a this.

(** An expression that reads fields of [this]. *)
Definition read {A : Type} (f : CollisionIndex -> A) : t A :=
  fun this => (f this, this).

(** [this.grid.m(...)] *)
Definition onGrid {A : Type} (call : GridCall.t A) : t A :=
  fun this => let '(a, g) := call (grid this) in (a, set_grid g this).

(** [this.ignoredGrid.m(...)] *)
Definition onIgnoredGrid {A : Type} (call : GridCall.t A) : t A :=
  fun this => let '(a, g) := call (ignoredGrid this) in (a, set_ignoredGrid g this).
End Method.

Notation "'let*' x := m 'in' k" := (Method.bind m (fun x => k))
  (at level 10, x name, m at level 100, k at level 200).

(** [this.isOffscreen(x1, y1, x2, y2)] *)
Definition isOffscreen_call (x1 y1 x2 y2 : R) : Method.t bool :=
  Method.read (fun this => isOffscreen this x1 y1 x2 y2).

(** [this.isInsideGrid(x1, y1, x2, y2)] *)
Definition isInsideGrid_call (x1 y1 x2 y2 : R) : Method.t bool :=
  Method.read (fun this => isInsideGrid this x1 y1 x2 y2).

(** [this.projectAnchor(posMatrix, x, y)]: the array [p] it writes is its
    own. *)
Definition projectAnchor_call (posMatrix : mat4) (x y : R) : Method.t ProjectedAnchor.t :=
  Method.read (fun this => projectAnchor this posMatrix x y).

(** [this.projectAndGetPerspectiveRatio(posMatrix, x, y)]: the array [p]
    it writes is its own. *)
Definition projectAndGetPerspectiveRatio_call (posMatrix : mat4) (x y : R)
  : Method.t ProjectedPoint.t :=
  Method.read (fun this => projectAndGetPerspectiveRatio this posMatrix x y).

(** [placeCollisionBox(collisionBox, allowOverlap, textPixelRatio,
    posMatrix, collisionGroupPredicate)] on the object.  The operators
    [||] and [&&] of the test evaluate their right operand only when the
    left one does not decide. *)
Definition placeCollisionBox_call (collisionBox : SingleCollisionBox)
    (allowOverlap : bool) (textPixelRatio : R) (posMatrix : mat4)
    (collisionGroupPredicate : Predicate) : Method.t PlacedBox.t :=
  let* projectedPoint :=
    projectAndGetPerspectiveRatio_call posMatrix
      (anchorPointX collisionBox) (anchorPointY collisionBox) in
  let tileToViewport := textPixelRatio * ProjectedPoint.perspectiveRatio projectedPoint in
  let tlX := x1 collisionBox * tileToViewport + Point.x (ProjectedPoint.point projectedPoint) in
  let tlY := y1 collisionBox * tileToViewport + Point.y (ProjectedPoint.point projectedPoint) in
  let brX := x2 collisionBox * tileToViewport + Point.x (ProjectedPoint.point projectedPoint) in
  let brY := y2 collisionBox * tileToViewport + Point.y (ProjectedPoint.point projectedPoint) in
  let* insideGrid := isInsideGrid_call tlX tlY brX brY in
  let* rejected :=
    (if negb insideGrid then Method.ret true
     else if negb allowOverlap
          then Method.onGrid (GridCall.hitTest tlX tlY brX brY collisionGroupPredicate)
          else Method.ret false) in
  if rejected then Method.ret (PlacedBox.mk [] false)
  else
    let* offscreen := isOffscreen_call tlX tlY brX brY in
    Method.ret (PlacedBox.mk [tlX; tlY; brX; brY] offscreen).

(** [insertCollisionBox(collisionBox, ignorePlacement, bucketInstanceId,
    featureIndex, collisionGroupID)] on the object: [grid] is one of the
    two grid objects, and [grid.insert] runs on it. *)
Definition insertCollisionBox_call (collisionBox : list R) (ignorePlacement : bool)
    (bucketInstanceId featureIndex collisionGroupID : Z) : Method.t unit :=
  let key := mkKey bucketInstanceId featureIndex collisionGroupID in
  let insert := GridCall.insert key (nth 0 collisionBox 0) (nth 1 collisionBox 0)
                  (nth 2 collisionBox 0) (nth 3 collisionBox 0) in
  if ignorePlacement then Method.onIgnoredGrid insert else Method.onGrid insert.

(** The loop of [insertCollisionCircles] on the grid object [grid]: one
    call of [grid.insertCircle] per 4-tuple. *)
Fixpoint insertCircleTuples_call (key : Key) (collisionCircles : list R)
  : GridCall.t unit :=
  match collisionCircles with
  | [] => fun g => (tt, g)
  | cx :: cy :: r :: _ :: rest =>
      fun g => insertCircleTuples_call key rest (snd (GridCall.insertCircle key cx cy r g))
  | cx :: rest =>
      GridCall.insertCircle key cx (nth 0 rest 0) (nth 1 rest 0)
  end.

(** [insertCollisionCircles(collisionCircles, ignorePlacement,
    bucketInstanceId, featureIndex, collisionGroupID)] on the object. *)
Definition insertCollisionCircles_call (collisionCircles : list R)
    (ignorePlacement : bool) (bucketInstanceId featureIndex collisionGroupID : Z)
  : Method.t unit :=
  let key := mkKey bucketInstanceId featureIndex collisionGroupID in
  let insert := insertCircleTuples_call key collisionCircles in
  if ignorePlacement then Method.onIgnoredGrid insert else Method.onGrid insert.

(** The loop [for (const circle of circles)] of [placeCollisionCircles]
    on the object; [inl] is the [return] from inside the loop. *)
Fixpoint scanCircles_call (allowOverlap showCollisionCircles : bool)
    (collisionGroupPredicate : Predicate) (circles : list Circle) (st : ScanState)
  : Method.t (PlacedCircles.t + ScanState) :=
  match circles with
  | [] => Method.ret (inr st)
  | circle :: rest =>
      let px := Point.x (point circle) + viewportPadding in
      let py := Point.y (point circle) + viewportPadding in
      let placed := placedCollisionCircles st ++ [px; py; radius circle; 0] in
      let x1 := px - radius circle in
      let y1 := py - radius circle in
      let x2 := px + radius circle in
      let y2 := py + radius circle in
      let* entirelyOffscreen :=
        (if entirelyOffscreen st then isOffscreen_call x1 y1 x2 y2
         else Method.ret false) in
      let* inGrid :=
        (if inGrid st then Method.ret true else isInsideGrid_call x1 y1 x2 y2) in
      let* hit :=
        (if negb allowOverlap
         then Method.onGrid
                (GridCall.hitTestCircle px py (radius circle) collisionGroupPredicate)
         else Method.ret false) in
      if hit then
        if negb showCollisionCircles
        then Method.ret (inl (PlacedCircles.mk [] false))
        else scanCircles_call allowOverlap showCollisionCircles collisionGroupPredicate
               rest (mkScanState placed true inGrid entirelyOffscreen)
      else scanCircles_call allowOverlap showCollisionCircles collisionGroupPredicate
             rest (mkScanState placed (collisionDetected st) inGrid entirelyOffscreen)
  end.

Section Calls.
(** The struct arrays and the functions of [projection.js] and
    [util/intersection_tests.js], as for the methods above. *)
Variables SymbolLineVertexArray GlyphOffsetArray : Type.
Variable project : Point -> mat4 -> Point.
Variable placeFirstAndLastGlyph :
  R -> GlyphOffsetArray -> R -> R -> bool -> Point -> Point -> Symbol ->
  SymbolLineVertexArray -> mat4 -> bool -> option FirstAndLastGlyph.t.
Variable polygonIntersectsPolygon : list Point -> list Point -> bool.

(** [placeCollisionCircles(...)] on the object.  What is computed before
    the loop over the circles reads [this.transform] only, through
    [this.projectAnchor] and [labelPlaneMax]. *)
Definition placeCollisionCircles_call (collisionCircles : list R)
    (allowOverlap : bool) (scale textPixelRatio : R) (symbol : Symbol)
    (lineVertexArray : SymbolLineVertexArray) (glyphOffsetArray : GlyphOffsetArray)
    (fontSize : R) (posMatrix labelPlaneMatrix : mat4)
    (showCollisionCircles pitchWithMap : bool)
    (collisionGroupPredicate : Predicate) : Method.t PlacedCircles.t :=
  let* projectedAnchor := projectAnchor_call posMatrix (anchorX symbol) (anchorY symbol) in
  let* firstAndLastGlyph :=
    Method.read (fun this =>
      firstAndLastGlyphOf project placeFirstAndLastGlyph this symbol lineVertexArray
        glyphOffsetArray fontSize posMatrix labelPlaneMatrix) in
  let st := mkScanState [] false false true in
  let* scanned :=
    match firstAndLastGlyph with
    | Some fl =>
        let* circles := Method.read (fun this => chainCircles this projectedAnchor fl) in
        scanCircles_call allowOverlap showCollisionCircles collisionGroupPredicate
          circles st
    | None => Method.ret (inr st)
    end in
  Method.ret
    match scanned with
    | inl returned => returned
    | inr st =>
        PlacedCircles.mk
          (if collisionDetected st || negb (inGrid st)
           then [] else placedCollisionCircles st)
          (entirelyOffscreen st)
    end.

(** [queryRenderedSymbols(viewportQueryGeometry)] on the object. *)
Definition queryRenderedSymbols_call (viewportQueryGeometry : list Point)
  : Method.t (gmap Z (list Z)) :=
  let* nothingStored :=
    (if (length viewportQueryGeometry =? 0)%nat then Method.ret true
     else
       let* keys := Method.onGrid GridCall.keysLength in
       if (keys =? 0)%nat
       then let* ignoredKeys := Method.onIgnoredGrid GridCall.keysLength in
            Method.ret (ignoredKeys =? 0)%nat
       else Method.ret false) in
  if (nothingStored : bool) then Method.ret ∅
  else
    let query :=
      map (fun point => Point.mk (Point.x point + viewportPadding)
                                 (Point.y point + viewportPadding))
          viewportQueryGeometry in
    let minX := minOf (map Point.x query) in
    let minY := minOf (map Point.y query) in
    let maxX := maxOf (map Point.x query) in
    let maxY := maxOf (map Point.y query) in
    let* found := Method.onGrid (GridCall.query minX minY maxX maxY) in
    let* foundIgnored := Method.onIgnoredGrid (GridCall.query minX minY maxX maxY) in
    let features := found ++ foundIgnored in
    let seenFeatures : gmap Z (gmap Z bool) := ∅ in
    let result : gmap Z (list Z) := ∅ in
    Method.ret
      (snd (foldl (queryFeature polygonIntersectsPolygon query) (seenFeatures, result)
              features)).

(** A call of one of the five methods, with its arguments. *)
Inductive MethodCall : Type :=
| CallPlaceCollisionBox (collisionBox : SingleCollisionBox) (allowOverlap : bool)
    (textPixelRatio : R) (posMatrix : mat4) (collisionGroupPredicate : Predicate)
| CallPlaceCollisionCircles (collisionCircles : list R) (allowOverlap : bool)
    (scale textPixelRatio : R) (symbol : Symbol)
    (lineVertexArray : SymbolLineVertexArray) (glyphOffsetArray : GlyphOffsetArray)
    (fontSize : R) (posMatrix labelPlaneMatrix : mat4)
    (showCollisionCircles pitchWithMap : bool) (collisionGroupPredicate : Predicate)
| CallQueryRenderedSymbols (viewportQueryGeometry : list Point)
| CallInsertCollisionBox (collisionBox : list R) (ignorePlacement : bool)
    (bucketInstanceId featureIndex collisionGroupID : Z)
| CallInsertCollisionCircles (collisionCircles : list R) (ignorePlacement : bool)
    (bucketInstanceId featureIndex collisionGroupID : Z).

(** The call is one of the two insertions. *)
Definition inserts (c : MethodCall) : bool :=
  match c with
  | CallInsertCollisionBox _ _ _ _ _ | CallInsertCollisionCircles _ _ _ _ _ => true
  | _ => false
  end.

(** The state of the index after the call is run on it. *)
Definition stateAfter (c : MethodCall) (this : CollisionIndex) : CollisionIndex :=
  match c with
  | CallPlaceCollisionBox collisionBox allowOverlap textPixelRatio posMatrix predicate =>
      snd (placeCollisionBox_call collisionBox allowOverlap textPixelRatio posMatrix
             predicate this)
  | CallPlaceCollisionCircles collisionCircles allowOverlap scale textPixelRatio symbol
      lineVertexArray glyphOffsetArray fontSize posMatrix labelPlaneMatrix
      showCollisionCircles pitchWithMap predicate =>
      snd (placeCollisionCircles_call collisionCircles allowOverlap scale textPixelRatio
             symbol lineVertexArray glyphOffsetArray fontSize posMatrix labelPlaneMatrix
             showCollisionCircles pitchWithMap predicate this)
  | CallQueryRenderedSymbols viewportQueryGeometry =>
      snd (queryRenderedSymbols_call viewportQueryGeometry this)
  | CallInsertCollisionBox collisionBox ignorePlacement b f g =>
      snd (insertCollisionBox_call collisionBox ignorePlacement b f g this)
  | CallInsertCollisionCircles collisionCircles ignorePlacement b f g =>
      snd (insertCollisionCircles_call collisionCircles ignorePlacement b f g this)
  end.

(** The state of the index after a sequence of calls, in order. *)
Definition stateAfterAll (cs : list MethodCall) (this : CollisionIndex)
  : CollisionIndex :=
  foldl (fun this c => stateAfter c this) this cs.
End Calls.

(** ** Debug drawing of collision circles

    The part of [drawCollisionDebugGeometry] ([src/unnamed/part_000])
    that computes: the index buffer of the quads, and the loop that
    copies the circles of a tile into the vertex buffer and draws them in
    batches.  The typed arrays are lists of integers; a store converts
    the number as JavaScript does and is ignored out of range.  The calls
    into the painter, the context and the program are not modelled, except
    that each [program2.draw] is recorded with the vertex data uploaded
    just before it and the segment it is given. *)

Definition maxCirclesPerBatch : Z := 4096.
Definition maxVerticesPerBatch : Z := maxCirclesPerBatch * 4.
Definition maxIndicesPerBatch : Z := maxCirclesPerBatch * 6.

(** The conversion of a store into a [Uint16Array], on integers. *)
Definition ToUint16 (n : Z) : Z := n mod 65536.

(** The conversion of a store into an [Int16Array]: the number is
    truncated towards zero and wrapped into [-32768, 32767]. *)
Definition truncate (v : R) : Z := if 0 <=? v then Zfloor v else Zceil v.

Definition ToInt16 (v : R) : Z := (truncate v + 32768) mod 65536 - 32768.

(** [a[i] = v] on a typed array whose conversion gave [v]. *)
Definition store (a : list Z) (i : Z) (v : Z) : list Z :=
  if (0 <=? i)%Z then <[Z.to_nat i := v]> a else a.

(** [arr[i]] of an array of numbers, read to be stored into an
    [Int16Array]: a missing element is [undefined], which is stored as 0,
    as is its negation. *)
Definition numberAt (arr : list R) (i : Z) : R :=
  if (0 <=? i)%Z then default 0 (arr !! Z.to_nat i) else 0.

(** The body of the loop that fills the index buffer: the two triangles
    of quad [i]. *)
Definition writeQuadIndices (uint16 : list Z) (i : Z) : list Z :=
  let idx := (i * 6)%Z in
  let uint16 := store uint16 (idx + 0) (ToUint16 (i * 4 + 0)) in
  let uint16 := store uint16 (idx + 1) (ToUint16 (i * 4 + 1)) in
  let uint16 := store uint16 (idx + 2) (ToUint16 (i * 4 + 2)) in
  let uint16 := store uint16 (idx + 3) (ToUint16 (i * 4 + 2)) in
  let uint16 := store uint16 (idx + 4) (ToUint16 (i * 4 + 3)) in
  let uint16 := store uint16 (idx + 5) (ToUint16 (i * 4 + 0)) in
  uint16.

(** [for (let i = 0; i < maxCirclesPerBatch; i++)] over the [uint16] view
    of the index array. *)
Definition fillIndexBuffer (uint16 : list Z) : list Z :=
  foldl writeQuadIndices uint16
    (map Z.of_nat (seq 0 (Z.to_nat maxCirclesPerBatch))).

(** [appendVertex(idx, x, y, z, w)] on the [int16] view of
    [batchVertices]. *)
Definition appendVertex (int16 : list Z) (idx : Z) (x y z w : R) : list Z :=
  let int16 := store int16 (idx * 4 + 0) (ToInt16 x) in
  let int16 := store int16 (idx * 4 + 1) (ToInt16 y) in
  let int16 := store int16 (idx * 4 + 2) (ToInt16 z) in
  let int16 := store int16 (idx * 4 + 3) (ToInt16 w) in
  int16.

(** A call of [program2.draw]: the vertex data uploaded by [updateData]
    just before it, and the vertex and primitive lengths of the segment
    [SegmentVector.simpleSegment(0, 0, batchVertexIdx, batchVertexIdx / 2)]. *)
Record Draw : Type := mkDraw {
  vertexData : list Z;
  vertexLength : Z;
  primitiveLength : Z
}.

(** The variables of the batch loop. *)
Record BatchState : Type := mkBatchState {
  batchVertices : list Z;
  batchVertexIdx : Z;
  vertexOffset : Z;
  draws : list Draw
}.

(** [for (let vIdx = vertexOffset; vIdx < vertexOffset + batchSize; vIdx += 4)]:
    the four corners of the quad of one circle per iteration.  The fuel
    bounds the number of iterations. *)
Fixpoint appendQuads (fuel : nat) (arr : list R) (vIdx stop : Z)
    (st : list Z * Z) : list Z * Z :=
  match fuel with
  | O => st
  | S fuel =>
      if (vIdx <? stop)%Z then
        let '(int16, batchVertexIdx) := st in
        let r := numberAt arr (vIdx + 2) in
        let int16 := appendVertex int16 (batchVertexIdx + 0)
                       (numberAt arr (vIdx + 0)) (numberAt arr (vIdx + 1)) (- r) (- r) in
        let int16 := appendVertex int16 (batchVertexIdx + 1)
                       (numberAt arr (vIdx + 0)) (numberAt arr (vIdx + 1)) (- r) r in
        let int16 := appendVertex int16 (batchVertexIdx + 2)
                       (numberAt arr (vIdx + 0)) (numberAt arr (vIdx + 1)) r r in
        let int16 := appendVertex int16 (batchVertexIdx + 3)
                       (numberAt arr (vIdx + 0)) (numberAt arr (vIdx + 1)) r (- r) in
        appendQuads fuel arr (vIdx + 4) stop (int16, (batchVertexIdx + 4)%Z)
      else st
  end.

(** The record of the draw of the current batch. *)
Definition drawBatch (st : BatchState) : Draw :=
  mkDraw (batchVertices st) (batchVertexIdx st) (batchVertexIdx st / 2)%Z.

(** [while (vertexOffset < arr.length)]; [None] when the fuel runs out
    before the loop ends. *)
Fixpoint batchLoop (fuel : nat) (arr : list R) (st : BatchState) : option BatchState :=
  match fuel with
  | O => None
  | S fuel =>
      if (vertexOffset st <? Z.of_nat (length arr))%Z then
        let verticesLeft := (Z.of_nat (length arr) - vertexOffset st)%Z in
        let vertexSpaceLeftInBatch := (maxVerticesPerBatch - batchVertexIdx st)%Z in
        let batchSize := Z.min verticesLeft vertexSpaceLeftInBatch in
        let '(int16, idx) :=
          appendQuads (Z.to_nat batchSize) arr (vertexOffset st)
            (vertexOffset st + batchSize) (batchVertices st, batchVertexIdx st) in
        let st := mkBatchState int16 idx (vertexOffset st + batchSize) (draws st) in
        if (batchVertexIdx st =? maxVerticesPerBatch)%Z
        then batchLoop fuel arr
               (mkBatchState (batchVertices st) 0 (vertexOffset st)
                  (draws st ++ [drawBatch st]))
        else batchLoop fuel arr st
      else Some st
  end.

(** The circles of one tile: the batch loop from [batchVertexIdx = 0] and
    [vertexOffset = 0], then the draw of what is left over.  The result
    is the vertex array as it is left, and the draws in order; a tile
    whose array is empty is skipped. *)
Definition drawTileCircles (fuel : nat) (arr : list R) (int16 : list Z)
  : option (list Z * list Draw) :=
  if (length arr =? 0)%nat then Some (int16, [])
  else
    match batchLoop fuel arr (mkBatchState int16 0 0 []) with
    | None => None
    | Some st =>
        if (batchVertexIdx st =? 0)%Z
        then Some (batchVertices st, draws st)
        else Some (batchVertices st, draws st ++ [drawBatch st])
    end.

(** ** The vertex shader of the debug circles

    [main] of [src/shaders/collision_circle_temp.vertex.glsl], on real
    numbers: the operators of GLSL on vectors and matrices are written
    out by component, a matrix being column-major as in [mat4]. *)

Record vec2 : Type := mkVec2 { vec2_x : R; vec2_y : R }.
Record vec3 : Type := mkVec3 { vec3_x : R; vec3_y : R; vec3_z : R }.

(** [m * v] of a [mat4] and a [vec4]. *)
Definition mulMat4Vec4 (m : mat4) (v : vec4) : vec4 :=
  mkVec4 (m0 m * v0 v + m4 m * v1 v + m8 m * v2 v + m12 m * v3 v)
         (m1 m * v0 v + m5 m * v1 v + m9 m * v2 v + m13 m * v3 v)
         (m2 m * v0 v + m6 m * v1 v + m10 m * v2 v + m14 m * v3 v)
         (m3 m * v0 v + m7 m * v1 v + m11 m * v2 v + m15 m * v3 v).

(** [mix(x, y, a)] of GLSL: [x * (1 - a) + y * a]. *)
Definition mix (x y a : R) : R := x * (1 - a) + y * a.

(** [vec4 clipPos = u_matrix * vec4(a_pos - vec2(100), 0.0, 1.0)] *)
Definition screenClipPos (u_matrix : mat4) (a_pos : vec2) : vec4 :=
  mulMat4Vec4 u_matrix (mkVec4 (vec2_x a_pos - 100) (vec2_y a_pos - 100) 0 1).

(** [u_toWorld * vec4(clipPos.xy / clipPos.w, z, 1.0)] followed by
    [ray.xyz /= ray.w]: [rayStart] for [z = -1], [rayEnd] for [z = 1]. *)
Definition ray (u_matrix u_toWorld : mat4) (a_pos : vec2) (z : R) : vec4 :=
  let clipPos := screenClipPos u_matrix a_pos in
  let r := mulMat4Vec4 u_toWorld
             (mkVec4 (v0 clipPos / v3 clipPos) (v1 clipPos / v3 clipPos) z 1) in
  mkVec4 (v0 r / v3 r) (v1 r / v3 r) (v2 r / v3 r) (v3 r).

(** [vec3 tilePos = mix(rayStart.xyz, rayEnd.xyz, t)] *)
Definition tilePos (u_matrix u_toWorld : mat4) (a_pos : vec2) : vec3 :=
  let rayStart := ray u_matrix u_toWorld a_pos (-1) in
  let rayEnd := ray u_matrix u_toWorld a_pos 1 in
  let t := (0 - v2 rayStart) / (v2 rayEnd - v2 rayStart) in
  mkVec3 (mix (v0 rayStart) (v0 rayEnd) t)
         (mix (v1 rayStart) (v1 rayEnd) t)
         (mix (v2 rayStart) (v2 rayEnd) t).

(** [main()]: the value of [gl_Position]. *)
Definition main (a_pos a_reserved : vec2) (u_matrix u_toWorld u_fromWorld : mat4)
    (u_viewport_size : vec2) : vec4 :=
  let tilePos := tilePos u_matrix u_toWorld a_pos in
  let clipPos := mulMat4Vec4 u_fromWorld
                   (mkVec4 (vec3_x tilePos) (vec3_y tilePos) (vec3_z tilePos) 1) in
  mkVec4 (v0 clipPos / v3 clipPos + vec2_x a_reserved / vec2_x u_viewport_size * 2)
         (v1 clipPos / v3 clipPos + vec2_y a_reserved / vec2_y u_viewport_size * 2)
         (v2 clipPos / v3 clipPos + 0)
         (1 + 0).

(** * Statements

    Predicates used to state the properties, the claims that do not hold
    in the form they are stated, and the concrete inputs they are
    evaluated on. *)

(** *** Perspective ratio *)

(** The homogeneous coordinate [p[3]] of the transformed anchor. *)
Definition clipSpaceW (posMatrix : mat4) (x y : R) : R :=
  v3 (xyTransformMat4 (mkVec4 x y 0 1) (mkVec4 x y 0 1) posMatrix).

(** The claim as it is stated: the ratio of both projections is
    [0.5 + 0.5 * (cameraToCenterDistance / w)] and lies in (0, 1]. *)
Definition perspectiveRatioInUnitInterval (this : CollisionIndex) (posMatrix : mat4)
    (x y : R) : Prop :=
  let w := clipSpaceW posMatrix x y in
  let ratio := 0.5 + 0.5 * (Transform.cameraToCenterDistance (transform this) / w) in
  w <> 0 ->
  ProjectedAnchor.perspectiveRatio (projectAnchor this posMatrix x y) = ratio
  /\ ProjectedPoint.perspectiveRatio (projectAndGetPerspectiveRatio this posMatrix x y)
     = ratio
  /\ 0 < ratio <= 1.

(** The identity matrix with [w] scaled to [m15]. *)
Definition scaleW (m15 : R) : mat4 :=
  mkMat4 1 0 0 0  0 1 0 0  0 0 1 0  0 0 0 m15.

(** *** Box placement *)

(** The index of the scenario: an 800 x 600 viewport, the box
    (40, 40, 60, 60) inserted into the occlusion grid under key {1, 0, 0}. *)
Definition scenarioIndex (cameraToCenterDistance pitch : R) : CollisionIndex :=
  insertCollisionBox [40; 40; 60; 60] false 1 0 0
    (newCollisionIndex (Transform.mk 800 600 cameraToCenterDistance pitch)).

(** A box whose corners are projected to (45, 45, 65, 65) by the identity
    matrix: the anchor (-1, 1) is projected to (100, 100), the ratio is 1. *)
Definition scenarioBox : SingleCollisionBox :=
  mkSingleCollisionBox (-55) (-55) (-35) (-35) (-1) 1.

(** The predicate of collision group [g], and the predicate of all other
    groups. *)
Definition sameGroup (g : Z) : Predicate :=
  Some (fun k => (collisionGroupID k =? g)%Z).

Definition otherGroups (g : Z) : Predicate :=
  Some (fun k => negb (collisionGroupID k =? g)%Z).

(** The scenario as it is stated: with [allowOverlap] the placement is
    reported as not offscreen. *)
Definition scenarioAsStated (collisionBox : SingleCollisionBox) (textPixelRatio : R)
    (posMatrix : mat4) (predicate : Predicate) : Prop :=
  let this := scenarioIndex 1 0 in
  projectedBox this collisionBox textPixelRatio posMatrix = (45, 45, 65, 65) ->
  accepts predicate (mkKey 1 0 0) = true ->
  placeCollisionBox this collisionBox false textPixelRatio posMatrix predicate
    = PlacedBox.mk [] false
  /\ placeCollisionBox this collisionBox true textPixelRatio posMatrix predicate
     = PlacedBox.mk [45; 45; 65; 65] false.

(** The predicate accepts, or excludes, every key of collision group [g]. *)
Definition acceptsGroup (predicate : Predicate) (g : Z) : Prop :=
  forall k : Key, collisionGroupID k = g -> accepts predicate k = true.

Definition excludesGroup (predicate : Predicate) (g : Z) : Prop :=
  forall k : Key, collisionGroupID k = g -> accepts predicate k = false.

(** No entry of the occlusion grid that the predicate accepts meets the
    rectangle. *)
Definition noMatchingOverlap (this : CollisionIndex) (predicate : Predicate)
    (tlX tlY brX brY : R) : Prop :=
  forall e : Grid.Entry, In e (Grid.entries (grid this)) ->
    accepts predicate (Grid.key e) = true ->
    Grid.boxMeets tlX tlY brX brY (Grid.shape e) = false.

(** The claim as it is stated, for one later call: [this'] is the index
    at that call. *)
Definition insertionBlocksSameGroup (this : CollisionIndex) (bx1 by1 bx2 by2 : R)
    (b f g : Z) (later : list Call) (collisionBox : SingleCollisionBox)
    (textPixelRatio : R) (posMatrix : mat4) (predicate : Predicate) : Prop :=
  let this' :=
    afterAll later (insertCollisionBox [bx1; by1; bx2; by2] false b f g this) in
  let '(tlX, tlY, brX, brY) := projectedBox this' collisionBox textPixelRatio posMatrix in
  Grid.boxMeets tlX tlY brX brY (Grid.Box bx1 by1 bx2 by2) = true ->
  (acceptsGroup predicate g ->
     placeCollisionBox this' collisionBox false textPixelRatio posMatrix predicate
     = PlacedBox.mk [] false)
  /\ (excludesGroup predicate g ->
      noMatchingOverlap this' predicate tlX tlY brX brY ->
      PlacedBox.box
        (placeCollisionBox this' collisionBox false textPixelRatio posMatrix predicate)
      = [tlX; tlY; brX; brY]).

(** A box whose corners are projected to (-40, -40, -20, -20) by the
    identity matrix. *)
Definition outsideBox : SingleCollisionBox :=
  mkSingleCollisionBox (-140) (-140) (-120) (-120) (-1) 1.

(** *** Line clipping *)

(** The point lies in the closed rectangle. *)
Definition inside (p min max : Point) : Prop :=
  Point.x min <= Point.x p <= Point.x max /\ Point.y min <= Point.y p <= Point.y max.

(** Both endpoints lie beyond the same side of the rectangle. *)
Definition beyondOneSide (start end_ min max : Point) : Prop :=
  (Point.x start < Point.x min /\ Point.x end_ < Point.x min)
  \/ (Point.x start > Point.x max /\ Point.x end_ > Point.x max)
  \/ (Point.y start < Point.y min /\ Point.y end_ < Point.y min)
  \/ (Point.y start > Point.y max /\ Point.y end_ > Point.y max).

(** Both endpoints lie in the same one of the eight regions around the
    rectangle: the four tests agree on them, and one of them holds. *)
Definition sameOuterRegion (start end_ min max : Point) : Prop :=
  (Point.x start < Point.x min <-> Point.x end_ < Point.x min)
  /\ (Point.x start > Point.x max <-> Point.x end_ > Point.x max)
  /\ (Point.y start < Point.y min <-> Point.y end_ < Point.y min)
  /\ (Point.y start > Point.y max <-> Point.y end_ > Point.y max)
  /\ (Point.x start < Point.x min \/ Point.x start > Point.x max
      \/ Point.y start < Point.y min \/ Point.y start > Point.y max).

(** The claim as it is stated. *)
Definition clipLineAsStated (start end_ min max : Point) : Prop :=
  (inside start min max -> inside end_ min max ->
     clipLine start end_ min max = Some (start, end_))
  /\ (beyondOneSide start end_ min max -> clipLine start end_ min max = None).

(** *** Circle chains *)

(** What the loop over the circles computes for one circle: the tuple it
    appends, whether the circle hits an entry of the occlusion grid,
    whether it is offscreen, whether it is inside the grid. *)
Definition circleTuple (c : Circle) : list R :=
  [Point.x (point c) + viewportPadding; Point.y (point c) + viewportPadding; radius c; 0].

Definition circleHits (this : CollisionIndex) (predicate : Predicate) (c : Circle) : bool :=
  Grid.hitTestCircle (grid this)
    (Point.x (point c) + viewportPadding) (Point.y (point c) + viewportPadding)
    (radius c) predicate.

Definition circleOffscreen (this : CollisionIndex) (c : Circle) : bool :=
  let px := Point.x (point c) + viewportPadding in
  let py := Point.y (point c) + viewportPadding in
  isOffscreen this (px - radius c) (py - radius c) (px + radius c) (py + radius c).

Definition circleInsideGrid (this : CollisionIndex) (c : Circle) : bool :=
  let px := Point.x (point c) + viewportPadding in
  let py := Point.y (point c) + viewportPadding in
  isInsideGrid this (px - radius c) (py - radius c) (px + radius c) (py + radius c).

(** *** Reverse query *)

(** What holds of [seenFeatures] and [result] throughout the loop over the
    features: every sequence in [result] is free of duplicates, and each
    of its feature indices is marked as seen for its bucket. *)
Definition queryInvariant (acc : gmap Z (gmap Z bool) * gmap Z (list Z)) : Prop :=
  forall (b : Z) (fs : list Z), snd acc !! b = Some fs ->
    NoDup fs /\ forall f : Z, In f fs -> seenBefore (fst acc) b f = true.

(** *** Circle spacing *)

(** Neighbours in the sequence of centres are at most [d] apart. *)
Definition consecutiveWithin (centres : list Point) (d : R) : Prop :=
  forall (l1 : list Point) (p q : Point) (l2 : list Point),
    centres = l1 ++ p :: q :: l2 -> Point.dist p q <= d.

(** The points [s + step * i]. *)
Definition stepped (s step : Point) (i : nat) : Point :=
  Point.add s (Point.mult step (INR i)).

(** Two path fragments that share the anchor (115, 100): the stitched
    path is the segment from (100, 100) to (130, 100). *)
Definition exampleGlyphs : FirstAndLastGlyph.t :=
  FirstAndLastGlyph.mk
    (PlacedGlyph.mk [Point.mk 115 100; Point.mk 100 100])
    (PlacedGlyph.mk [Point.mk 115 100; Point.mk 130 100]).

(** Collaborators for the example: the label plane is the viewport, and
    the line layout returns the two fragments above. *)
Definition exampleProject (p : Point) (m : mat4) : Point := p.

Definition examplePlaceFirstAndLastGlyph (fontScale : R) (glyphOffsetArray : unit)
    (lineOffsetX lineOffsetY : R) (flip : bool)
    (labelPlaneAnchorPoint tileUnitAnchorPoint : Point) (symbol : Symbol)
    (lineVertexArray : unit) (labelPlaneMatrix : mat4) (returnTileDistance : bool)
  : option FirstAndLastGlyph.t :=
  Some exampleGlyphs.

(** The index of an 800 x 600 viewport with both grids empty. *)
Definition exampleIndex : CollisionIndex :=
  newCollisionIndex (Transform.mk 800 600 1 0).

(** [placeCollisionCircles] on the example, with [allowOverlap] and
    [showCollisionCircles], for an anchor whose [w] is [m15]. *)
Definition examplePlacement (this : CollisionIndex) (m15 : R) (predicate : Predicate)
    (allowOverlap showCollisionCircles : bool) : PlacedCircles.t :=
  placeCollisionCircles exampleProject examplePlaceFirstAndLastGlyph this []
    allowOverlap 1 1 (mkSymbol 0 0 0 0) tt tt 24 (scaleW m15) (scaleW 1)
    showCollisionCircles false predicate.

(** The claim as it is stated, for one call. *)
Definition circleSpacingAsStated {SymbolLineVertexArray GlyphOffsetArray : Type}
    (project : Point -> mat4 -> Point)
    (placeFirstAndLastGlyph :
       R -> GlyphOffsetArray -> R -> R -> bool -> Point -> Point -> Symbol ->
       SymbolLineVertexArray -> mat4 -> bool -> option FirstAndLastGlyph.t)
    (this : CollisionIndex)
    (collisionCircles : list R) (allowOverlap : bool) (scale textPixelRatio : R)
    (symbol : Symbol) (lineVertexArray : SymbolLineVertexArray)
    (glyphOffsetArray : GlyphOffsetArray) (fontSize : R)
    (posMatrix labelPlaneMatrix : mat4) (showCollisionCircles pitchWithMap : bool)
    (predicate : Predicate) : Prop :=
  let projectedAnchor :=
    projectAnchor this posMatrix (anchorX symbol) (anchorY symbol) in
  let radius := 10 * ProjectedAnchor.perspectiveRatio projectedAnchor in
  let placed :=
    placeCollisionCircles project placeFirstAndLastGlyph this collisionCircles
      allowOverlap scale textPixelRatio symbol lineVertexArray glyphOffsetArray
      fontSize posMatrix labelPlaneMatrix showCollisionCircles pitchWithMap predicate in
  PlacedCircles.circles placed <> [] ->
  exists firstAndLastGlyph : FirstAndLastGlyph.t,
    firstAndLastGlyphOf project placeFirstAndLastGlyph this symbol lineVertexArray
      glyphOffsetArray fontSize posMatrix labelPlaneMatrix = Some firstAndLastGlyph
    /\ forall (pre : list Point) (a b : Point) (post : list Point) (s e : Point),
         projectedPathOf firstAndLastGlyph = pre ++ a :: b :: post ->
         clipLine a b labelPlaneMin (labelPlaneMax this) = Some (s, e) ->
         let segLen := Point.mag (Point.sub e s) in
         let circlesInSegment := (Math_ceil (segLen / (2 * radius)) - 1)%Z in
         let circleToCircle :=
           Point.div (Point.sub e s) (IZR (circlesInSegment + 1)) in
         let interior := fillSegment s circleToCircle radius circlesInSegment in
         Z.of_nat (length interior) = circlesInSegment
         /\ consecutiveWithin (s :: map point interior ++ [e]) (2 * radius).

(** The example index with a box around the first circle of the chain in
    the occlusion grid. *)
Definition occupiedIndex : CollisionIndex :=
  insertCollisionBox [190; 190; 210; 210] false 1 0 0 exampleIndex.

(** *** Placement and the calls before it *)

(** The call leaves the occlusion grid as it is: a query, or an insertion
    with [ignorePlacement]. *)
Definition blocksNothing (c : Call) : bool :=
  match c with
  | InsertCollisionBox _ ignorePlacement _ _ _
  | InsertCollisionCircles _ ignorePlacement _ _ _ => ignorePlacement
  | _ => true
  end.

(** The two indices have the same transform and the same boundaries. *)
Definition sameFrame (a b : CollisionIndex) : Prop :=
  transform a = transform b
  /\ gridRightBoundary a = gridRightBoundary b
  /\ gridBottomBoundary a = gridBottomBoundary b
  /\ screenRightBoundary a = screenRightBoundary b
  /\ screenBottomBoundary a = screenBottomBoundary b.

(** *** What [clipLine] returns *)

(** The point of the segment at parameter [t]: [start] at 0, [end] at 1. *)
Definition pointAt (start end_ : Point) (t : R) : Point :=
  Point.add start (Point.mult (Point.sub end_ start) t).

(** *** Circle chains and the grid *)

(** The grid entry that [insertCollisionCircles] makes of a circle of the
    chain. *)
Definition circleEntry (key : Key) (c : Circle) : Grid.Entry :=
  Grid.mkEntry key
    (Grid.Circle (Point.x (point c) + viewportPadding)
                 (Point.y (point c) + viewportPadding) (radius c)).

(** *** What the reverse query reports *)

(** The query polygon in grid coordinates. *)
Definition gridQuery (viewportQueryGeometry : list Point) : list Point :=
  map (fun point => Point.mk (Point.x point + viewportPadding)
                             (Point.y point + viewportPadding))
      viewportQueryGeometry.

(** The entries that the two grids return for the bounding box of the
    query polygon, those of the occlusion grid first. *)
Definition queriedFeatures (this : CollisionIndex) (viewportQueryGeometry : list Point)
  : list Grid.Found :=
  let query := gridQuery viewportQueryGeometry in
  let minX := minOf (map Point.x query) in
  let minY := minOf (map Point.y query) in
  let maxX := maxOf (map Point.x query) in
  let maxY := maxOf (map Point.y query) in
  Grid.query (grid this) minX minY maxX maxY
  ++ Grid.query (ignoredGrid this) minX minY maxX maxY.

(** The rectangle of an entry as the polygon it is tested as. *)
Definition featureBox (feature : Grid.Found) : list Point :=
  [Point.mk (Grid.found_x1 feature) (Grid.found_y1 feature);
   Point.mk (Grid.found_x2 feature) (Grid.found_y1 feature);
   Point.mk (Grid.found_x2 feature) (Grid.found_y2 feature);
   Point.mk (Grid.found_x1 feature) (Grid.found_y2 feature)].

(** The feature [(b, f)] has an entry among [features] whose rectangle
    the query polygon intersects. *)
Definition intersected (intersects : list Point -> list Point -> bool)
    (query : list Point) (features : list Grid.Found) (b f : Z) : Prop :=
  exists feature : Grid.Found,
    In feature features
    /\ bucketInstanceId (Grid.found_key feature) = b
    /\ featureIndex (Grid.found_key feature) = f
    /\ intersects query (featureBox feature) = true.

(** What holds of [seenFeatures] and [result] after the features in
    [processed]: the features marked as seen are those intersected, the
    feature indices in [result] are those marked, and no sequence in
    [result] is empty. *)
Definition queryReports (intersects : list Point -> list Point -> bool)
    (query : list Point) (processed : list Grid.Found)
    (acc : gmap Z (gmap Z bool) * gmap Z (list Z)) : Prop :=
  (forall b f : Z,
     seenBefore (fst acc) b f = true <-> intersected intersects query processed b f)
  /\ (forall b f : Z,
        (exists fs : list Z, snd acc !! b = Some fs /\ In f fs)
        <-> seenBefore (fst acc) b f = true)
  /\ (forall (b : Z) (fs : list Z), snd acc !! b = Some fs -> fs <> []).

(** The corner of its quad that the [k]-th index of a quad refers to. *)
Definition quadCorner (k : Z) : Z :=
  match k with
  | 0 => 0 | 1 => 1 | 2 => 2 | 3 => 2 | 4 => 3 | _ => 0
  end%Z.

(** *** The vertices of the quads *)

(** The [k]-th number of the vertex at corner [corner] of the quad of the
    circle whose tuple starts at index [a] of the array: the centre, and
    the radius with the signs of the corner, (-, -), (-, +), (+, +),
    (+, -) in this order. *)
Definition cornerValue (arr : list R) (a corner k : Z) : Z :=
  let r := numberAt arr (a + 2) in
  match k with
  | 0 => ToInt16 (numberAt arr (a + 0))
  | 1 => ToInt16 (numberAt arr (a + 1))
  | 2 => ToInt16 (match corner with 0 | 1 => - r | _ => r end)
  | _ => ToInt16 (match corner with 0 | 3 => - r | _ => r end)
  end%Z.

(** The body of the loop of [appendQuads]: the four vertices of the
    circle at index [vIdx], from vertex [batchVertexIdx] on. *)
Definition appendQuad (arr : list R) (vIdx : Z) (int16 : list Z) (batchVertexIdx : Z)
  : list Z :=
  let r := numberAt arr (vIdx + 2) in
  let int16 := appendVertex int16 (batchVertexIdx + 0)
                 (numberAt arr (vIdx + 0)) (numberAt arr (vIdx + 1)) (- r) (- r) in
  let int16 := appendVertex int16 (batchVertexIdx + 1)
                 (numberAt arr (vIdx + 0)) (numberAt arr (vIdx + 1)) (- r) r in
  let int16 := appendVertex int16 (batchVertexIdx + 2)
                 (numberAt arr (vIdx + 0)) (numberAt arr (vIdx + 1)) r r in
  let int16 := appendVertex int16 (batchVertexIdx + 3)
                 (numberAt arr (vIdx + 0)) (numberAt arr (vIdx + 1)) r (- r) in
  int16.

(** *** What the draws of a tile show *)

(** What the draws [new] show of the array from index [o] on: full batches
    of [maxVerticesPerBatch] vertices and then the rest; two triangles
    for every four vertices; and in the [j]-th of them the vertices of the
    circles from index [o + j * maxVerticesPerBatch] on. *)
Definition batchesFrom (arr : list R) (o : Z) (new : list Draw) : Prop :=
  let left := (Z.of_nat (length arr) - o)%Z in
  map vertexLength new
  = replicate (Z.to_nat (left / maxVerticesPerBatch)) maxVerticesPerBatch
    ++ (if (left mod maxVerticesPerBatch =? 0)%Z then []
        else [(left mod maxVerticesPerBatch)%Z])
  /\ (forall d : Draw, In d new -> (primitiveLength d * 2 = vertexLength d)%Z)
  /\ (forall (j : nat) (d : Draw), new !! j = Some d ->
        forall m corner k : Z,
          (0 <= 4 * m < vertexLength d)%Z -> (0 <= corner < 4)%Z -> (0 <= k < 4)%Z ->
          vertexData d !! Z.to_nat ((4 * m + corner) * 4 + k)
          = Some (cornerValue arr (o + Z.of_nat j * maxVerticesPerBatch + 4 * m)
                    corner k)).

(** The draw that follows the loop, if any. *)
Definition leftover (st : BatchState) : list Draw :=
  if (batchVertexIdx st =? 0)%Z then [] else [drawBatch st].

(** *** Reprojection *)

(** The position in clip space of the point [(x, y)] of the plane of the
    tile under the matrix [m]. *)
Definition tileClipPos (m : mat4) (x y : R) : vec4 :=
  mulMat4Vec4 m (mkVec4 x y 0 1).

(** *** An index smaller than the example chain *)

(** The index of a 50 x 50 viewport with both grids empty: the chain of
    the example lies to the right of it and below. *)
Definition smallIndex : CollisionIndex :=
  newCollisionIndex (Transform.mk 50 50 1 0).

(** * Properties *)

(** ** Comparisons *)

Ltac cmp :=
  repeat case_bool_decide; simpl in *; try reflexivity; try discriminate; try lra.

(** ** [isOffscreen] *)

(** C10.  [isOffscreen] treats the far boundaries differently: a
    rectangle whose left edge [x1] is on [screenRightBoundary] is
    offscreen (the test is [x1 >= screenRightBoundary]), a rectangle whose
    top edge [y1] is on [screenBottomBoundary] is not, unless another test
    fires (the test is [y1 > screenBottomBoundary]); the near sides are
    tested by [x2 < viewportPadding] and [y2 < viewportPadding]. *)
Theorem isOffscreen_far_boundaries (this : CollisionIndex) (x1 y1 x2 y2 : R) :
  (isOffscreen this x1 y1 x2 y2 = true <->
     x2 < viewportPadding \/ x1 >= screenRightBoundary this
     \/ y2 < viewportPadding \/ y1 > screenBottomBoundary this)
  /\ isOffscreen this (screenRightBoundary this) y1 x2 y2 = true
  /\ isOffscreen this x1 (screenBottomBoundary this) x2 y2
     = (x2 <? viewportPadding) || (x1 >=? screenRightBoundary this)
       || (y2 <? viewportPadding).
Proof.
  unfold isOffscreen. repeat split.
  - rewrite !orb_true_iff, !bool_decide_eq_true. tauto.
  - rewrite !orb_true_iff, !bool_decide_eq_true. tauto.
  - cmp; rewrite ?orb_true_r; reflexivity.
  - cmp; rewrite ?orb_false_r; reflexivity.
Qed.

(** The index of an 800 x 600 viewport with both grids empty. *)
Example isOffscreen_on_the_boundaries (cameraToCenterDistance pitch : R) :
  let this := newCollisionIndex (Transform.mk 800 600 cameraToCenterDistance pitch) in
  isOffscreen this 900 300 950 350 = true
  /\ isOffscreen this 300 700 350 750 = false.
Proof. unfold isOffscreen, viewportPadding; simpl. unfold viewportPadding. split; cmp. Qed.

(** ** [markCollisionCircleUsed] *)

Lemma array_get_set_eq (a : JsArray) (i : nat) (v : R) :
  array_get (array_set a i v) i = Some v.
Proof.
  unfold array_get, array_set, JsArray in *.
  destruct (Nat.ltb_spec i (length a)) as [Hlt | Hge].
  - rewrite list_lookup_insert_eq by exact Hlt. reflexivity.
  - rewrite lookup_app_r by exact Hge.
    rewrite lookup_app_r by (rewrite length_replicate; lia).
    rewrite length_replicate, Nat.sub_diag. reflexivity.
Qed.

Lemma array_get_set_ne (a : JsArray) (i j : nat) (v : R) :
  j <> i -> array_get (array_set a i v) j = array_get a j.
Proof.
  intros Hne. unfold array_get, array_set, JsArray in *.
  destruct (Nat.ltb_spec i (length a)) as [Hlt | Hge].
  - rewrite list_lookup_insert_ne by congruence. reflexivity.
  - destruct (Nat.lt_ge_cases j (length a)) as [Hj | Hj].
    + rewrite lookup_app_l by exact Hj. reflexivity.
    + rewrite lookup_app_r by exact Hj.
      rewrite (lookup_ge_None_2 a j) by exact Hj. simpl.
      destruct (Nat.lt_ge_cases (j - length a) (i - length a)) as [Hk | Hk].
      * rewrite lookup_app_l by (rewrite length_replicate; exact Hk).
        rewrite lookup_replicate_2 by exact Hk. reflexivity.
      * rewrite lookup_app_r by (rewrite length_replicate; exact Hk).
        rewrite length_replicate.
        destruct (j - length a - (i - length a))%nat as [| k] eqn:Hd; [lia |].
        reflexivity.
Qed.

(** C9.  [markCollisionCircleUsed(collisionCircles, index, used)] writes 1
    or 0 to element [index + 4] and leaves every other element as it was;
    in particular element [index + 3], the used flag of the 4-tuple that
    begins at [index], is not modified. *)
Theorem markCollisionCircleUsed_frame (collisionCircles : JsArray) (index : nat)
    (used : bool) :
  array_get (markCollisionCircleUsed collisionCircles index used) (index + 4)
    = Some (if used then 1 else 0)
  /\ (forall j : nat, j <> (index + 4)%nat ->
        array_get (markCollisionCircleUsed collisionCircles index used) j
        = array_get collisionCircles j)
  /\ array_get (markCollisionCircleUsed collisionCircles index used) (index + 3)
     = array_get collisionCircles (index + 3).
Proof.
  unfold markCollisionCircleUsed. split; [| split].
  - apply array_get_set_eq.
  - intros j Hj. apply array_get_set_ne. exact Hj.
  - apply array_get_set_ne. lia.
Qed.

(** One circle [(cx, cy, radius, usedFlag)] followed by the start of the
    next: marking the first writes the x coordinate of the second. *)
Example markCollisionCircleUsed_first_tuple :
  markCollisionCircleUsed [Some 10; Some 20; Some 5; Some 0; Some 30; Some 40] 0 true
  = [Some 10; Some 20; Some 5; Some 0; Some 1; Some 40].
Proof. reflexivity. Qed.

(** ** Calls that do not insert *)

Lemma set_grid_same (this : CollisionIndex) : set_grid (grid this) this = this.
Proof. destruct this; reflexivity. Qed.

Lemma set_ignoredGrid_same (this : CollisionIndex) :
  set_ignoredGrid (ignoredGrid this) this = this.
Proof. destruct this; reflexivity. Qed.

(** Run on the object, [placeCollisionBox] returns what the function of
    the index gives and leaves the object as it was: its one call on a
    grid is [hitTest]. *)
Lemma placeCollisionBox_call_run (collisionBox : SingleCollisionBox)
    (allowOverlap : bool) (textPixelRatio : R) (posMatrix : mat4)
    (collisionGroupPredicate : Predicate) (this : CollisionIndex) :
  placeCollisionBox_call collisionBox allowOverlap textPixelRatio posMatrix
    collisionGroupPredicate this
  = (placeCollisionBox this collisionBox allowOverlap textPixelRatio posMatrix
       collisionGroupPredicate, this).
Proof.
  unfold placeCollisionBox_call, placeCollisionBox, projectedBox,
    projectAndGetPerspectiveRatio_call, isInsideGrid_call, isOffscreen_call,
    Method.bind, Method.read, Method.ret, Method.onGrid, GridCall.hitTest.
  cbv zeta.
  destruct (isInsideGrid this _ _ _ _); cbn [negb orb]; [| reflexivity].
  destruct allowOverlap; cbn [negb andb]; [reflexivity |].
  rewrite set_grid_same.
  destruct (Grid.hitTest (grid this) _ _ _ _ _); reflexivity.
Qed.

Lemma scanCircles_call_run (allowOverlap showCollisionCircles : bool)
    (collisionGroupPredicate : Predicate) (circles : list Circle) (st : ScanState)
    (this : CollisionIndex) :
  scanCircles_call allowOverlap showCollisionCircles collisionGroupPredicate circles st
    this
  = (scanCircles this allowOverlap showCollisionCircles collisionGroupPredicate
       circles st, this).
Proof.
  revert st. induction circles as [| circle rest IH]; intros st; [reflexivity |].
  cbn [scanCircles_call scanCircles].
  unfold isInsideGrid_call, isOffscreen_call, Method.bind, Method.read, Method.ret,
    Method.onGrid, GridCall.hitTestCircle in *.
  cbv zeta.
  destruct (entirelyOffscreen st), (inGrid st), allowOverlap;
    cbn [negb andb orb]; rewrite ?set_grid_same;
    try destruct (Grid.hitTestCircle (grid this) _ _ _ _);
    try destruct showCollisionCircles; cbn [negb]; try reflexivity; apply IH.
Qed.

Lemma insertCircleTuples_call_run (key : Key) (collisionCircles : list R) (g : Grid.t) :
  insertCircleTuples_call key collisionCircles g
  = (tt, insertCircleTuples key collisionCircles g).
Proof.
  revert g.
  assert (H : forall (n : nat) (cs : list R), (length cs <= n)%nat ->
            forall g, insertCircleTuples_call key cs g = (tt, insertCircleTuples key cs g)).
  { induction n as [| n IH]; intros cs Hn g.
    - destruct cs; [reflexivity | simpl in Hn; lia].
    - destruct cs as [| cx [| cy [| r [| u rest]]]]; try reflexivity.
      cbn [insertCircleTuples_call insertCircleTuples GridCall.insertCircle snd].
      apply IH. simpl in Hn. lia. }
  intros g. apply (H (length collisionCircles)). lia.
Qed.

(** The insertions run on the object change the grid they are made on,
    as the functions of the index say. *)
Lemma insertCollisionBox_call_run (collisionBox : list R) (ignorePlacement : bool)
    (b f g : Z) (this : CollisionIndex) :
  insertCollisionBox_call collisionBox ignorePlacement b f g this
  = (tt, insertCollisionBox collisionBox ignorePlacement b f g this).
Proof. destruct ignorePlacement; reflexivity. Qed.

Lemma insertCollisionCircles_call_run (collisionCircles : list R)
    (ignorePlacement : bool) (b f g : Z) (this : CollisionIndex) :
  insertCollisionCircles_call collisionCircles ignorePlacement b f g this
  = (tt, insertCollisionCircles collisionCircles ignorePlacement b f g this).
Proof.
  unfold insertCollisionCircles_call, insertCollisionCircles, Method.onGrid,
    Method.onIgnoredGrid.
  destruct ignorePlacement; rewrite insertCircleTuples_call_run; reflexivity.
Qed.

Section Idempotence.
Variables SymbolLineVertexArray GlyphOffsetArray : Type.
Variable project : Point -> mat4 -> Point.
Variable placeFirstAndLastGlyph :
  R -> GlyphOffsetArray -> R -> R -> bool -> Point -> Point -> Symbol ->
  SymbolLineVertexArray -> mat4 -> bool -> option FirstAndLastGlyph.t.
Variable polygonIntersectsPolygon : list Point -> list Point -> bool.

Lemma placeCollisionCircles_call_run (collisionCircles : list R)
    (allowOverlap : bool) (scale textPixelRatio : R) (symbol : Symbol)
    (lineVertexArray : SymbolLineVertexArray) (glyphOffsetArray : GlyphOffsetArray)
    (fontSize : R) (posMatrix labelPlaneMatrix : mat4)
    (showCollisionCircles pitchWithMap : bool)
    (collisionGroupPredicate : Predicate) (this : CollisionIndex) :
  placeCollisionCircles_call SymbolLineVertexArray GlyphOffsetArray project
    placeFirstAndLastGlyph collisionCircles allowOverlap scale textPixelRatio symbol
    lineVertexArray glyphOffsetArray fontSize posMatrix labelPlaneMatrix
    showCollisionCircles pitchWithMap collisionGroupPredicate this
  = (placeCollisionCircles project placeFirstAndLastGlyph this collisionCircles
       allowOverlap scale textPixelRatio symbol lineVertexArray glyphOffsetArray
       fontSize posMatrix labelPlaneMatrix showCollisionCircles pitchWithMap
       collisionGroupPredicate, this).
Proof.
  unfold placeCollisionCircles_call, placeCollisionCircles, projectAnchor_call,
    Method.bind, Method.read, Method.ret.
  cbv zeta.
  destruct (firstAndLastGlyphOf _ _ _ _ _ _ _ _ _) as [fl |]; [| reflexivity].
  rewrite scanCircles_call_run. reflexivity.
Qed.

Lemma queryRenderedSymbols_call_run (viewportQueryGeometry : list Point)
    (this : CollisionIndex) :
  queryRenderedSymbols_call polygonIntersectsPolygon viewportQueryGeometry this
  = (queryRenderedSymbols polygonIntersectsPolygon this viewportQueryGeometry, this).
Proof.
  unfold queryRenderedSymbols_call, queryRenderedSymbols, Method.bind, Method.ret,
    Method.onGrid, Method.onIgnoredGrid, GridCall.keysLength, GridCall.query.
  cbv zeta.
  destruct (length viewportQueryGeometry =? 0)%nat; [reflexivity |].
  rewrite !set_grid_same. cbn [orb].
  destruct (Grid.keysLength (grid this) =? 0)%nat; cbn [andb].
  - rewrite !set_ignoredGrid_same.
    destruct (Grid.keysLength (ignoredGrid this) =? 0)%nat; [reflexivity |].
    rewrite !set_grid_same, !set_ignoredGrid_same. reflexivity.
  - rewrite !set_grid_same, !set_ignoredGrid_same. reflexivity.
Qed.

(** A call that is not an insertion leaves the index as it was. *)
Lemma stateAfter_query
    (c : MethodCall SymbolLineVertexArray GlyphOffsetArray) (this : CollisionIndex) :
  inserts _ _ c = false ->
  stateAfter _ _ project placeFirstAndLastGlyph polygonIntersectsPolygon c this = this.
Proof.
  destruct c; cbn [inserts stateAfter]; intros Hc; try discriminate.
  - rewrite placeCollisionBox_call_run. reflexivity.
  - rewrite placeCollisionCircles_call_run. reflexivity.
  - rewrite queryRenderedSymbols_call_run. reflexivity.
Qed.

Lemma stateAfterAll_queries
    (cs : list (MethodCall SymbolLineVertexArray GlyphOffsetArray))
    (this : CollisionIndex) :
  forallb (fun c => negb (inserts _ _ c)) cs = true ->
  stateAfterAll _ _ project placeFirstAndLastGlyph polygonIntersectsPolygon cs this
  = this.
Proof.
  unfold stateAfterAll. revert this.
  induction cs as [| c cs IH]; intros this H; simpl.
  - reflexivity.
  - simpl in H. apply andb_true_iff in H as [Hc Hcs].
    rewrite stateAfter_query by (apply negb_true_iff; exact Hc).
    apply IH. exact Hcs.
Qed.

(** C7.  [placeCollisionBox] is a query: run on the index, it leaves the
    index as it was.  So do the calls of [placeCollisionBox],
    [placeCollisionCircles] and [queryRenderedSymbols], with any
    arguments, that are made before it is called a second time, and the
    second call with the same arguments returns the same result: the
    same box and the same offscreen flag. *)
Theorem placeCollisionBox_idempotent (this : CollisionIndex)
    (between : list (MethodCall SymbolLineVertexArray GlyphOffsetArray))
    (collisionBox : SingleCollisionBox) (allowOverlap : bool) (textPixelRatio : R)
    (posMatrix : mat4) (collisionGroupPredicate : Predicate) :
  forallb (fun c => negb (inserts _ _ c)) between = true ->
  let call :=
    placeCollisionBox_call collisionBox allowOverlap textPixelRatio posMatrix
      collisionGroupPredicate in
  let this' :=
    stateAfterAll _ _ project placeFirstAndLastGlyph polygonIntersectsPolygon between
      (snd (call this)) in
  snd (call this) = this
  /\ this' = this
  /\ PlacedBox.box (fst (call this')) = PlacedBox.box (fst (call this))
  /\ PlacedBox.offscreen (fst (call this')) = PlacedBox.offscreen (fst (call this))
  /\ snd (call this') = this.
Proof.
  intros Hq call this'.
  assert (Hfirst : snd (call this) = this)
    by (subst call; rewrite placeCollisionBox_call_run; reflexivity).
  assert (Hsame : this' = this).
  { subst this'. rewrite Hfirst. apply stateAfterAll_queries. exact Hq. }
  rewrite Hsame. repeat split; try reflexivity; exact Hfirst.
Qed.
End Idempotence.

(** ** Perspective ratio *)

(** An anchor at half the distance of the map centre: the ratio is 1.5. *)
Lemma perspectiveRatio_above_one :
  ~ perspectiveRatioInUnitInterval
      (newCollisionIndex (Transform.mk 800 600 1 0)) (scaleW 0.5) 0 0.
Proof.
  unfold perspectiveRatioInUnitInterval, clipSpaceW. simpl.
  intros H. destruct H as (_ & _ & _ & Hle); [lra |].
  replace (0 * 0 + 0 * 0 + 0.5) with (/ 2) in Hle by lra.
  unfold Rdiv in Hle. rewrite Rinv_inv in Hle. lra.
Qed.

(** C5 (amended).  For every anchor and matrix whose transform yields
    [w <> 0], [projectAnchor] and [projectAndGetPerspectiveRatio] return
    the same ratio [0.5 + 0.5 * (cameraToCenterDistance / w)], and
    [projectAnchor] returns [w] as the camera distance.  The ratio lies in
    (0, 1] exactly when [-1 < cameraToCenterDistance / w <= 1]; this is so
    when [0 < cameraToCenterDistance <= w], the anchor being no nearer to
    the camera than the map centre. *)
Theorem perspectiveRatio_formula (this : CollisionIndex) (posMatrix : mat4) (x y : R) :
  let c := Transform.cameraToCenterDistance (transform this) in
  let w := m3 posMatrix * x + m7 posMatrix * y + m15 posMatrix in
  let ratio := 0.5 + 0.5 * (c / w) in
  w <> 0 ->
  ProjectedAnchor.perspectiveRatio (projectAnchor this posMatrix x y) = ratio
  /\ ProjectedAnchor.cameraDistance (projectAnchor this posMatrix x y) = w
  /\ ProjectedPoint.perspectiveRatio (projectAndGetPerspectiveRatio this posMatrix x y)
     = ratio
  /\ (0 < ratio <= 1 <-> -1 < c / w <= 1)
  /\ (0 < c <= w -> 0.5 < ratio <= 1).
Proof.
  intros c w ratio Hw. subst ratio.
  split; [reflexivity |]. split; [reflexivity |]. split; [reflexivity |].
  split; [split; intros [H1 H2]; split; lra |].
  intros [Hc Hcw]. assert (Hwpos : 0 < w) by lra.
  assert (Hlo : 0 < c / w) by (apply Rdiv_lt_0_compat; lra).
  assert (Hhi : c / w <= 1).
  { apply (Rmult_le_reg_r w); [exact Hwpos |]. unfold Rdiv.
    rewrite Rmult_assoc, Rinv_l by lra. lra. }
  split; lra.
Qed.

Lemma perspectiveRatio_formula_witness :
  ProjectedAnchor.perspectiveRatio
    (projectAnchor (newCollisionIndex (Transform.mk 800 600 1 0)) (scaleW 2) 0 0)
  = 0.5 + 0.5 * (1 / (0 * 0 + 0 * 0 + 2)).
Proof.
  refine (proj1 (perspectiveRatio_formula
                   (newCollisionIndex (Transform.mk 800 600 1 0)) (scaleW 2) 0 0 _)).
  simpl. lra.
Defined.

(** ** Box placement against an inserted box *)

Lemma placeCollisionBox_eq (this : CollisionIndex) (collisionBox : SingleCollisionBox)
    (allowOverlap : bool) (textPixelRatio : R) (posMatrix : mat4)
    (predicate : Predicate) (tlX tlY brX brY : R) :
  projectedBox this collisionBox textPixelRatio posMatrix = (tlX, tlY, brX, brY) ->
  placeCollisionBox this collisionBox allowOverlap textPixelRatio posMatrix predicate
  = if negb (isInsideGrid this tlX tlY brX brY)
       || (negb allowOverlap && Grid.hitTest (grid this) tlX tlY brX brY predicate)
    then PlacedBox.mk [] false
    else PlacedBox.mk [tlX; tlY; brX; brY] (isOffscreen this tlX tlY brX brY).
Proof. intros H. unfold placeCollisionBox. rewrite H. reflexivity. Qed.

Lemma scenarioBox_projected :
  projectedBox (scenarioIndex 1 0) scenarioBox 1 (scaleW 1) = (45, 45, 65, 65).
Proof.
  unfold projectedBox, scenarioBox, viewportPadding. simpl. unfold viewportPadding.
  repeat f_equal; lra.
Qed.

(** The rectangle (45, 45, 65, 65) ends left of [viewportPadding = 100]:
    it lies in the padding, outside the viewport, and is offscreen. *)
Lemma scenario_offscreen_not_false :
  ~ scenarioAsStated scenarioBox 1 (scaleW 1) (sameGroup 0).
Proof.
  unfold scenarioAsStated. intros H.
  destruct (H scenarioBox_projected eq_refl) as [_ Hplaced].
  rewrite (placeCollisionBox_eq _ _ _ _ _ _ _ _ _ _ scenarioBox_projected) in Hplaced.
  unfold isInsideGrid, isOffscreen, viewportPadding in Hplaced. simpl in Hplaced.
  unfold viewportPadding in Hplaced.
  revert Hplaced. cmp.
Qed.

(** C2 (amended).  On the index of an 800 x 600 viewport (grid 1000 x 800)
    with the box (40, 40, 60, 60) inserted into the occlusion grid under
    key {1, 0, 0}, a [placeCollisionBox] call whose projected rectangle is
    (45, 45, 65, 65), with a predicate that accepts the key, returns the
    empty result when [allowOverlap] is false, and returns
    [{box: [45, 45, 65, 65], offscreen: true}] when [allowOverlap] is
    true. *)
Theorem scenario_placement (cameraToCenterDistance pitch : R)
    (collisionBox : SingleCollisionBox) (textPixelRatio : R) (posMatrix : mat4)
    (predicate : Predicate) :
  let this := scenarioIndex cameraToCenterDistance pitch in
  projectedBox this collisionBox textPixelRatio posMatrix = (45, 45, 65, 65) ->
  accepts predicate (mkKey 1 0 0) = true ->
  gridRightBoundary this = 1000 /\ gridBottomBoundary this = 800
  /\ placeCollisionBox this collisionBox false textPixelRatio posMatrix predicate
     = PlacedBox.mk [] false
  /\ placeCollisionBox this collisionBox true textPixelRatio posMatrix predicate
     = PlacedBox.mk [45; 45; 65; 65] true.
Proof.
  intros this Hbox Hacc.
  split; [| split]; [unfold viewportPadding; simpl; unfold viewportPadding; lra .. |].
  rewrite !(placeCollisionBox_eq _ _ _ _ _ _ _ _ _ _ Hbox).
  unfold isInsideGrid, isOffscreen, Grid.hitTest. simpl. rewrite Hacc.
  unfold viewportPadding. split; cmp.
Qed.

Lemma scenario_placement_witness :
  placeCollisionBox (scenarioIndex 1 0) scenarioBox true 1 (scaleW 1) (sameGroup 0)
  = PlacedBox.mk [45; 45; 65; 65] true.
Proof.
  exact (proj2 (proj2 (proj2
    (scenario_placement 1 0 scenarioBox 1 (scaleW 1) (sameGroup 0)
       scenarioBox_projected eq_refl)))).
Defined.

(** ** Insertion and later placement *)

Lemma grid_insertCircleTuples_entries (key : Key) (collisionCircles : list R)
    (g : Grid.t) :
  exists added : list Grid.Entry,
    Grid.entries (insertCircleTuples key collisionCircles g) = Grid.entries g ++ added.
Proof.
  assert (H : forall (n : nat) (cs : list R), (length cs <= n)%nat -> forall g,
             exists added : list Grid.Entry,
               Grid.entries (insertCircleTuples key cs g) = Grid.entries g ++ added).
  { induction n as [| n IH]; intros cs Hlen g0.
    - destruct cs; [| simpl in Hlen; lia].
      exists []. simpl. rewrite app_nil_r. reflexivity.
    - destruct cs as [| cx [| cy [| r [| u rest]]]]; simpl.
      + exists []. rewrite app_nil_r. reflexivity.
      + eexists. reflexivity.
      + eexists. reflexivity.
      + eexists. reflexivity.
      + destruct (IH rest ltac:(simpl in Hlen; lia) (Grid.insertCircle key cx cy r g0))
          as [added Hadded].
        rewrite Hadded. simpl. rewrite <- app_assoc. eexists. reflexivity. }
  exact (H (length collisionCircles) collisionCircles (Nat.le_refl _) g).
Qed.

(** Calls only add entries to the occlusion grid, and leave the
    transform and the boundaries as they are. *)
Lemma after_grows (c : Call) (this : CollisionIndex) :
  (exists added, Grid.entries (grid (after c this)) = Grid.entries (grid this) ++ added)
  /\ transform (after c this) = transform this
  /\ gridRightBoundary (after c this) = gridRightBoundary this
  /\ gridBottomBoundary (after c this) = gridBottomBoundary this
  /\ screenRightBoundary (after c this) = screenRightBoundary this
  /\ screenBottomBoundary (after c this) = screenBottomBoundary this.
Proof.
  destruct c as [| | | cb ig b f g | cc ig b f g]; simpl;
    try (split; [exists []; rewrite app_nil_r; reflexivity | auto 6]).
  - unfold insertCollisionBox. destruct ig; simpl.
    + split; [exists []; rewrite app_nil_r; reflexivity | auto 6].
    + split; [eexists; reflexivity | auto 6].
  - unfold insertCollisionCircles. destruct ig; simpl.
    + split; [exists []; rewrite app_nil_r; reflexivity | auto 6].
    + split; [apply grid_insertCircleTuples_entries | auto 6].
Qed.

Lemma afterAll_grows (cs : list Call) (this : CollisionIndex) :
  (exists added,
     Grid.entries (grid (afterAll cs this)) = Grid.entries (grid this) ++ added)
  /\ transform (afterAll cs this) = transform this
  /\ gridRightBoundary (afterAll cs this) = gridRightBoundary this
  /\ gridBottomBoundary (afterAll cs this) = gridBottomBoundary this
  /\ screenRightBoundary (afterAll cs this) = screenRightBoundary this
  /\ screenBottomBoundary (afterAll cs this) = screenBottomBoundary this.
Proof.
  unfold afterAll. revert this. induction cs as [| c cs IH]; intros this; simpl.
  - split; [exists []; rewrite app_nil_r; reflexivity | auto 6].
  - destruct (IH (after c this)) as ([added2 H2] & Ht & Hr & Hb & Hsr & Hsb).
    destruct (after_grows c this) as ([added1 H1] & Ht1 & Hr1 & Hb1 & Hsr1 & Hsb1).
    split; [| repeat split; congruence].
    exists (added1 ++ added2). rewrite H2, H1, app_assoc. reflexivity.
Qed.

(** The box stays in the occlusion grid through later calls. *)
Lemma inserted_box_stays (this : CollisionIndex) (bx1 by1 bx2 by2 : R) (b f g : Z)
    (later : list Call) :
  In (Grid.mkEntry (mkKey b f g) (Grid.Box bx1 by1 bx2 by2))
     (Grid.entries
        (grid (afterAll later
                 (insertCollisionBox [bx1; by1; bx2; by2] false b f g this)))).
Proof.
  destruct (afterAll_grows later
              (insertCollisionBox [bx1; by1; bx2; by2] false b f g this))
    as ([added Hadded] & _).
  rewrite Hadded. unfold insertCollisionBox. simpl.
  apply in_or_app. left. apply in_or_app. right. left. reflexivity.
Qed.

Lemma hitTest_true_of_entry (g : Grid.t) (x1 y1 x2 y2 : R) (predicate : Predicate)
    (e : Grid.Entry) :
  In e (Grid.entries g) ->
  accepts predicate (Grid.key e) = true ->
  Grid.boxMeets x1 y1 x2 y2 (Grid.shape e) = true ->
  Grid.hitTest g x1 y1 x2 y2 predicate = true.
Proof.
  intros Hin Hacc Hmeets. unfold Grid.hitTest. apply existsb_exists.
  exists e. split; [exact Hin |]. rewrite Hacc, Hmeets. reflexivity.
Qed.

Lemma hitTest_false_of_noMatchingOverlap (this : CollisionIndex) (predicate : Predicate)
    (x1 y1 x2 y2 : R) :
  noMatchingOverlap this predicate x1 y1 x2 y2 ->
  Grid.hitTest (grid this) x1 y1 x2 y2 predicate = false.
Proof.
  intros Hno. unfold Grid.hitTest.
  apply not_true_is_false. intros Hex. apply existsb_exists in Hex as (e & Hin & He).
  apply andb_true_iff in He as [Hacc Hmeets].
  rewrite (Hno e Hin Hacc) in Hmeets. discriminate.
Qed.

Lemma outsideBox_projected (this : CollisionIndex) :
  transform this = Transform.mk 800 600 1 0 ->
  projectedBox this outsideBox 1 (scaleW 1) = (-40, -40, -20, -20).
Proof.
  intros Ht. unfold projectedBox, outsideBox. simpl. rewrite Ht. simpl.
  unfold viewportPadding. repeat f_equal; lra.
Qed.

(** The box (-50, -50, 10, 10) reaches into the grid and can be placed
    and inserted.  A later box projected to (-40, -40, -20, -20) meets it
    but lies outside the grid: it is rejected whatever the predicate. *)
Lemma outside_grid_rejected_in_other_group :
  ~ insertionBlocksSameGroup (newCollisionIndex (Transform.mk 800 600 1 0))
      (-50) (-50) 10 10 1 0 0 [] outsideBox 1 (scaleW 1) (otherGroups 0).
Proof.
  unfold insertionBlocksSameGroup.
  set (this' := afterAll [] _).
  assert (Hbox : projectedBox this' outsideBox 1 (scaleW 1) = (-40, -40, -20, -20))
    by (apply outsideBox_projected; reflexivity).
  rewrite Hbox, (placeCollisionBox_eq _ _ _ _ _ _ _ _ _ _ Hbox).
  intros H.
  assert (Hmeets : Grid.boxMeets (-40) (-40) (-20) (-20) (Grid.Box (-50) (-50) 10 10) = true)
    by (simpl; cmp).
  destruct (H Hmeets) as [_ Hplaced].
  assert (Hexcl : excludesGroup (otherGroups 0) 0).
  { intros k Hk. simpl. rewrite Hk. reflexivity. }
  assert (Hno : noMatchingOverlap this' (otherGroups 0) (-40) (-40) (-20) (-20)).
  { intros e [He | []] Hacc. subst e. simpl in Hacc. discriminate. }
  specialize (Hplaced Hexcl Hno).
  unfold isInsideGrid in Hplaced. simpl in Hplaced.
  revert Hplaced. cmp.
Qed.

(** C1 (amended).  Let a box B be inserted by [insertCollisionBox] with
    [ignorePlacement = false] under collision group [g], and let a later
    [placeCollisionBox] call with [allowOverlap = false] have a projected
    rectangle that meets B.  When the predicate accepts the entries of
    group [g] the call returns the empty box.  When the predicate excludes
    group [g], no entry it accepts meets the rectangle, and the rectangle
    passes [isInsideGrid], the call returns the projected rectangle. *)
Theorem insertion_blocks_same_group (this : CollisionIndex) (bx1 by1 bx2 by2 : R)
    (b f g : Z) (later : list Call) (collisionBox : SingleCollisionBox)
    (textPixelRatio : R) (posMatrix : mat4) (predicate : Predicate)
    (tlX tlY brX brY : R) :
  let this' :=
    afterAll later (insertCollisionBox [bx1; by1; bx2; by2] false b f g this) in
  projectedBox this' collisionBox textPixelRatio posMatrix = (tlX, tlY, brX, brY) ->
  Grid.boxMeets tlX tlY brX brY (Grid.Box bx1 by1 bx2 by2) = true ->
  (acceptsGroup predicate g ->
     placeCollisionBox this' collisionBox false textPixelRatio posMatrix predicate
     = PlacedBox.mk [] false)
  /\ (excludesGroup predicate g ->
      noMatchingOverlap this' predicate tlX tlY brX brY ->
      isInsideGrid this' tlX tlY brX brY = true ->
      placeCollisionBox this' collisionBox false textPixelRatio posMatrix predicate
      = PlacedBox.mk [tlX; tlY; brX; brY] (isOffscreen this' tlX tlY brX brY)).
Proof.
  intros this' Hbox Hmeets.
  rewrite (placeCollisionBox_eq _ _ _ _ _ _ _ _ _ _ Hbox). split.
  - intros Hacc.
    rewrite (hitTest_true_of_entry _ _ _ _ _ _
               (Grid.mkEntry (mkKey b f g) (Grid.Box bx1 by1 bx2 by2))).
    + rewrite orb_true_r. reflexivity.
    + apply inserted_box_stays.
    + apply Hacc. reflexivity.
    + exact Hmeets.
  - intros _ Hno Hinside.
    rewrite Hinside, (hitTest_false_of_noMatchingOverlap _ _ _ _ _ _ Hno).
    reflexivity.
Qed.

Lemma scenarioBox_projected_at (this : CollisionIndex) :
  transform this = Transform.mk 800 600 1 0 ->
  projectedBox this scenarioBox 1 (scaleW 1) = (45, 45, 65, 65).
Proof.
  intros Ht. unfold projectedBox, scenarioBox. simpl. rewrite Ht. simpl.
  unfold viewportPadding. repeat f_equal; lra.
Qed.

Lemma insertion_blocks_same_group_witness :
  let this' :=
    afterAll [PlaceCollisionBox; InsertCollisionBox [200; 200; 220; 220] true 2 0 0]
      (insertCollisionBox [40; 40; 60; 60] false 1 0 0
         (newCollisionIndex (Transform.mk 800 600 1 0))) in
  placeCollisionBox this' scenarioBox false 1 (scaleW 1) (sameGroup 0)
    = PlacedBox.mk [] false
  /\ placeCollisionBox this' scenarioBox false 1 (scaleW 1) (otherGroups 0)
     = PlacedBox.mk [45; 45; 65; 65] (isOffscreen this' 45 45 65 65).
Proof.
  intros this'.
  assert (Hmeets : Grid.boxMeets 45 45 65 65 (Grid.Box 40 40 60 60) = true)
    by (simpl; cmp).
  split.
  - apply (proj1 (insertion_blocks_same_group
                    (newCollisionIndex (Transform.mk 800 600 1 0)) 40 40 60 60 1 0 0
                    [PlaceCollisionBox; InsertCollisionBox [200; 200; 220; 220] true 2 0 0]
                    scenarioBox 1 (scaleW 1) (sameGroup 0) 45 45 65 65
                    (scenarioBox_projected_at this' eq_refl) Hmeets)).
    intros k Hk. simpl. rewrite Hk. reflexivity.
  - apply (proj2 (insertion_blocks_same_group
                    (newCollisionIndex (Transform.mk 800 600 1 0)) 40 40 60 60 1 0 0
                    [PlaceCollisionBox; InsertCollisionBox [200; 200; 220; 220] true 2 0 0]
                    scenarioBox 1 (scaleW 1) (otherGroups 0) 45 45 65 65
                    (scenarioBox_projected_at this' eq_refl) Hmeets)).
    + intros k Hk. simpl. rewrite Hk. reflexivity.
    + intros e [He | []] Hacc. subst e. simpl in Hacc. discriminate.
    + unfold isInsideGrid. simpl. unfold viewportPadding. cmp.
Defined.

Lemma placeCollisionBox_idempotent_witness :
  let this := scenarioIndex 1 0 in
  let call := placeCollisionBox_call scenarioBox true 1 (scaleW 1) None in
  PlacedBox.box
    (fst (call
            (stateAfterAll unit unit exampleProject examplePlaceFirstAndLastGlyph
               (fun _ _ => true)
               [CallPlaceCollisionCircles unit unit [] false 1 1 (mkSymbol 0 0 0 0)
                  tt tt 24 (scaleW 1) (scaleW 1) false false None;
                CallQueryRenderedSymbols unit unit [Point.mk 0 0];
                CallPlaceCollisionBox unit unit scenarioBox false 1 (scaleW 1) None]
               (snd (call this)))))
  = PlacedBox.box (fst (call this)).
Proof.
  exact (proj1 (proj2 (proj2
           (placeCollisionBox_idempotent unit unit exampleProject
              examplePlaceFirstAndLastGlyph (fun _ _ => true) (scenarioIndex 1 0)
              [CallPlaceCollisionCircles unit unit [] false 1 1 (mkSymbol 0 0 0 0)
                 tt tt 24 (scaleW 1) (scaleW 1) false false None;
               CallQueryRenderedSymbols unit unit [Point.mk 0 0];
               CallPlaceCollisionBox unit unit scenarioBox false 1 (scaleW 1) None]
              scenarioBox true 1 (scaleW 1) None eq_refl)))).
Defined.

(** ** [clipLine] *)

Lemma computeRegion_bits (p min max : Point) :
  let left := bool_to_Z (Point.x p <? Point.x min) in
  let right := bool_to_Z (Point.x p >? Point.x max) in
  let top := bool_to_Z (Point.y p <? Point.y min) in
  let bottom := bool_to_Z (Point.y p >? Point.y max) in
  computeRegion p min max = (left + 2 * right + 8 * top + 4 * bottom)%Z.
Proof.
  unfold computeRegion.
  destruct (Point.x p <? Point.x min), (Point.x p >? Point.x max),
           (Point.y p <? Point.y min), (Point.y p >? Point.y max); reflexivity.
Qed.

Lemma computeRegion_inside (p min max : Point) :
  inside p min max -> computeRegion p min max = 0%Z.
Proof.
  intros [[Hx1 Hx2] [Hy1 Hy2]]. rewrite computeRegion_bits.
  rewrite !bool_decide_eq_false_2 by lra. reflexivity.
Qed.

Lemma computeRegion_sameOuterRegion (start end_ min max : Point) :
  sameOuterRegion start end_ min max ->
  computeRegion start min max = computeRegion end_ min max
  /\ computeRegion start min max <> 0%Z.
Proof.
  intros (Hl & Hr & Ht & Hb & Hsome). rewrite !computeRegion_bits.
  rewrite (bool_decide_ext _ _ Hl), (bool_decide_ext _ _ Hr),
          (bool_decide_ext _ _ Ht), (bool_decide_ext _ _ Hb).
  split; [reflexivity |].
  rewrite Hl, Hr, Ht, Hb in Hsome.
  repeat case_bool_decide; simpl; try lia. tauto.
Qed.

(** A segment of length [2^-19] left of the rectangle that crosses the
    line of its top edge: the regions differ, the segment is shorter than
    [epsilon], and it is returned as it is. *)
Lemma clipLine_short_segment_left :
  ~ clipLineAsStated (Point.mk (-1) (/ 1048576)) (Point.mk (-1) (- / 1048576))
      (Point.mk 0 0) (Point.mk 10 10).
Proof.
  intros [_ H].
  assert (Hside : beyondOneSide (Point.mk (-1) (/ 1048576)) (Point.mk (-1) (- / 1048576))
                    (Point.mk 0 0) (Point.mk 10 10)).
  { left. simpl. lra. }
  specialize (H Hside). revert H.
  unfold clipLine. rewrite !computeRegion_bits. simpl.
  assert (Hlen : Point.mag (Point.sub (Point.mk (-1) (- / 1048576))
                                      (Point.mk (-1) (/ 1048576))) = / 524288).
  { unfold Point.mag, Point.sub. simpl.
    replace ((-1 - -1) * (-1 - -1) + (- / 1048576 - / 1048576) * (- / 1048576 - / 1048576))
      with (/ 524288 * / 524288) by lra.
    apply sqrt_square. lra. }
  rewrite Hlen. unfold epsilon. cmp.
Qed.

(** X21.  For every segment whose two endpoints lie inside the
    rectangle [min, max], [clipLine] returns the endpoints as they are;
    and for every segment whose two endpoints lie in the same one of the
    eight regions around the rectangle (for example both strictly left of
    [min.x] and both between [min.y] and [max.y]), [clipLine] returns
    null. *)
Theorem clipLine_trivial_cases (start end_ min max : Point) :
  (inside start min max -> inside end_ min max ->
     clipLine start end_ min max = Some (start, end_))
  /\ (sameOuterRegion start end_ min max -> clipLine start end_ min max = None).
Proof.
  split.
  - intros Hs He. unfold clipLine.
    rewrite (computeRegion_inside _ _ _ Hs), (computeRegion_inside _ _ _ He).
    reflexivity.
  - intros Hsame. unfold clipLine.
    destruct (computeRegion_sameOuterRegion _ _ _ _ Hsame) as [Heq Hne].
    rewrite <- Heq, Z.eqb_refl.
    unfold truthy. apply Z.eqb_neq in Hne. rewrite Hne. reflexivity.
Qed.

Lemma clipLine_trivial_cases_witness :
  clipLine (Point.mk 1 2) (Point.mk 3 4) (Point.mk 0 0) (Point.mk 10 10)
    = Some (Point.mk 1 2, Point.mk 3 4)
  /\ clipLine (Point.mk (-3) 2) (Point.mk (-1) 4) (Point.mk 0 0) (Point.mk 10 10)
     = None.
Proof.
  split.
  - apply (proj1 (clipLine_trivial_cases (Point.mk 1 2) (Point.mk 3 4)
                    (Point.mk 0 0) (Point.mk 10 10)));
      unfold inside; simpl; lra.
  - apply (proj2 (clipLine_trivial_cases (Point.mk (-3) 2) (Point.mk (-1) 4)
                    (Point.mk 0 0) (Point.mk 10 10))).
    unfold sameOuterRegion; simpl. repeat split; intros; lra || (left; lra).
Defined.

Lemma Number_MAX_VALUE_large : 1000 < Number_MAX_VALUE.
Proof.
  unfold Number_MAX_VALUE.
  assert (H1 : 2 ^ 10 <= 2 ^ 1023) by (apply Rle_pow; [lra | lia]).
  assert (H2 : 0 < / 2 ^ 52 <= 1).
  { split.
    - apply Rinv_0_lt_compat, pow_lt; lra.
    - rewrite <- Rinv_1. apply Rinv_le_contravar; [lra |].
      apply pow_R1_Rle. lra. }
  assert (H3 : 2 ^ 10 = 1024) by (simpl; lra).
  nra.
Qed.

Ltac decide_cmp :=
  repeat match goal with
  | |- context [bool_decide ?P] =>
      first [ rewrite (bool_decide_eq_true_2 P) by lra
            | rewrite (bool_decide_eq_false_2 P) by lra ]
  end.

(** A segment of length 5 left of the rectangle, with its start level
    with the rectangle and its end just above the line of the top edge:
    the slab test on x passes, the segment counts as parallel to the x
    axis, and the clamped parameters give its end point twice. *)
Lemma clipLine_long_segment_left :
  clipLine (Point.mk (-10) (/ 1048576)) (Point.mk (-5) (- / 1048576))
    (Point.mk 0 0) (Point.mk 10 10)
  = Some (Point.mk (-5) (- / 1048576), Point.mk (-5) (- / 1048576)).
Proof.
  unfold clipLine. rewrite !computeRegion_bits. simpl.
  set (len := Point.mag _).
  assert (Hlen : 5 <= len <= 6).
  { subst len. unfold Point.mag, Point.sub. simpl.
    set (sq := _ + _).
    assert (H5 : sqrt (5 * 5) <= sqrt sq) by (apply sqrt_le_1_alt; subst sq; nra).
    assert (H6 : sqrt sq <= sqrt (6 * 6)) by (apply sqrt_le_1_alt; subst sq; nra).
    rewrite sqrt_square in H5, H6 by lra. lra. }
  assert (Hix : / 6 <= / len <= / 5).
  { split; apply Rinv_le_contravar; lra. }
  assert (Hone : len * / len = 1) by (apply Rinv_r; lra).
  pose proof Number_MAX_VALUE_large as Hmax.
  unfold Rdiv, epsilon.
  replace (/ ((-5 - -10) * / len)) with (len * / 5) by (field; lra).
  set (ix := / len) in *.
  rewrite (Rabs_right ((-5 - -10) * ix)) by lra.
  rewrite (Rabs_left ((- / 1048576 - / 1048576) * ix)) by lra.
  decide_cmp. simpl. decide_cmp. simpl.
  rewrite !Rmin_right by lra. rewrite Hone.
  unfold Point.add, Point.mult, Point.sub. simpl.
  repeat f_equal; lra.
Qed.

(** C6 (where the code departs from the claim).  A segment of length 5
    with both endpoints strictly left of [min.x]: from (-8, -2) to (-4, 1)
    against the rectangle (0, 0)-(10, 10).  The two region codes differ,
    both slab tests pass with [tMin = 10] and [tMax = 20], beyond the
    length of the segment, and the clamped parameters give the end point
    twice instead of [null].  The same segment taken from its other end
    is rejected by the test [tMax < 0] and gives [null]: there is no
    test of [tMin] against the length. *)
Theorem clipLine_left_of_rectangle :
  beyondOneSide (Point.mk (-8) (-2)) (Point.mk (-4) 1) (Point.mk 0 0) (Point.mk 10 10)
  /\ clipLine (Point.mk (-8) (-2)) (Point.mk (-4) 1) (Point.mk 0 0) (Point.mk 10 10)
     = Some (Point.mk (-4) 1, Point.mk (-4) 1)
  /\ clipLine (Point.mk (-4) 1) (Point.mk (-8) (-2)) (Point.mk 0 0) (Point.mk 10 10)
     = None.
Proof.
  pose proof Number_MAX_VALUE_large as Hmax.
  assert (Hlen : forall a b : R, a * a + b * b = 5 * 5 -> sqrt (a * a + b * b) = 5).
  { intros a b ->. apply sqrt_square. lra. }
  split; [left; simpl; lra |]. split.
  - unfold clipLine. rewrite !computeRegion_bits. simpl.
    unfold Point.mag, Point.sub, Point.div. simpl.
    rewrite (Hlen (-4 - -8) (1 - -2)) by lra.
    unfold epsilon, Rdiv.
    replace ((-4 - -8) * / 5) with (4 * / 5) by lra.
    replace ((1 - -2) * / 5) with (3 * / 5) by lra.
    replace (1 * / (4 * / 5)) with (5 * / 4) by (field; lra).
    replace (1 * / (3 * / 5)) with (5 * / 3) by (field; lra).
    rewrite (Rabs_right (4 * / 5)), (Rabs_right (3 * / 5)) by lra.
    decide_cmp. simpl. decide_cmp. simpl.
    rewrite !Rmin_right by lra.
    unfold Point.add, Point.mult. simpl.
    repeat f_equal; lra.
  - unfold clipLine. rewrite !computeRegion_bits. simpl.
    unfold Point.mag, Point.sub, Point.div. simpl.
    rewrite (Hlen (-8 - -4) (-2 - 1)) by lra.
    unfold epsilon, Rdiv.
    replace ((-8 - -4) * / 5) with (- (4 * / 5)) by lra.
    replace (1 * / - (4 * / 5)) with (- (5 * / 4)) by (field; lra).
    rewrite (Rabs_left (- (4 * / 5))) by lra.
    decide_cmp. simpl. decide_cmp. reflexivity.
Qed.

(** ** Scanning the circles of a chain *)

(** Without debug circles the scan returns at the first circle that
    hits: whatever follows it is not looked at. *)
Lemma scanCircles_returns_at_first_hit (this : CollisionIndex) (predicate : Predicate)
    (before : list Circle) (c : Circle) (rest : list Circle) (st : ScanState) :
  forallb (fun c' => negb (circleHits this predicate c')) before = true ->
  circleHits this predicate c = true ->
  scanCircles this false false predicate (before ++ c :: rest) st
  = inl (PlacedCircles.mk [] false).
Proof.
  revert st. induction before as [| c' before IH]; intros st Hbefore Hc; simpl.
  - unfold circleHits in Hc. rewrite Hc. reflexivity.
  - simpl in Hbefore. apply andb_true_iff in Hbefore as [Hc' Hbefore].
    apply negb_true_iff in Hc'. unfold circleHits in Hc'. rewrite Hc'. simpl.
    apply IH; assumption.
Qed.

Lemma first_hit (this : CollisionIndex) (predicate : Predicate) (circles : list Circle)
    (c : Circle) :
  In c circles -> circleHits this predicate c = true ->
  exists before c' rest,
    circles = before ++ c' :: rest
    /\ forallb (fun c' => negb (circleHits this predicate c')) before = true
    /\ circleHits this predicate c' = true.
Proof.
  induction circles as [| d circles IH]; intros Hin Hc; [destruct Hin |].
  destruct (circleHits this predicate d) eqn:Hd.
  - exists [], d, circles. auto.
  - destruct Hin as [-> | Hin]; [congruence |].
    destruct (IH Hin Hc) as (before & c' & rest & -> & Hbefore & Hc').
    exists (d :: before), c', rest. simpl. rewrite Hd. auto.
Qed.

(** With debug circles the scan never returns early: it ends after the
    last circle, with every circle accounted for. *)
Lemma scanCircles_scans_all (this : CollisionIndex) (allowOverlap : bool)
    (predicate : Predicate) (circles : list Circle) (st : ScanState) :
  scanCircles this allowOverlap true predicate circles st
  = inr (mkScanState
           (placedCollisionCircles st ++ flat_map circleTuple circles)
           (collisionDetected st
            || (negb allowOverlap && existsb (circleHits this predicate) circles))
           (inGrid st || existsb (circleInsideGrid this) circles)
           (entirelyOffscreen st && forallb (circleOffscreen this) circles)).
Proof.
  revert st. induction circles as [| c circles IH]; intros st; simpl.
  - rewrite app_nil_r, andb_false_r, !orb_false_r, andb_true_r. destruct st; reflexivity.
  - fold (circleHits this predicate c). fold (circleOffscreen this c).
    fold (circleInsideGrid this c).
    destruct (negb allowOverlap && circleHits this predicate c) eqn:Hhit; simpl;
      rewrite IH; simpl; do 2 f_equal.
    all: try (rewrite <- app_assoc; reflexivity).
    all: rewrite ?orb_assoc, ?andb_assoc; try reflexivity.
    + apply andb_true_iff in Hhit as [-> ->]. simpl. rewrite orb_true_r. reflexivity.
    + destruct allowOverlap; simpl in *; [reflexivity |]. rewrite Hhit. reflexivity.
Qed.

(** A scan that reaches the end has appended the tuple of every circle. *)
Lemma scanCircles_placed (this : CollisionIndex) (allowOverlap showCollisionCircles : bool)
    (predicate : Predicate) (circles : list Circle) (st st' : ScanState) :
  scanCircles this allowOverlap showCollisionCircles predicate circles st = inr st' ->
  placedCollisionCircles st'
  = placedCollisionCircles st ++ flat_map circleTuple circles.
Proof.
  revert st. induction circles as [| c circles IH]; intros st; simpl.
  - intros [= <-]. rewrite app_nil_r. reflexivity.
  - destruct (negb allowOverlap && Grid.hitTestCircle _ _ _ _ _);
      [destruct (negb showCollisionCircles); [discriminate |] |];
      intros H; rewrite (IH _ H); simpl; rewrite <- app_assoc; reflexivity.
Qed.

(** The only result returned from inside the loop is the empty one. *)
Lemma scan_returns_empty (this : CollisionIndex) (allowOverlap showCollisionCircles : bool)
    (predicate : Predicate) (circles : list Circle) (st : ScanState)
    (returned : PlacedCircles.t) :
  scanCircles this allowOverlap showCollisionCircles predicate circles st = inl returned ->
  returned = PlacedCircles.mk [] false.
Proof.
  revert st. induction circles as [| c circles IH]; intros st; simpl; [discriminate |].
  destruct (negb allowOverlap && Grid.hitTestCircle _ _ _ _ _);
    [destruct (negb showCollisionCircles); [intros [= <-]; reflexivity |] |];
    apply IH.
Qed.

Section CircleProperties.
Context {SymbolLineVertexArray GlyphOffsetArray : Type}.
Variable project : Point -> mat4 -> Point.
Variable placeFirstAndLastGlyph :
  R -> GlyphOffsetArray -> R -> R -> bool -> Point -> Point -> Symbol ->
  SymbolLineVertexArray -> mat4 -> bool -> option FirstAndLastGlyph.t.

(** C4.  In a [placeCollisionCircles] call with [allowOverlap = false]
    in which at least one circle of the chain hits an entry of the
    occlusion grid that the predicate accepts, the circles returned are
    empty.  Without [showCollisionCircles] the routine returns at the
    first such circle, with [offscreen = false]; with it the routine
    scans all circles (the offscreen flag is the conjunction over all of
    them) and returns empty circles at the end. *)
Theorem placeCollisionCircles_collision (this : CollisionIndex)
    (collisionCircles : list R) (scale textPixelRatio : R) (symbol : Symbol)
    (lineVertexArray : SymbolLineVertexArray) (glyphOffsetArray : GlyphOffsetArray)
    (fontSize : R) (posMatrix labelPlaneMatrix : mat4)
    (showCollisionCircles pitchWithMap : bool) (predicate : Predicate)
    (firstAndLastGlyph : FirstAndLastGlyph.t) (circle : Circle) :
  let chain :=
    chainCircles this (projectAnchor this posMatrix (anchorX symbol) (anchorY symbol))
      firstAndLastGlyph in
  let placed :=
    placeCollisionCircles project placeFirstAndLastGlyph this collisionCircles
      false scale textPixelRatio symbol lineVertexArray glyphOffsetArray fontSize
      posMatrix labelPlaneMatrix showCollisionCircles pitchWithMap predicate in
  firstAndLastGlyphOf project placeFirstAndLastGlyph this symbol lineVertexArray
    glyphOffsetArray fontSize posMatrix labelPlaneMatrix = Some firstAndLastGlyph ->
  In circle chain ->
  circleHits this predicate circle = true ->
  PlacedCircles.circles placed = []
  /\ (showCollisionCircles = false -> placed = PlacedCircles.mk [] false)
  /\ (showCollisionCircles = true ->
      PlacedCircles.offscreen placed = forallb (circleOffscreen this) chain).
Proof.
  intros chain placed Hfl Hin Hhit. subst placed. unfold placeCollisionCircles.
  rewrite Hfl. fold chain.
  destruct showCollisionCircles.
  - rewrite scanCircles_scans_all. simpl.
    assert (Hex : existsb (circleHits this predicate) chain = true)
      by (apply existsb_exists; exists circle; auto).
    rewrite Hex. simpl.
    split; [reflexivity |]. split; [discriminate | reflexivity].
  - destruct (first_hit this predicate chain circle Hin Hhit)
      as (before & c' & rest & Hchain & Hbefore & Hc').
    rewrite Hchain, (scanCircles_returns_at_first_hit _ _ _ _ _ _ Hbefore Hc').
    split; [reflexivity |]. split; [reflexivity | discriminate].
Qed.
End CircleProperties.

(** ** The reverse query *)

Lemma seenBefore_init (seenFeatures : gmap Z (gmap Z bool)) (b b' f' : Z) :
  seenBefore (match seenFeatures !! b with
              | None => <[b := ∅]> seenFeatures
              | Some _ => seenFeatures
              end) b' f'
  = seenBefore seenFeatures b' f'.
Proof.
  destruct (seenFeatures !! b) eqn:Hb; [reflexivity |].
  unfold seenBefore. destruct (decide (b = b')) as [<- | Hne].
  - rewrite lookup_insert_eq, Hb, lookup_empty. reflexivity.
  - rewrite lookup_insert_ne by exact Hne. reflexivity.
Qed.

Lemma seenBefore_mark (seenFeatures : gmap Z (gmap Z bool)) (b f b' f' : Z) :
  seenBefore (<[b := <[f := true]> (default ∅ (seenFeatures !! b))]> seenFeatures) b' f'
  = if decide (b = b' /\ f = f') then true else seenBefore seenFeatures b' f'.
Proof.
  unfold seenBefore. destruct (decide (b = b')) as [<- | Hne].
  - rewrite lookup_insert_eq. destruct (decide (f = f')) as [<- | Hnf].
    + rewrite lookup_insert_eq. rewrite decide_True by auto. reflexivity.
    + rewrite lookup_insert_ne by exact Hnf. rewrite decide_False by tauto.
      destruct (seenFeatures !! b); simpl; [reflexivity |].
      rewrite lookup_empty. reflexivity.
  - rewrite lookup_insert_ne by exact Hne. rewrite decide_False by tauto. reflexivity.
Qed.

Section QueryProperties.
Variable polygonIntersectsPolygon : list Point -> list Point -> bool.

Lemma queryFeature_invariant (query : list Point)
    (acc : gmap Z (gmap Z bool) * gmap Z (list Z)) (feature : Grid.Found) :
  queryInvariant acc ->
  queryInvariant (queryFeature polygonIntersectsPolygon query acc feature).
Proof.
  destruct acc as [seenFeatures result]. intros Hinv. unfold queryFeature.
  set (b := bucketInstanceId (Grid.found_key feature)).
  set (f := featureIndex (Grid.found_key feature)).
  set (seen1 := match seenFeatures !! b with
                | None => <[b := ∅]> seenFeatures
                | Some _ => seenFeatures
                end).
  assert (Hinv1 : queryInvariant (seen1, result)).
  { intros b' fs Hfs. destruct (Hinv b' fs Hfs) as [Hnd Hseen]. split; [exact Hnd |].
    intros f' Hf'. simpl. subst seen1. rewrite seenBefore_init. apply Hseen, Hf'. }
  destruct (seenBefore seen1 b f) eqn:Hseenf; [exact Hinv1 |].
  destruct (negb (polygonIntersectsPolygon query _)); [exact Hinv1 |].
  set (result1 := match result !! b with
                  | None => <[b := []]> result
                  | Some _ => result
                  end).
  assert (Hold : forall f', In f' (default [] (result1 !! b)) ->
                            In f' (default [] (result !! b))).
  { subst result1. destruct (result !! b) eqn:Hb; simpl.
    - rewrite Hb. auto.
    - rewrite lookup_insert_eq. simpl. auto. }
  assert (Hnd1 : NoDup (default [] (result1 !! b))).
  { subst result1. destruct (result !! b) as [fs |] eqn:Hb; simpl.
    - rewrite Hb. simpl. apply (Hinv1 b fs Hb).
    - rewrite lookup_insert_eq. simpl. constructor. }
  assert (Hseen1 : forall f', In f' (default [] (result !! b)) ->
                              seenBefore seen1 b f' = true).
  { intros f' Hf'. destruct (result !! b) as [fs |] eqn:Hb; simpl in Hf'; [| tauto].
    apply (proj2 (Hinv1 b fs Hb)), Hf'. }
  intros b' fs Hfs. simpl in Hfs. simpl.
  destruct (decide (b = b')) as [<- | Hne].
  - rewrite lookup_insert_eq in Hfs. injection Hfs as <-. split.
    + apply NoDup_app. split; [exact Hnd1 |]. split; [| apply NoDup_singleton].
      intros f' Hin Hsingle. apply list_elem_of_In in Hin.
      apply list_elem_of_singleton in Hsingle. subst f'.
      rewrite (Hseen1 f (Hold f Hin)) in Hseenf. discriminate.
    + intros f' Hf'. rewrite seenBefore_mark.
      destruct (decide (b = b /\ f = f')) as [_ | Hnot]; [reflexivity |].
      apply in_app_or in Hf' as [Hf' | [-> | []]]; [| tauto].
      apply Hseen1, Hold, Hf'.
  - rewrite lookup_insert_ne in Hfs by exact Hne.
    assert (Hfs' : result !! b' = Some fs).
    { subst result1. destruct (result !! b); [exact Hfs |].
      rewrite lookup_insert_ne in Hfs by exact Hne. exact Hfs. }
    destruct (Hinv1 b' fs Hfs') as [Hnd Hseen]. split; [exact Hnd |].
    intros f' Hf'. rewrite seenBefore_mark. rewrite decide_False by tauto.
    apply Hseen, Hf'.
Qed.

Lemma queryFeatures_invariant (query : list Point) (features : list Grid.Found)
    (acc : gmap Z (gmap Z bool) * gmap Z (list Z)) :
  queryInvariant acc ->
  queryInvariant (foldl (queryFeature polygonIntersectsPolygon query) acc features).
Proof.
  revert acc. induction features as [| feature features IH]; intros acc Hinv; simpl.
  - exact Hinv.
  - apply IH, queryFeature_invariant, Hinv.
Qed.

(** C8.  [queryRenderedSymbols] returns the empty mapping whenever the
    query polygon has no points or both grids hold no keys, by its
    first test, before the bounding box is computed and a grid is
    queried; and for every query each [bucketInstanceId] of the result
    is mapped to a sequence of feature indices without duplicates. *)
Theorem queryRenderedSymbols_result (this : CollisionIndex)
    (viewportQueryGeometry : list Point) :
  (viewportQueryGeometry = []
   \/ (Grid.keysLength (grid this) = 0%nat
       /\ Grid.keysLength (ignoredGrid this) = 0%nat) ->
   queryRenderedSymbols polygonIntersectsPolygon this viewportQueryGeometry = ∅)
  /\ forall (b : Z) (fs : list Z),
       queryRenderedSymbols polygonIntersectsPolygon this viewportQueryGeometry !! b
         = Some fs ->
       NoDup fs.
Proof.
  split.
  - intros [-> | [Hg Hi]]; unfold queryRenderedSymbols.
    + reflexivity.
    + rewrite Hg, Hi. simpl. rewrite orb_true_r. reflexivity.
  - intros b fs. unfold queryRenderedSymbols.
    destruct (_ || _); [rewrite lookup_empty; discriminate |].
    intros Hfs.
    refine (proj1 (queryFeatures_invariant _ _ (∅, ∅) _ b fs Hfs)).
    intros b' fs' Hfs'. simpl in Hfs'. rewrite lookup_empty in Hfs'. discriminate.
Qed.
End QueryProperties.

(** ** Circles along a clipped segment *)

Lemma point_eq (p q : Point) :
  Point.x p = Point.x q -> Point.y p = Point.y q -> p = q.
Proof. destruct p, q; simpl; intros -> ->; reflexivity. Qed.

Lemma dist_mag_sub (p q : Point) : Point.dist p q = Point.mag (Point.sub q p).
Proof. reflexivity. Qed.

Lemma mag_nonneg (p : Point) : 0 <= Point.mag p.
Proof. apply sqrt_pos. Qed.

Lemma mag_div (p : Point) (k : R) :
  0 < k -> Point.mag (Point.div p k) = Point.mag p / k.
Proof.
  intros Hk. unfold Point.mag, Point.div. simpl.
  replace (Point.x p / k * (Point.x p / k) + Point.y p / k * (Point.y p / k))
    with ((Point.x p * Point.x p + Point.y p * Point.y p) * (/ k * / k))
    by (field; lra).
  rewrite sqrt_mult_alt by nra.
  rewrite sqrt_square by (left; apply Rinv_0_lt_compat; exact Hk).
  reflexivity.
Qed.

Lemma dist_stepped (s step : Point) (i : nat) :
  Point.dist (stepped s step i) (stepped s step (S i)) = Point.mag step.
Proof.
  unfold Point.dist, Point.distSqr, Point.mag, stepped, Point.add, Point.mult.
  cbn [Point.x Point.y]. rewrite S_INR. f_equal. ring.
Qed.

Lemma map_seq_consecutive (g : nat -> Point) (l1 : list Point) (p q : Point)
    (l2 : list Point) (a len : nat) :
  map g (seq a len) = l1 ++ p :: q :: l2 -> exists i : nat, p = g i /\ q = g (S i).
Proof.
  revert a len. induction l1 as [| x l1 IH]; intros a len H.
  - destruct len as [| [| len]]; simpl in H; try discriminate.
    injection H as <- <- _. exists a. auto.
  - destruct len as [| len]; simpl in H; [discriminate |].
    injection H as _ H. exact (IH _ _ H).
Qed.

Lemma fillSegment_centres (s step : Point) (r : R) (n : Z) :
  map point (fillSegment s step r n) = map (stepped s step) (seq 1 (Z.to_nat n)).
Proof. unfold fillSegment. rewrite map_map. reflexivity. Qed.

Lemma two_radius (r : R) : 2.0 * r = 2 * r.
Proof. lra. Qed.

(** With a positive radius the segment of length [L] is cut into
    [ceil (L / (2 r))] steps, none longer than [2 r]. *)
Lemma segment_spacing (s e : Point) (r : R) :
  0 < r ->
  let segLen := Point.mag (Point.sub e s) in
  let circlesInSegment := (Math_ceil (segLen / (2 * r)) - 1)%Z in
  let circleToCircle := Point.div (Point.sub e s) (IZR (circlesInSegment + 1)) in
  Z.of_nat (length (fillSegment s circleToCircle r circlesInSegment))
    = Z.max 0 circlesInSegment
  /\ (0 < segLen ->
      Z.of_nat (length (fillSegment s circleToCircle r circlesInSegment))
      = circlesInSegment)
  /\ consecutiveWithin
       (s :: map point (fillSegment s circleToCircle r circlesInSegment) ++ [e])
       (2 * r).
Proof.
  intros Hr segLen n step.
  assert (Hlen : length (fillSegment s step r n) = Z.to_nat n).
  { unfold fillSegment. rewrite length_map, length_seq. reflexivity. }
  pose proof (mag_nonneg (Point.sub e s)) as Hnonneg. fold segLen in Hnonneg.
  pose proof (Zceil_bound (segLen / (2 * r))) as [Hlo Hhi].
  split; [rewrite Hlen; lia |].
  split.
  - intros Hpos. rewrite Hlen.
    assert (0 < segLen / (2 * r)) by (apply Rdiv_lt_0_compat; lra).
    assert (0 < IZR (Zceil (segLen / (2 * r)))) by lra.
    apply lt_IZR in H0. unfold n, Math_ceil. lia.
  - destruct (Rle_lt_or_eq_dec 0 segLen Hnonneg) as [Hpos | Hzero].
    + (* a proper segment *)
      assert (HN : (1 <= n + 1)%Z).
      { assert (0 < segLen / (2 * r)) by (apply Rdiv_lt_0_compat; lra).
        assert (0 < IZR (Zceil (segLen / (2 * r)))) by lra.
        apply lt_IZR in H0. unfold n, Math_ceil. lia. }
      assert (HNpos : 0 < IZR (n + 1)) by (apply IZR_lt; lia).
      assert (Hcentres :
        s :: map point (fillSegment s step r n) ++ [e]
        = map (stepped s step) (seq 0 (S (Z.to_nat n + 1)))).
      { rewrite fillSegment_centres. cbn [seq map]. f_equal.
        - apply point_eq; unfold stepped; simpl; lra.
        - rewrite seq_app, map_app. f_equal. cbn [seq map]. f_equal.
          assert (HINR : INR (1 + Z.to_nat n) = IZR (n + 1)).
          { rewrite INR_IZR_INZ. f_equal. lia. }
          apply point_eq; unfold stepped, step;
            cbn [Point.x Point.y Point.add Point.mult Point.div Point.sub];
            rewrite HINR; field; lra. }
      intros l1 p q l2 Hsplit. rewrite Hcentres in Hsplit.
      destruct (map_seq_consecutive _ _ _ _ _ _ _ Hsplit) as (i & -> & ->).
      rewrite dist_stepped. unfold step. rewrite mag_div by exact HNpos.
      fold segLen.
      assert (Hle : segLen / (2 * r) <= IZR (n + 1)).
      { unfold n, Math_ceil. replace (Zceil (segLen / (2 * r)) - 1 + 1)%Z
          with (Zceil (segLen / (2 * r))) by lia. exact Hhi. }
      apply (Rmult_le_compat_r (2 * r)) in Hle; [| lra].
      unfold Rdiv in Hle. rewrite Rmult_assoc, Rinv_l, Rmult_1_r in Hle by lra.
      apply (Rmult_le_reg_r (IZR (n + 1))); [exact HNpos |].
      unfold Rdiv. rewrite Rmult_assoc, Rinv_l, Rmult_1_r by lra. lra.
    + (* start and end coincide *)
      assert (Hn : n = (-1)%Z).
      { unfold n, Math_ceil. rewrite <- Hzero. unfold Rdiv. rewrite Rmult_0_l.
        rewrite (Zceil_eq 0 0) by (simpl; lra). reflexivity. }
      intros l1 p q l2 Hsplit.
      assert (Hfill : fillSegment s step r n = []) by (rewrite Hn; reflexivity).
      rewrite Hfill in Hsplit. simpl in Hsplit.
      destruct l1 as [| x [| y l1]]; simpl in Hsplit.
      * injection Hsplit as <- <- _. rewrite dist_mag_sub. fold segLen. lra.
      * injection Hsplit as _ _ Hsplit. discriminate.
      * injection Hsplit as _ _ Hsplit. destruct l1; discriminate.
Qed.

(** What [placeSegment] appends for a segment that is not clipped away. *)
Lemma placeSegment_clipped (r : R) (min max : Point) (circles : list Circle)
    (lastPlacedCircle : option Point) (a b s e : Point) :
  clipLine a b min max = Some (s, e) ->
  let segLen := Point.mag (Point.sub e s) in
  let circlesInSegment := (Math_ceil (segLen / (2 * r)) - 1)%Z in
  let circleToCircle := Point.div (Point.sub e s) (IZR (circlesInSegment + 1)) in
  exists startpart : list Circle,
    (startpart = [] \/ startpart = [mkCircle s r])
    /\ placeSegment r min max (circles, lastPlacedCircle) a b
       = (circles ++ startpart
            ++ mkCircle e r :: fillSegment s circleToCircle r circlesInSegment,
          Some e).
Proof.
  intros Hclip segLen n step. unfold placeSegment. rewrite Hclip.
  rewrite two_radius. fold segLen. fold n. fold step.
  destruct (match lastPlacedCircle with
            | Some l => Point.dist l s >=? 2 * r
            | None => true
            end).
  - exists [mkCircle s r]. split; [auto |]. rewrite <- !app_assoc. reflexivity.
  - exists []. split; [auto |]. rewrite <- !app_assoc. reflexivity.
Qed.

Lemma placeSegment_grows (r : R) (min max : Point) (st : list Circle * option Point)
    (a b : Point) :
  exists added : list Circle,
    fst (placeSegment r min max st a b) = fst st ++ added.
Proof.
  destruct st as [circles lastPlacedCircle].
  destruct (clipLine a b min max) as [[s e] |] eqn:Hclip.
  - destruct (placeSegment_clipped r min max circles lastPlacedCircle a b s e Hclip)
      as (startpart & _ & ->).
    eexists. reflexivity.
  - unfold placeSegment. rewrite Hclip. exists []. simpl. rewrite app_nil_r. reflexivity.
Qed.

Lemma placePath_grows (r : R) (min max : Point) (projectedPath : list Point)
    (st : list Circle * option Point) :
  exists added : list Circle,
    fst (placePath r min max projectedPath st) = fst st ++ added.
Proof.
  revert st. induction projectedPath as [| a rest IH]; intros st.
  - exists []. simpl. rewrite app_nil_r. reflexivity.
  - destruct rest as [| b rest].
    + exists []. simpl. rewrite app_nil_r. reflexivity.
    + change (placePath r min max (a :: b :: rest) st)
        with (placePath r min max (b :: rest) (placeSegment r min max st a b)).
      destruct (IH (placeSegment r min max st a b)) as [added2 ->].
      destruct (placeSegment_grows r min max st a b) as [added1 ->].
      exists (added1 ++ added2). rewrite app_assoc. reflexivity.
Qed.

(** The circles of every segment that is not clipped away are part of
    the chain: the one at its end and those that fill it, preceded by the
    one at its start unless the last circle placed is near enough. *)
Lemma placePath_segment (r : R) (min max : Point) (pre : list Point) (a b : Point)
    (post : list Point) (s e : Point) (st : list Circle * option Point) :
  clipLine a b min max = Some (s, e) ->
  let segLen := Point.mag (Point.sub e s) in
  let circlesInSegment := (Math_ceil (segLen / (2 * r)) - 1)%Z in
  let circleToCircle := Point.div (Point.sub e s) (IZR (circlesInSegment + 1)) in
  exists before startpart after : list Circle,
    (startpart = [] \/ startpart = [mkCircle s r])
    /\ fst (placePath r min max (pre ++ a :: b :: post) st)
       = before ++ startpart
           ++ mkCircle e r :: fillSegment s circleToCircle r circlesInSegment ++ after.
Proof.
  intros Hclip segLen n step. revert st.
  induction pre as [| p pre IH]; intros [circles lastPlacedCircle].
  - change (placePath r min max ([] ++ a :: b :: post) (circles, lastPlacedCircle))
      with (placePath r min max (b :: post)
              (placeSegment r min max (circles, lastPlacedCircle) a b)).
    destruct (placeSegment_clipped r min max circles lastPlacedCircle a b s e Hclip)
      as (startpart & Hstart & Hseg).
    destruct (placePath_grows r min max (b :: post)
                (placeSegment r min max (circles, lastPlacedCircle) a b))
      as [after ->].
    rewrite Hseg. simpl fst. exists circles, startpart, after.
    split; [exact Hstart |]. rewrite <- !app_assoc. reflexivity.
  - assert (Hstep : exists (h : Point) (rest : list Point),
                      pre ++ a :: b :: post = h :: rest).
    { destruct pre; simpl; eauto. }
    destruct Hstep as (h & rest & Hrest).
    change ((p :: pre) ++ a :: b :: post) with (p :: (pre ++ a :: b :: post)).
    rewrite Hrest.
    change (placePath r min max (p :: h :: rest) (circles, lastPlacedCircle))
      with (placePath r min max (h :: rest)
              (placeSegment r min max (circles, lastPlacedCircle) p h)).
    rewrite <- Hrest. apply IH.
Qed.

Section ChainProperties.
Context {SymbolLineVertexArray GlyphOffsetArray : Type}.
Variable project : Point -> mat4 -> Point.
Variable placeFirstAndLastGlyph :
  R -> GlyphOffsetArray -> R -> R -> bool -> Point -> Point -> Symbol ->
  SymbolLineVertexArray -> mat4 -> bool -> option FirstAndLastGlyph.t.

(** A call that returns circles had path fragments to work on, and
    returns the tuples of the whole chain. *)
Lemma placeCollisionCircles_accepted (this : CollisionIndex)
    (collisionCircles : list R) (allowOverlap : bool) (scale textPixelRatio : R)
    (symbol : Symbol) (lineVertexArray : SymbolLineVertexArray)
    (glyphOffsetArray : GlyphOffsetArray) (fontSize : R)
    (posMatrix labelPlaneMatrix : mat4) (showCollisionCircles pitchWithMap : bool)
    (predicate : Predicate) :
  PlacedCircles.circles
    (placeCollisionCircles project placeFirstAndLastGlyph this collisionCircles
       allowOverlap scale textPixelRatio symbol lineVertexArray glyphOffsetArray
       fontSize posMatrix labelPlaneMatrix showCollisionCircles pitchWithMap predicate)
    <> [] ->
  exists firstAndLastGlyph : FirstAndLastGlyph.t,
    firstAndLastGlyphOf project placeFirstAndLastGlyph this symbol lineVertexArray
      glyphOffsetArray fontSize posMatrix labelPlaneMatrix = Some firstAndLastGlyph
    /\ PlacedCircles.circles
         (placeCollisionCircles project placeFirstAndLastGlyph this collisionCircles
            allowOverlap scale textPixelRatio symbol lineVertexArray glyphOffsetArray
            fontSize posMatrix labelPlaneMatrix showCollisionCircles pitchWithMap
            predicate)
       = flat_map circleTuple
           (chainCircles this
              (projectAnchor this posMatrix (anchorX symbol) (anchorY symbol))
              firstAndLastGlyph).
Proof.
  unfold placeCollisionCircles.
  destruct (firstAndLastGlyphOf _ _ _ _ _ _ _ _ _) as [fl |];
    [| simpl; intros H; destruct H; reflexivity].
  intros Haccepted. exists fl. split; [reflexivity |]. revert Haccepted.
  destruct (scanCircles _ _ _ _ _ _) as [returned | st] eqn:Hscan.
  - rewrite (scan_returns_empty _ _ _ _ _ _ _ Hscan).
    intros H; destruct H; reflexivity.
  - simpl. destruct (collisionDetected st || negb (inGrid st));
      [intros H; destruct H; reflexivity |].
    intros _. rewrite (scanCircles_placed _ _ _ _ _ _ _ Hscan). reflexivity.
Qed.

(** C3 (amended).  For every circle chain accepted by
    [placeCollisionCircles] whose radius [10 * perspectiveRatio] is
    positive: along each clipped segment of length [L] the chain holds
    the circle at its end and, filling the interior,
    [max 0 (ceil (L / (2 * radius)) - 1)] circles at the evenly spaced
    points [start + i * (end - start) / ceil (L / (2 * radius))] (that
    is [ceil (L / (2 * radius)) - 1] circles when [L > 0]); neighbours
    in the sequence start, interior points, end are at most
    [2 * radius] apart. *)
Theorem circle_chain_spacing (this : CollisionIndex)
    (collisionCircles : list R) (allowOverlap : bool) (scale textPixelRatio : R)
    (symbol : Symbol) (lineVertexArray : SymbolLineVertexArray)
    (glyphOffsetArray : GlyphOffsetArray) (fontSize : R)
    (posMatrix labelPlaneMatrix : mat4) (showCollisionCircles pitchWithMap : bool)
    (predicate : Predicate) :
  let projectedAnchor :=
    projectAnchor this posMatrix (anchorX symbol) (anchorY symbol) in
  let radius := 10 * ProjectedAnchor.perspectiveRatio projectedAnchor in
  let placed :=
    placeCollisionCircles project placeFirstAndLastGlyph this collisionCircles
      allowOverlap scale textPixelRatio symbol lineVertexArray glyphOffsetArray
      fontSize posMatrix labelPlaneMatrix showCollisionCircles pitchWithMap predicate in
  0 < radius ->
  PlacedCircles.circles placed <> [] ->
  exists firstAndLastGlyph : FirstAndLastGlyph.t,
    firstAndLastGlyphOf project placeFirstAndLastGlyph this symbol lineVertexArray
      glyphOffsetArray fontSize posMatrix labelPlaneMatrix = Some firstAndLastGlyph
    /\ PlacedCircles.circles placed
       = flat_map circleTuple (chainCircles this projectedAnchor firstAndLastGlyph)
    /\ forall (pre : list Point) (a b : Point) (post : list Point) (s e : Point),
         projectedPathOf firstAndLastGlyph = pre ++ a :: b :: post ->
         clipLine a b labelPlaneMin (labelPlaneMax this) = Some (s, e) ->
         let segLen := Point.mag (Point.sub e s) in
         let circlesInSegment := (Math_ceil (segLen / (2 * radius)) - 1)%Z in
         let circleToCircle :=
           Point.div (Point.sub e s) (IZR (circlesInSegment + 1)) in
         let interior := fillSegment s circleToCircle radius circlesInSegment in
         (exists before startpart after : list Circle,
            (startpart = [] \/ startpart = [mkCircle s radius])
            /\ chainCircles this projectedAnchor firstAndLastGlyph
               = before ++ startpart ++ mkCircle e radius :: interior ++ after)
         /\ map point interior
            = map (fun i => Point.add s (Point.mult circleToCircle (INR i)))
                  (seq 1 (Z.to_nat circlesInSegment))
         /\ Z.of_nat (length interior) = Z.max 0 circlesInSegment
         /\ (0 < segLen -> Z.of_nat (length interior) = circlesInSegment)
         /\ consecutiveWithin (s :: map point interior ++ [e]) (2 * radius).
Proof.
  intros projectedAnchor radius placed Hradius Haccepted.
  destruct (placeCollisionCircles_accepted _ _ _ _ _ _ _ _ _ _ _ _ _ _ Haccepted)
    as (fl & Hfl & Hplaced).
  exists fl. split; [exact Hfl |]. split; [exact Hplaced |].
  intros pre a b post s e Hpath Hclip segLen n step interior.
  split; [| split].
  - unfold chainCircles. rewrite Hpath. fold radius.
    apply (placePath_segment radius _ _ pre a b post s e _ Hclip).
  - apply fillSegment_centres.
  - apply (segment_spacing s e radius Hradius).
Qed.
End ChainProperties.

(** ** A chain of one segment *)

Lemma clipLine_inside (start end_ min max : Point) :
  inside start min max -> inside end_ min max ->
  clipLine start end_ min max = Some (start, end_).
Proof.
  intros Hs He. unfold clipLine.
  rewrite (computeRegion_inside _ _ _ Hs), (computeRegion_inside _ _ _ He).
  reflexivity.
Qed.

Lemma example_clipLine (this : CollisionIndex) :
  transform this = Transform.mk 800 600 1 0 ->
  clipLine (Point.mk 100 100) (Point.mk 130 100) labelPlaneMin (labelPlaneMax this)
  = Some (Point.mk 100 100, Point.mk 130 100).
Proof.
  intros Ht. apply clipLine_inside; unfold inside, labelPlaneMax; rewrite ?Ht; simpl; lra.
Qed.

(** The chain of the example: the circle at the start, the circle at the
    end, and the circles that fill the segment. *)
Lemma example_chain (this : CollisionIndex) (projectedAnchor : ProjectedAnchor.t) :
  transform this = Transform.mk 800 600 1 0 ->
  let radius := 10 * ProjectedAnchor.perspectiveRatio projectedAnchor in
  let s := Point.mk 100 100 in
  let e := Point.mk 130 100 in
  let circlesInSegment :=
    (Math_ceil (Point.mag (Point.sub e s) / (2 * radius)) - 1)%Z in
  chainCircles this projectedAnchor exampleGlyphs
  = mkCircle s radius :: mkCircle e radius
      :: fillSegment s (Point.div (Point.sub e s) (IZR (circlesInSegment + 1)))
           radius circlesInSegment.
Proof.
  intros Ht radius s e n. unfold chainCircles. fold radius.
  change (projectedPathOf exampleGlyphs) with [s; e].
  change (placePath radius labelPlaneMin (labelPlaneMax this) [s; e] ([], None))
    with (placeSegment radius labelPlaneMin (labelPlaneMax this) ([], None) s e).
  unfold placeSegment. subst s e. rewrite (example_clipLine this Ht), two_radius.
  reflexivity.
Qed.

Lemma mag_example : Point.mag (Point.sub (Point.mk 130 100) (Point.mk 100 100)) = 30.
Proof.
  unfold Point.mag, Point.sub. simpl.
  replace ((130 - 100) * (130 - 100) + (100 - 100) * (100 - 100)) with (30 * 30) by lra.
  apply sqrt_square. lra.
Qed.

(** With every test on the circles passed over or scanned to the end,
    the example returns the tuples of its chain. *)
Lemma examplePlacement_circles (m15 : R) (predicate : Predicate) :
  let projectedAnchor := projectAnchor exampleIndex (scaleW m15) 0 0 in
  -100 <= 10 * ProjectedAnchor.perspectiveRatio projectedAnchor <= 100 ->
  PlacedCircles.circles (examplePlacement exampleIndex m15 predicate true true)
  = flat_map circleTuple (chainCircles exampleIndex projectedAnchor exampleGlyphs).
Proof.
  intros projectedAnchor Hr. unfold examplePlacement, placeCollisionCircles.
  change (firstAndLastGlyphOf _ _ _ _ _ _ _ _ _) with (Some exampleGlyphs).
  change (projectAnchor exampleIndex (scaleW m15) (anchorX (mkSymbol 0 0 0 0))
            (anchorY (mkSymbol 0 0 0 0))) with projectedAnchor.
  cbv beta iota.
  rewrite scanCircles_scans_all. cbn [collisionDetected inGrid placedCollisionCircles
    PlacedCircles.circles negb andb orb].
  rewrite (example_chain exampleIndex projectedAnchor eq_refl).
  set (radius := 10 * ProjectedAnchor.perspectiveRatio projectedAnchor) in *.
  cbn [existsb].
  assert (Hin : circleInsideGrid exampleIndex (mkCircle (Point.mk 100 100) radius) = true).
  { unfold circleInsideGrid, isInsideGrid. simpl. unfold viewportPadding.
    cmp. }
  rewrite Hin. reflexivity.
Qed.

Lemma example_radius (this : CollisionIndex) :
  transform this = Transform.mk 800 600 1 0 ->
  10 * ProjectedAnchor.perspectiveRatio (projectAnchor this (scaleW 1) 0 0) = 10
  /\ 10 * ProjectedAnchor.perspectiveRatio (projectAnchor this (scaleW (-0.5)) 0 0) = -5.
Proof.
  intros Ht. unfold projectAnchor. simpl. rewrite Ht. simpl.
  replace (0 * 0 + 0 * 0 + 1) with 1 by lra.
  replace (0 * 0 + 0 * 0 + -0.5) with (- / 2) by lra.
  unfold Rdiv. rewrite Rinv_1, Rinv_opp, Rinv_inv. lra.
Qed.

(** For an anchor at [w = 1] the radius is 10 and the segment of length
    30 is filled with one circle, in its middle. *)
Lemma example_chain_radius_10 :
  chainCircles exampleIndex (projectAnchor exampleIndex (scaleW 1) 0 0) exampleGlyphs
  = [mkCircle (Point.mk 100 100) 10; mkCircle (Point.mk 130 100) 10;
     mkCircle (Point.mk 115 100) 10].
Proof.
  rewrite (example_chain exampleIndex _ eq_refl).
  rewrite (proj1 (example_radius exampleIndex eq_refl)), mag_example.
  assert (Hceil : Math_ceil (30 / (2 * 10)) = 2%Z)
    by (apply Zceil_eq; simpl; lra).
  rewrite Hceil. unfold fillSegment. simpl.
  change (IZR (2 - 1 + 1)) with 2.
  unfold Point.add, Point.mult, Point.div, Point.sub. simpl.
  repeat f_equal; lra.
Qed.

(** An anchor behind the camera, at [w = -0.5]: the radius is -5, the
    chain is accepted, and its two circles are 30 apart. *)
Lemma negative_radius_not_spaced :
  ~ circleSpacingAsStated exampleProject examplePlaceFirstAndLastGlyph exampleIndex []
      true 1 1 (mkSymbol 0 0 0 0) tt tt 24 (scaleW (-0.5)) (scaleW 1) true false None.
Proof.
  unfold circleSpacingAsStated. intros H.
  pose proof (proj2 (example_radius exampleIndex eq_refl)) as Hradius.
  change (anchorX (mkSymbol 0 0 0 0)) with 0 in H.
  change (anchorY (mkSymbol 0 0 0 0)) with 0 in H.
  destruct H as (fl & Hfl & Hseg).
  - change (PlacedCircles.circles (examplePlacement exampleIndex (-0.5) None true true)
            <> []).
    rewrite examplePlacement_circles by (rewrite Hradius; lra).
    rewrite (example_chain exampleIndex _ eq_refl). discriminate.
  - change (Some exampleGlyphs = Some fl) in Hfl. injection Hfl as <-.
    destruct (Hseg [] (Point.mk 100 100) (Point.mk 130 100) [] _ _ eq_refl
                (example_clipLine exampleIndex eq_refl)) as [_ Hspaced].
    rewrite Hradius in Hspaced.
    destruct (map point _ ++ [Point.mk 130 100]) as [| q l2] eqn:Hrest.
    + destruct (map point _); discriminate.
    + specialize (Hspaced [] (Point.mk 100 100) q l2 eq_refl).
      pose proof (sqrt_pos (Point.distSqr (Point.mk 100 100) q)) as Hpos.
      unfold Point.dist in Hspaced. lra.
Qed.

Lemma circle_chain_spacing_witness :
  let radius :=
    10 * ProjectedAnchor.perspectiveRatio (projectAnchor exampleIndex (scaleW 1) 0 0) in
  let s := Point.mk 100 100 in
  let e := Point.mk 130 100 in
  let circlesInSegment :=
    (Math_ceil (Point.mag (Point.sub e s) / (2 * radius)) - 1)%Z in
  let circleToCircle := Point.div (Point.sub e s) (IZR (circlesInSegment + 1)) in
  consecutiveWithin
    (s :: map point (fillSegment s circleToCircle radius circlesInSegment) ++ [e])
    (2 * radius).
Proof.
  intros radius s e circlesInSegment circleToCircle.
  destruct (circle_chain_spacing exampleProject examplePlaceFirstAndLastGlyph
              exampleIndex [] true 1 1 (mkSymbol 0 0 0 0) tt tt 24 (scaleW 1) (scaleW 1)
              true false None)
    as (fl & Hfl & _ & Hseg).
  - change (0 < 10 * ProjectedAnchor.perspectiveRatio
                     (projectAnchor exampleIndex (scaleW 1) 0 0)).
    rewrite (proj1 (example_radius exampleIndex eq_refl)). lra.
  - change (PlacedCircles.circles (examplePlacement exampleIndex 1 None true true) <> []).
    rewrite examplePlacement_circles
      by (rewrite (proj1 (example_radius exampleIndex eq_refl)); lra).
    rewrite example_chain_radius_10. discriminate.
  - change (Some exampleGlyphs = Some fl) in Hfl. injection Hfl as <-.
    exact (proj2 (proj2 (proj2 (proj2
             (Hseg [] s e [] s e eq_refl (example_clipLine exampleIndex eq_refl)))))).
Defined.

Lemma occupiedIndex_hit :
  circleHits occupiedIndex None (mkCircle (Point.mk 100 100) 10) = true.
Proof.
  unfold circleHits, Grid.hitTestCircle, viewportPadding. simpl.
  replace (100 + 100) with 200 by lra.
  rewrite (Rmin_left 200 210), (Rmax_right 190 200) by lra. cmp.
Qed.

Lemma placeCollisionCircles_collision_witness :
  examplePlacement occupiedIndex 1 None false false = PlacedCircles.mk [] false
  /\ PlacedCircles.circles (examplePlacement occupiedIndex 1 None false true) = [].
Proof.
  assert (Hin : In (mkCircle (Point.mk 100 100) 10)
                  (chainCircles occupiedIndex
                     (projectAnchor occupiedIndex (scaleW 1) 0 0) exampleGlyphs)).
  { rewrite (example_chain occupiedIndex _ eq_refl).
    rewrite (proj1 (example_radius occupiedIndex eq_refl)). left. reflexivity. }
  split.
  - exact (proj1 (proj2
      (placeCollisionCircles_collision exampleProject examplePlaceFirstAndLastGlyph
         occupiedIndex [] 1 1 (mkSymbol 0 0 0 0) tt tt 24 (scaleW 1) (scaleW 1)
         false false None exampleGlyphs (mkCircle (Point.mk 100 100) 10)
         eq_refl Hin occupiedIndex_hit)) eq_refl).
  - exact (proj1
      (placeCollisionCircles_collision exampleProject examplePlaceFirstAndLastGlyph
         occupiedIndex [] 1 1 (mkSymbol 0 0 0 0) tt tt 24 (scaleW 1) (scaleW 1)
         true false None exampleGlyphs (mkCircle (Point.mk 100 100) 10)
         eq_refl Hin occupiedIndex_hit)).
Defined.

(** A feature whose box is in both grids is reported once. *)
Example queryRenderedSymbols_both_grids :
  let this :=
    insertCollisionBox [40; 40; 60; 60] true 7 3 0
      (insertCollisionBox [40; 40; 60; 60] false 7 3 0 exampleIndex) in
  queryRenderedSymbols (fun _ _ => true) this [Point.mk (-50) (-50)]
  = {[ 7%Z := [3%Z] ]}.
Proof.
  intros this. unfold queryRenderedSymbols. simpl.
  unfold Grid.query, viewportPadding. simpl.
  replace (-50 + 100) with 50 by lra.
  rewrite !filter_cons_True by (apply Is_true_true; simpl; cmp).
  rewrite filter_nil. simpl. unfold queryFeature. simpl.
  vm_compute. reflexivity.
Qed.

Lemma queryRenderedSymbols_result_witness :
  queryRenderedSymbols (fun _ _ => true) exampleIndex [] = ∅
  /\ NoDup [3%Z].
Proof.
  split.
  - apply (proj1 (queryRenderedSymbols_result (fun _ _ => true) exampleIndex [])).
    left. reflexivity.
  - apply (proj2 (queryRenderedSymbols_result (fun _ _ => true)
                    (insertCollisionBox [40; 40; 60; 60] true 7 3 0
                       (insertCollisionBox [40; 40; 60; 60] false 7 3 0 exampleIndex))
                    [Point.mk (-50) (-50)]) 7%Z).
    rewrite queryRenderedSymbols_both_grids. reflexivity.
Defined.

Lemma markCollisionCircleUsed_frame_witness :
  array_get (markCollisionCircleUsed [Some 10; Some 20; Some 5; Some 0] 0 true) 3
  = Some 0.
Proof.
  exact (proj2 (proj2 (markCollisionCircleUsed_frame
                         [Some 10; Some 20; Some 5; Some 0] 0 true))).
Defined.

Lemma isOffscreen_far_boundaries_witness :
  isOffscreen exampleIndex (screenRightBoundary exampleIndex) 300 950 350 = true.
Proof.
  exact (proj1 (proj2 (isOffscreen_far_boundaries exampleIndex 0 300 950 350))).
Defined.

(** * Further properties *)

(** ** Grid bounds and the screen *)

(** X1.  On an index built by the constructor, at any later point of the
    frame, a rectangle that [isInsideGrid] rejects is offscreen for
    [isOffscreen]: whatever is on the screen is inside the grid. *)
Theorem outside_grid_is_offscreen (transform : Transform.t) (grid0 ignoredGrid0 : Grid.t)
    (later : list Call) (x1 y1 x2 y2 : R) :
  let this := afterAll later (constructor transform grid0 ignoredGrid0) in
  isInsideGrid this x1 y1 x2 y2 = false ->
  isOffscreen this x1 y1 x2 y2 = true.
Proof.
  intros this.
  destruct (afterAll_grows later (constructor transform grid0 ignoredGrid0))
    as (_ & _ & Hr & Hb & Hsr & Hsb).
  fold this in Hr, Hb, Hsr, Hsb. simpl in Hr, Hb, Hsr, Hsb.
  unfold isInsideGrid, isOffscreen. rewrite Hr, Hb, Hsr, Hsb.
  unfold viewportPadding. cmp.
Qed.

Lemma outside_grid_is_offscreen_witness :
  isOffscreen (afterAll [InsertCollisionBox [40; 40; 60; 60] false 1 0 0]
                 (constructor (Transform.mk 800 600 1 0)
                    (Grid.new 1000 800 25) (Grid.new 1000 800 25)))
    1000 10 1010 20 = true.
Proof.
  apply (outside_grid_is_offscreen (Transform.mk 800 600 1 0)
           (Grid.new 1000 800 25) (Grid.new 1000 800 25)
           [InsertCollisionBox [40; 40; 60; 60] false 1 0 0] 1000 10 1010 20).
  unfold isInsideGrid. simpl. unfold viewportPadding. cmp.
Defined.

(** ** Placement and the calls before it *)

Lemma afterAll_sameFrame (cs : list Call) (this : CollisionIndex) :
  sameFrame (afterAll cs this) this.
Proof. destruct (afterAll_grows cs this) as (_ & H). exact H. Qed.

Lemma after_blocksNothing (c : Call) (this : CollisionIndex) :
  blocksNothing c = true -> grid (after c this) = grid this.
Proof.
  destruct c as [| | | cb ig b f g | cc ig b f g]; simpl; intros H;
    try reflexivity; subst ig.
  - unfold insertCollisionBox. reflexivity.
  - unfold insertCollisionCircles. reflexivity.
Qed.

Lemma afterAll_blocksNothing (cs : list Call) (this : CollisionIndex) :
  forallb blocksNothing cs = true -> grid (afterAll cs this) = grid this.
Proof.
  unfold afterAll. revert this. induction cs as [| c cs IH]; intros this H; simpl.
  - reflexivity.
  - simpl in H. apply andb_true_iff in H as [Hc Hcs].
    rewrite (IH _ Hcs). apply after_blocksNothing, Hc.
Qed.

Lemma projectedBox_sameFrame (a b : CollisionIndex) (collisionBox : SingleCollisionBox)
    (textPixelRatio : R) (posMatrix : mat4) :
  sameFrame a b ->
  projectedBox a collisionBox textPixelRatio posMatrix
  = projectedBox b collisionBox textPixelRatio posMatrix.
Proof.
  intros (Ht & _). unfold projectedBox, projectAndGetPerspectiveRatio.
  rewrite Ht. reflexivity.
Qed.

Lemma isInsideGrid_sameFrame (a b : CollisionIndex) (x1 y1 x2 y2 : R) :
  sameFrame a b -> isInsideGrid a x1 y1 x2 y2 = isInsideGrid b x1 y1 x2 y2.
Proof. intros (_ & Hr & Hb & _). unfold isInsideGrid. rewrite Hr, Hb. reflexivity. Qed.

Lemma isOffscreen_sameFrame (a b : CollisionIndex) (x1 y1 x2 y2 : R) :
  sameFrame a b -> isOffscreen a x1 y1 x2 y2 = isOffscreen b x1 y1 x2 y2.
Proof.
  intros (_ & _ & _ & Hr & Hb). unfold isOffscreen. rewrite Hr, Hb. reflexivity.
Qed.

(** What [placeCollisionBox] reads of the index: the frame, and the
    occlusion grid unless [allowOverlap]. *)
Lemma placeCollisionBox_reads (a b : CollisionIndex) (collisionBox : SingleCollisionBox)
    (allowOverlap : bool) (textPixelRatio : R) (posMatrix : mat4)
    (predicate : Predicate) :
  sameFrame a b ->
  allowOverlap = true \/ grid a = grid b ->
  placeCollisionBox a collisionBox allowOverlap textPixelRatio posMatrix predicate
  = placeCollisionBox b collisionBox allowOverlap textPixelRatio posMatrix predicate.
Proof.
  intros Hframe Hgrid. unfold placeCollisionBox.
  rewrite (projectedBox_sameFrame a b _ _ _ Hframe).
  destruct (projectedBox b collisionBox textPixelRatio posMatrix)
    as [[[tlX tlY] brX] brY].
  rewrite (isInsideGrid_sameFrame a b _ _ _ _ Hframe),
          (isOffscreen_sameFrame a b _ _ _ _ Hframe).
  destruct Hgrid as [-> | ->]; reflexivity.
Qed.

Lemma hitTest_grows (g g' : Grid.t) (added : list Grid.Entry) (x1 y1 x2 y2 : R)
    (predicate : Predicate) :
  Grid.entries g' = Grid.entries g ++ added ->
  Grid.hitTest g x1 y1 x2 y2 predicate = true ->
  Grid.hitTest g' x1 y1 x2 y2 predicate = true.
Proof.
  intros Hentries. unfold Grid.hitTest. rewrite Hentries, existsb_app.
  intros ->. reflexivity.
Qed.

(** X2.  Queries and insertions made with [ignorePlacement] never change
    what [placeCollisionBox] returns: only the occlusion grid can block a
    box. *)
Theorem ignored_insertions_never_block (this : CollisionIndex) (between : list Call)
    (collisionBox : SingleCollisionBox) (allowOverlap : bool) (textPixelRatio : R)
    (posMatrix : mat4) (predicate : Predicate) :
  forallb blocksNothing between = true ->
  placeCollisionBox (afterAll between this) collisionBox allowOverlap textPixelRatio
    posMatrix predicate
  = placeCollisionBox this collisionBox allowOverlap textPixelRatio posMatrix predicate.
Proof.
  intros H. apply placeCollisionBox_reads.
  - apply afterAll_sameFrame.
  - right. apply afterAll_blocksNothing, H.
Qed.

Lemma ignored_insertions_never_block_witness :
  placeCollisionBox
    (afterAll [InsertCollisionBox [40; 40; 60; 60] true 1 0 0; QueryRenderedSymbols]
       exampleIndex)
    scenarioBox false 1 (scaleW 1) None
  = placeCollisionBox exampleIndex scenarioBox false 1 (scaleW 1) None.
Proof.
  exact (ignored_insertions_never_block exampleIndex
           [InsertCollisionBox [40; 40; 60; 60] true 1 0 0; QueryRenderedSymbols]
           scenarioBox false 1 (scaleW 1) None eq_refl).
Defined.

(** X3.  With [allowOverlap] the result of [placeCollisionBox] is the
    same after any sequence of calls, insertions included; without it, a
    box that is rejected stays rejected for the rest of the frame. *)
Theorem placeCollisionBox_over_the_frame (this : CollisionIndex) (later : list Call)
    (collisionBox : SingleCollisionBox) (textPixelRatio : R) (posMatrix : mat4)
    (predicate : Predicate) :
  placeCollisionBox (afterAll later this) collisionBox true textPixelRatio posMatrix
    predicate
  = placeCollisionBox this collisionBox true textPixelRatio posMatrix predicate
  /\ (PlacedBox.box
        (placeCollisionBox this collisionBox false textPixelRatio posMatrix predicate)
      = [] ->
      placeCollisionBox (afterAll later this) collisionBox false textPixelRatio
        posMatrix predicate
      = PlacedBox.mk [] false).
Proof.
  split.
  - apply placeCollisionBox_reads; [apply afterAll_sameFrame | left; reflexivity].
  - pose proof (afterAll_sameFrame later this) as Hframe.
    destruct (afterAll_grows later this) as ([added Hadded] & _).
    unfold placeCollisionBox.
    rewrite (projectedBox_sameFrame _ _ _ _ _ Hframe).
    destruct (projectedBox this collisionBox textPixelRatio posMatrix)
      as [[[tlX tlY] brX] brY].
    rewrite (isInsideGrid_sameFrame _ _ _ _ _ _ Hframe).
    destruct (isInsideGrid this tlX tlY brX brY); simpl; [| reflexivity].
    destruct (Grid.hitTest (grid this) tlX tlY brX brY predicate) eqn:Hhit;
      [| discriminate].
    intros _. rewrite (hitTest_grows _ _ _ _ _ _ _ _ Hadded Hhit). reflexivity.
Qed.

Lemma placeCollisionBox_over_the_frame_witness :
  placeCollisionBox
    (afterAll [InsertCollisionBox [200; 200; 220; 220] false 2 0 0] (scenarioIndex 1 0))
    scenarioBox false 1 (scaleW 1) None
  = PlacedBox.mk [] false.
Proof.
  apply (proj2 (placeCollisionBox_over_the_frame (scenarioIndex 1 0)
                  [InsertCollisionBox [200; 200; 220; 220] false 2 0 0]
                  scenarioBox 1 (scaleW 1) None)).
  rewrite (placeCollisionBox_eq _ _ _ _ _ _ _ _ _ _ scenarioBox_projected).
  unfold isInsideGrid, Grid.hitTest. simpl. unfold viewportPadding. cmp.
Defined.

Lemma boxMeets_sym (ax1 ay1 ax2 ay2 bx1 by1 bx2 by2 : R) :
  Grid.boxMeets ax1 ay1 ax2 ay2 (Grid.Box bx1 by1 bx2 by2)
  = Grid.boxMeets bx1 by1 bx2 by2 (Grid.Box ax1 ay1 ax2 ay2).
Proof. simpl. cmp. Qed.

(** X4.  The outcome depends on the order of the candidates.  In a frame
    whose occlusion grid is empty, let two boxes be projected to
    rectangles that pass [isInsideGrid] and meet each other, and let the
    predicate of each accept the key of the other.  Each box alone is
    placed; once the box returned for one of them is inserted, the other
    is rejected. *)
Theorem placement_order_sensitive (this : CollisionIndex)
    (boxA boxB : SingleCollisionBox) (ratioA ratioB : R) (matrixA matrixB : mat4)
    (predicateA predicateB : Predicate) (keyA keyB : Key)
    (ax1 ay1 ax2 ay2 bx1 by1 bx2 by2 : R) :
  let placeA this := placeCollisionBox this boxA false ratioA matrixA predicateA in
  let placeB this := placeCollisionBox this boxB false ratioB matrixB predicateB in
  let insert key placed :=
    insertCollisionBox (PlacedBox.box placed) false (bucketInstanceId key)
      (featureIndex key) (collisionGroupID key) in
  Grid.entries (grid this) = [] ->
  projectedBox this boxA ratioA matrixA = (ax1, ay1, ax2, ay2) ->
  projectedBox this boxB ratioB matrixB = (bx1, by1, bx2, by2) ->
  isInsideGrid this ax1 ay1 ax2 ay2 = true ->
  isInsideGrid this bx1 by1 bx2 by2 = true ->
  Grid.boxMeets ax1 ay1 ax2 ay2 (Grid.Box bx1 by1 bx2 by2) = true ->
  accepts predicateA keyB = true ->
  accepts predicateB keyA = true ->
  PlacedBox.box (placeA this) = [ax1; ay1; ax2; ay2]
  /\ PlacedBox.box (placeB this) = [bx1; by1; bx2; by2]
  /\ placeB (insert keyA (placeA this) this) = PlacedBox.mk [] false
  /\ placeA (insert keyB (placeB this) this) = PlacedBox.mk [] false.
Proof.
  intros placeA placeB insert Hempty HA HB HinA HinB Hmeets HaccA HaccB.
  assert (HplaceA : PlacedBox.box (placeA this) = [ax1; ay1; ax2; ay2]).
  { unfold placeA. rewrite (placeCollisionBox_eq _ _ _ _ _ _ _ _ _ _ HA).
    unfold Grid.hitTest. rewrite HinA, Hempty. reflexivity. }
  assert (HplaceB : PlacedBox.box (placeB this) = [bx1; by1; bx2; by2]).
  { unfold placeB. rewrite (placeCollisionBox_eq _ _ _ _ _ _ _ _ _ _ HB).
    unfold Grid.hitTest. rewrite HinB, Hempty. reflexivity. }
  split; [exact HplaceA |]. split; [exact HplaceB |].
  unfold insert. rewrite HplaceA, HplaceB. destruct keyA as [bA fA gA], keyB as [bB fB gB].
  cbn [bucketInstanceId featureIndex collisionGroupID].
  split.
  - set (this' := insertCollisionBox _ _ _ _ _ _).
    assert (Hframe : sameFrame this' this)
      by exact (afterAll_sameFrame [InsertCollisionBox [ax1; ay1; ax2; ay2] false bA fA gA]
                  this).
    unfold placeB.
    rewrite (placeCollisionBox_eq this' _ _ _ _ _ bx1 by1 bx2 by2)
      by (rewrite (projectedBox_sameFrame _ _ _ _ _ Hframe); exact HB).
    rewrite (hitTest_true_of_entry _ _ _ _ _ _
               (Grid.mkEntry (mkKey bA fA gA) (Grid.Box ax1 ay1 ax2 ay2))).
    + rewrite orb_true_r. reflexivity.
    + exact (inserted_box_stays this ax1 ay1 ax2 ay2 bA fA gA []).
    + exact HaccB.
    + cbn [Grid.shape]. rewrite boxMeets_sym. exact Hmeets.
  - set (this' := insertCollisionBox _ _ _ _ _ _).
    assert (Hframe : sameFrame this' this)
      by exact (afterAll_sameFrame [InsertCollisionBox [bx1; by1; bx2; by2] false bB fB gB]
                  this).
    unfold placeA.
    rewrite (placeCollisionBox_eq this' _ _ _ _ _ ax1 ay1 ax2 ay2)
      by (rewrite (projectedBox_sameFrame _ _ _ _ _ Hframe); exact HA).
    rewrite (hitTest_true_of_entry _ _ _ _ _ _
               (Grid.mkEntry (mkKey bB fB gB) (Grid.Box bx1 by1 bx2 by2))).
    + rewrite orb_true_r. reflexivity.
    + exact (inserted_box_stays this bx1 by1 bx2 by2 bB fB gB []).
    + exact HaccA.
    + exact Hmeets.
Qed.

Lemma placement_order_sensitive_witness :
  placeCollisionBox
    (insertCollisionBox
       (PlacedBox.box (placeCollisionBox exampleIndex scenarioBox false 1 (scaleW 1) None))
       false 1 0 0 exampleIndex)
    scenarioBox false 1 (scaleW 1) None
  = PlacedBox.mk [] false.
Proof.
  refine (proj1 (proj2 (proj2
    (placement_order_sensitive exampleIndex scenarioBox scenarioBox 1 1
       (scaleW 1) (scaleW 1) None None (mkKey 1 0 0) (mkKey 1 0 0)
       45 45 65 65 45 45 65 65 eq_refl
       (scenarioBox_projected_at exampleIndex eq_refl)
       (scenarioBox_projected_at exampleIndex eq_refl) _ _ _ eq_refl eq_refl)))).
  - unfold isInsideGrid. simpl. unfold viewportPadding. cmp.
  - unfold isInsideGrid. simpl. unfold viewportPadding. cmp.
  - simpl. cmp.
Defined.

(** ** What [clipLine] returns *)

Lemma pointAt_0 (start end_ : Point) : pointAt start end_ 0 = start.
Proof. apply point_eq; unfold pointAt; simpl; lra. Qed.

Lemma pointAt_1 (start end_ : Point) : pointAt start end_ 1 = end_.
Proof. apply point_eq; unfold pointAt; simpl; lra. Qed.

Lemma epsilon_pos : 0 < epsilon.
Proof. unfold epsilon. lra. Qed.

(** A slab test that passes keeps [0 <= tMin <= tMax]. *)
Lemma slabCheckOnAxis_ordered (dirVec minVec maxVec startVec tMin tMax tMin' tMax' : R) :
  slabCheckOnAxis dirVec minVec maxVec startVec (tMin, tMax) = (true, (tMin', tMax')) ->
  0 <= tMin <= tMax ->
  0 <= tMin' <= tMax'.
Proof.
  unfold slabCheckOnAxis. intros H Hord.
  destruct (Rabs dirVec <? epsilon).
  - destruct ((startVec <? minVec) || (startVec >? maxVec)); [discriminate |].
    injection H as <- <-. exact Hord.
  - destruct ((minVec - startVec) * (1 / dirVec) >? (maxVec - startVec) * (1 / dirVec));
      cbv zeta beta iota in H;
      match type of H with
      | (if (?a >? ?b) || (?b' <? 0) then _ else _) = _ =>
          destruct (a >? b) eqn:Hgt; simpl in H; [discriminate |];
          destruct (b' <? 0) eqn:Hneg; [discriminate |];
          injection H as <- <-
      end;
      apply bool_decide_eq_false in Hgt; repeat case_bool_decide; lra.
Qed.

(** Around a start value inside the slab, a slab test passes and leaves
    [tMin = 0]. *)
Lemma slabCheckOnAxis_inside (dirVec minVec maxVec startVec tMax : R) :
  minVec <= startVec <= maxVec ->
  0 <= tMax ->
  exists tMax' : R,
    slabCheckOnAxis dirVec minVec maxVec startVec (0, tMax) = (true, (0, tMax'))
    /\ 0 <= tMax'.
Proof.
  intros Hin Hmax. unfold slabCheckOnAxis.
  destruct (Rabs dirVec <? epsilon) eqn:Hpar.
  - rewrite !bool_decide_eq_false_2 by lra. simpl. eauto.
  - apply bool_decide_eq_false in Hpar. pose proof epsilon_pos as Heps.
    set (ood := 1 / dirVec).
    assert (Hsigns : ((minVec - startVec) * ood <= 0 /\ 0 <= (maxVec - startVec) * ood)
                     \/ ((maxVec - startVec) * ood <= 0
                         /\ 0 <= (minVec - startVec) * ood)).
    { destruct (Rle_lt_dec 0 dirVec) as [Hpos | Hneg].
      - rewrite Rabs_right in Hpar by lra.
        assert (0 < ood) by (unfold ood, Rdiv; rewrite Rmult_1_l;
                             apply Rinv_0_lt_compat; lra).
        left. split; nra.
      - assert (ood < 0) by (unfold ood, Rdiv; rewrite Rmult_1_l;
                             apply Rinv_lt_0_compat; lra).
        right. split; nra. }
    set (a := (minVec - startVec) * ood) in *.
    set (b := (maxVec - startVec) * ood) in *.
    destruct (a >? b) eqn:Hswap; cbv zeta beta iota.
    + apply bool_decide_eq_true in Hswap.
      rewrite (bool_decide_eq_false_2 (b > 0)) by lra.
      destruct (a <? tMax) eqn:Ha.
      * exists a. rewrite !bool_decide_eq_false_2 by lra. simpl. split; [reflexivity | lra].
      * exists tMax. rewrite !bool_decide_eq_false_2 by lra. simpl. auto.
    + apply bool_decide_eq_false in Hswap.
      rewrite (bool_decide_eq_false_2 (a > 0)) by lra.
      destruct (b <? tMax) eqn:Hb.
      * exists b. rewrite !bool_decide_eq_false_2 by lra. simpl. split; [reflexivity | lra].
      * exists tMax. rewrite !bool_decide_eq_false_2 by lra. simpl. auto.
Qed.

Lemma Number_MAX_VALUE_nonneg : 0 <= Number_MAX_VALUE.
Proof. pose proof Number_MAX_VALUE_large. lra. Qed.

(** X5.  [clipLine] never returns a point off the segment: when it
    returns two points, they are the points of the segment at two
    parameters [0 <= t1 <= t2 <= 1], in this order from [start] to
    [end]. *)
Theorem clipLine_on_segment (start end_ minBoundary maxBoundary p q : Point) :
  clipLine start end_ minBoundary maxBoundary = Some (p, q) ->
  exists t1 t2 : R,
    0 <= t1 <= t2 /\ t2 <= 1
    /\ p = pointAt start end_ t1 /\ q = pointAt start end_ t2.
Proof.
  assert (Hwhole : Some (start, end_) = Some (p, q) ->
                   exists t1 t2 : R, 0 <= t1 <= t2 /\ t2 <= 1
                     /\ p = pointAt start end_ t1 /\ q = pointAt start end_ t2).
  { intros [= <- <-]. exists 0, 1. rewrite pointAt_0, pointAt_1.
    repeat split; lra || reflexivity. }
  unfold clipLine.
  destruct (negb _ && negb _); [exact Hwhole |].
  destruct (_ =? _)%Z; [discriminate |].
  set (len := Point.mag (Point.sub end_ start)).
  destruct (len <? epsilon) eqn:Hlen; [exact Hwhole |].
  apply bool_decide_eq_false in Hlen. pose proof epsilon_pos as Heps.
  destruct (slabCheckOnAxis (Point.x (Point.div (Point.sub end_ start) len)) _ _ _ _)
    as [okx [tMinx tMaxx]] eqn:Hx.
  destruct okx; cbn [negb]; [| discriminate].
  destruct (slabCheckOnAxis (Point.y (Point.div (Point.sub end_ start) len)) _ _ _ _)
    as [oky [tMiny tMaxy]] eqn:Hy.
  destruct oky; cbn [negb]; [| discriminate].
  intros [= <- <-].
  pose proof (slabCheckOnAxis_ordered _ _ _ _ _ _ _ _ Hx
                (conj (Rle_refl 0) Number_MAX_VALUE_nonneg)) as Hordx.
  pose proof (slabCheckOnAxis_ordered _ _ _ _ _ _ _ _ Hy Hordx) as Hordy.
  exists (Rmin tMiny len / len), (Rmin tMaxy len / len).
  assert (Hinv : 0 < / len) by (apply Rinv_0_lt_compat; lra).
  assert (Hone : len * / len = 1) by (apply Rinv_r; lra).
  assert (H1 : 0 <= Rmin tMiny len <= Rmin tMaxy len).
  { split; [apply Rmin_glb; lra |]. apply Rle_min_compat_r. lra. }
  assert (H2 : Rmin tMaxy len <= len) by apply Rmin_r.
  unfold Rdiv. repeat split; try reflexivity; nra.
Qed.

Lemma clipLine_on_segment_witness :
  exists t1 t2 : R,
    0 <= t1 <= t2 /\ t2 <= 1
    /\ Point.mk (-5) (- / 1048576)
       = pointAt (Point.mk (-10) (/ 1048576)) (Point.mk (-5) (- / 1048576)) t1
    /\ Point.mk (-5) (- / 1048576)
       = pointAt (Point.mk (-10) (/ 1048576)) (Point.mk (-5) (- / 1048576)) t2.
Proof.
  exact (clipLine_on_segment _ _ _ _ _ _ clipLine_long_segment_left).
Defined.

(** X6.  [clipLine] keeps a start point that lies inside the rectangle:
    the segment is never rejected, and the first point returned is
    [start] itself. *)
Theorem clipLine_keeps_inside_start (start end_ minBoundary maxBoundary : Point) :
  inside start minBoundary maxBoundary ->
  exists q : Point, clipLine start end_ minBoundary maxBoundary = Some (start, q).
Proof.
  intros Hin. unfold clipLine. rewrite (computeRegion_inside _ _ _ Hin).
  destruct (computeRegion end_ minBoundary maxBoundary =? 0)%Z eqn:Hend.
  - apply Z.eqb_eq in Hend. rewrite Hend. simpl. eauto.
  - pose proof Hend as Hend'. rewrite Z.eqb_sym in Hend'.
    unfold truthy. rewrite Hend, Hend'. cbn [Z.eqb negb andb].
    set (len := Point.mag (Point.sub end_ start)).
    destruct (len <? epsilon) eqn:Hlen; [eauto |].
    apply bool_decide_eq_false in Hlen. pose proof epsilon_pos as Heps.
    destruct Hin as [Hinx Hiny].
    destruct (slabCheckOnAxis_inside
                (Point.x (Point.div (Point.sub end_ start) len))
                _ _ _ Number_MAX_VALUE Hinx Number_MAX_VALUE_nonneg)
      as (tMaxx & -> & Hmaxx).
    cbn [negb].
    destruct (slabCheckOnAxis_inside
                (Point.y (Point.div (Point.sub end_ start) len))
                _ _ _ tMaxx Hiny Hmaxx)
      as (tMaxy & -> & Hmaxy).
    cbn [negb]. rewrite Rmin_left by lra. eexists. f_equal. f_equal.
    apply point_eq; simpl; unfold Rdiv; lra.
Qed.

Lemma clipLine_keeps_inside_start_witness :
  exists q : Point,
    clipLine (Point.mk 5 5) (Point.mk 20 5) (Point.mk 0 0) (Point.mk 10 10)
    = Some (Point.mk 5 5, q).
Proof.
  apply clipLine_keeps_inside_start. unfold inside. simpl. lra.
Defined.

(** ** What [placeCollisionCircles] returns *)

(** A scan in which no test on the occlusion grid fires runs to the end,
    whatever [showCollisionCircles] is. *)
Lemma scanCircles_no_hit (this : CollisionIndex) (allowOverlap showCollisionCircles : bool)
    (predicate : Predicate) (circles : list Circle) (st : ScanState) :
  negb allowOverlap && existsb (circleHits this predicate) circles = false ->
  scanCircles this allowOverlap showCollisionCircles predicate circles st
  = inr (mkScanState
           (placedCollisionCircles st ++ flat_map circleTuple circles)
           (collisionDetected st)
           (inGrid st || existsb (circleInsideGrid this) circles)
           (entirelyOffscreen st && forallb (circleOffscreen this) circles)).
Proof.
  revert st. induction circles as [| c circles IH]; intros st Hno; simpl.
  - rewrite app_nil_r, orb_false_r, andb_true_r. destruct st; reflexivity.
  - fold (circleHits this predicate c). fold (circleOffscreen this c).
    fold (circleInsideGrid this c).
    simpl in Hno.
    assert (Hc : negb allowOverlap && circleHits this predicate c = false)
      by (destruct allowOverlap, (circleHits this predicate c); simpl in *; congruence).
    assert (Hrest : negb allowOverlap && existsb (circleHits this predicate) circles
                    = false)
      by (destruct allowOverlap, (circleHits this predicate c); simpl in *; congruence).
    rewrite Hc, (IH _ Hrest). simpl. do 2 f_equal.
    + rewrite <- app_assoc. reflexivity.
    + rewrite orb_assoc. reflexivity.
    + rewrite andb_assoc. reflexivity.
Qed.

(** A path all of whose segments are clipped away adds no circle. *)
Lemma placePath_all_clipped (r : R) (min max : Point) (projectedPath : list Point)
    (st : list Circle * option Point) :
  (forall (pre : list Point) (a b : Point) (post : list Point),
     projectedPath = pre ++ a :: b :: post -> clipLine a b min max = None) ->
  placePath r min max projectedPath st = st.
Proof.
  revert st. induction projectedPath as [| a rest IH]; intros st Hclipped.
  - reflexivity.
  - destruct rest as [| b rest]; [reflexivity |].
    change (placePath r min max (a :: b :: rest) st)
      with (placePath r min max (b :: rest) (placeSegment r min max st a b)).
    assert (Hseg : placeSegment r min max st a b = st).
    { unfold placeSegment. rewrite (Hclipped [] a b rest eq_refl). destruct st; reflexivity. }
    rewrite Hseg. apply IH. intros pre a' b' post Hpath.
    apply (Hclipped (a :: pre) a' b' post). rewrite Hpath. reflexivity.
Qed.

Section CirclePlacement.
Context {SymbolLineVertexArray GlyphOffsetArray : Type}.
Variable project : Point -> mat4 -> Point.
Variable placeFirstAndLastGlyph :
R -> GlyphOffsetArray -> R -> R -> bool -> Point -> Point -> Symbol ->
SymbolLineVertexArray -> mat4 -> bool -> option FirstAndLastGlyph.t.

(** The circles and the flag returned, in terms of the chain. *)
Lemma placeCollisionCircles_closed_form (this : CollisionIndex)
  (collisionCircles : list R) (allowOverlap : bool) (scale textPixelRatio : R)
  (symbol : Symbol) (lineVertexArray : SymbolLineVertexArray)
  (glyphOffsetArray : GlyphOffsetArray) (fontSize : R)
  (posMatrix labelPlaneMatrix : mat4) (showCollisionCircles pitchWithMap : bool)
  (predicate : Predicate) :
placeCollisionCircles project placeFirstAndLastGlyph this collisionCircles
  allowOverlap scale textPixelRatio symbol lineVertexArray glyphOffsetArray
  fontSize posMatrix labelPlaneMatrix showCollisionCircles pitchWithMap predicate
= match firstAndLastGlyphOf project placeFirstAndLastGlyph this symbol
          lineVertexArray glyphOffsetArray fontSize posMatrix labelPlaneMatrix with
  | None => PlacedCircles.mk [] true
  | Some fl =>
      let chain :=
        chainCircles this
          (projectAnchor this posMatrix (anchorX symbol) (anchorY symbol)) fl in
      let collides :=
        negb allowOverlap && existsb (circleHits this predicate) chain in
      PlacedCircles.mk
        (if collides || negb (existsb (circleInsideGrid this) chain)
         then [] else flat_map circleTuple chain)
        (if collides && negb showCollisionCircles
         then false else forallb (circleOffscreen this) chain)
  end.
Proof.
unfold placeCollisionCircles.
destruct (firstAndLastGlyphOf _ _ _ _ _ _ _ _ _) as [fl |]; [| reflexivity].
cbv zeta.
set (chain := chainCircles _ _ _).
destruct (negb allowOverlap && existsb (circleHits this predicate) chain) eqn:Hcol.
- apply andb_true_iff in Hcol as [Hao Hex]. apply negb_true_iff in Hao. subst.
  destruct showCollisionCircles.
  + rewrite scanCircles_scans_all. simpl. rewrite Hex. reflexivity.
  + apply existsb_exists in Hex as (c & Hin & Hc).
    destruct (first_hit this predicate chain c Hin Hc)
      as (before & c' & rest & -> & Hbefore & Hc').
    rewrite (scanCircles_returns_at_first_hit _ _ _ _ _ _ Hbefore Hc').
    reflexivity.
- rewrite (scanCircles_no_hit _ _ _ _ _ _ Hcol). reflexivity.
Qed.

(** X7.  [showCollisionCircles] never changes the circles returned; and
  when the chain is accepted it changes nothing at all. *)
Theorem showCollisionCircles_keeps_circles (this : CollisionIndex)
  (collisionCircles : list R) (allowOverlap : bool) (scale textPixelRatio : R)
  (symbol : Symbol) (lineVertexArray : SymbolLineVertexArray)
  (glyphOffsetArray : GlyphOffsetArray) (fontSize : R)
  (posMatrix labelPlaneMatrix : mat4) (pitchWithMap : bool)
  (predicate : Predicate) :
let place showCollisionCircles :=
  placeCollisionCircles project placeFirstAndLastGlyph this collisionCircles
    allowOverlap scale textPixelRatio symbol lineVertexArray glyphOffsetArray
    fontSize posMatrix labelPlaneMatrix showCollisionCircles pitchWithMap predicate in
PlacedCircles.circles (place true) = PlacedCircles.circles (place false)
/\ (PlacedCircles.circles (place false) <> [] -> place true = place false).
Proof.
intros place. subst place. cbv beta. rewrite !placeCollisionCircles_closed_form.
destruct (firstAndLastGlyphOf _ _ _ _ _ _ _ _ _) as [fl |]; [| auto].
cbv zeta. split; [reflexivity |].
destruct (negb allowOverlap && existsb _ _); simpl; [| reflexivity].
intros H. destruct H. reflexivity.
Qed.

(** X8.  When the line layout places no glyph, or when every segment of
  the projected path is clipped away (so also when the path has fewer
  than two points), the result is [{circles: [], offscreen: true}]. *)
Theorem placeCollisionCircles_nothing_on_screen (this : CollisionIndex)
  (collisionCircles : list R) (allowOverlap : bool) (scale textPixelRatio : R)
  (symbol : Symbol) (lineVertexArray : SymbolLineVertexArray)
  (glyphOffsetArray : GlyphOffsetArray) (fontSize : R)
  (posMatrix labelPlaneMatrix : mat4) (showCollisionCircles pitchWithMap : bool)
  (predicate : Predicate) :
match firstAndLastGlyphOf project placeFirstAndLastGlyph this symbol
        lineVertexArray glyphOffsetArray fontSize posMatrix labelPlaneMatrix with
| None => True
| Some fl =>
    forall (pre : list Point) (a b : Point) (post : list Point),
      projectedPathOf fl = pre ++ a :: b :: post ->
      clipLine a b labelPlaneMin (labelPlaneMax this) = None
end ->
placeCollisionCircles project placeFirstAndLastGlyph this collisionCircles
  allowOverlap scale textPixelRatio symbol lineVertexArray glyphOffsetArray
  fontSize posMatrix labelPlaneMatrix showCollisionCircles pitchWithMap predicate
= PlacedCircles.mk [] true.
Proof.
rewrite placeCollisionCircles_closed_form.
destruct (firstAndLastGlyphOf _ _ _ _ _ _ _ _ _) as [fl |]; [| reflexivity].
intros Hclipped. cbv zeta.
assert (Hchain : chainCircles this
                   (projectAnchor this posMatrix (anchorX symbol) (anchorY symbol)) fl
                 = []).
{ unfold chainCircles. cbv zeta.
  rewrite (placePath_all_clipped _ _ _ _ _ Hclipped). reflexivity. }
rewrite Hchain. simpl. rewrite andb_false_r. reflexivity.
Qed.
End CirclePlacement.

(** ** Circle chains and the calls around them *)

Lemma insertCircleTuples_chain (key : Key) (chain : list Circle) (g : Grid.t) :
  Grid.entries (insertCircleTuples key (flat_map circleTuple chain) g)
  = Grid.entries g ++ map (circleEntry key) chain.
Proof.
  revert g. induction chain as [| c chain IH]; intros g.
  - simpl. rewrite app_nil_r. reflexivity.
  - change (flat_map circleTuple (c :: chain))
      with (Point.x (point c) + viewportPadding :: Point.y (point c) + viewportPadding
              :: radius c :: 0 :: flat_map circleTuple chain).
    cbn [insertCircleTuples]. rewrite IH. simpl. rewrite <- app_assoc. reflexivity.
Qed.

Lemma circleHits_grows (a b : CollisionIndex) (added : list Grid.Entry)
    (predicate : Predicate) (c : Circle) :
  Grid.entries (grid b) = Grid.entries (grid a) ++ added ->
  circleHits a predicate c = true -> circleHits b predicate c = true.
Proof.
  intros Hentries. unfold circleHits, Grid.hitTestCircle.
  rewrite Hentries, existsb_app. intros ->. reflexivity.
Qed.

Lemma existsb_circleHits_grows (a b : CollisionIndex) (added : list Grid.Entry)
    (predicate : Predicate) (chain : list Circle) :
  Grid.entries (grid b) = Grid.entries (grid a) ++ added ->
  existsb (circleHits a predicate) chain = true ->
  existsb (circleHits b predicate) chain = true.
Proof.
  intros Hentries Hex. apply existsb_exists in Hex as (c & Hin & Hc).
  apply existsb_exists. exists c. split; [exact Hin |].
  exact (circleHits_grows a b added predicate c Hentries Hc).
Qed.

(** A circle hits the entry made of itself. *)
Lemma circleHits_own_entry (this : CollisionIndex) (predicate : Predicate) (key : Key)
    (c : Circle) :
  In (circleEntry key c) (Grid.entries (grid this)) ->
  accepts predicate key = true ->
  circleHits this predicate c = true.
Proof.
  intros Hin Hacc. unfold circleHits, Grid.hitTestCircle. apply existsb_exists.
  exists (circleEntry key c). split; [exact Hin |]. simpl. rewrite Hacc. simpl.
  apply bool_decide_eq_true. nra.
Qed.

Lemma sameFrame_trans (a b c : CollisionIndex) :
  sameFrame a b -> sameFrame b c -> sameFrame a c.
Proof.
  intros (H1 & H2 & H3 & H4 & H5) (K1 & K2 & K3 & K4 & K5).
  repeat split; congruence.
Qed.

Lemma chainCircles_sameFrame (a b : CollisionIndex) (projectedAnchor : ProjectedAnchor.t)
    (fl : FirstAndLastGlyph.t) :
  sameFrame a b -> chainCircles a projectedAnchor fl = chainCircles b projectedAnchor fl.
Proof. intros (Ht & _). unfold chainCircles, labelPlaneMax. rewrite Ht. reflexivity. Qed.

Lemma circleInsideGrid_sameFrame (a b : CollisionIndex) (chain : list Circle) :
  sameFrame a b ->
  existsb (circleInsideGrid a) chain = existsb (circleInsideGrid b) chain.
Proof.
  intros H. induction chain as [| c chain IH]; simpl; [reflexivity |].
  rewrite IH. unfold circleInsideGrid.
  rewrite (isInsideGrid_sameFrame a b _ _ _ _ H). reflexivity.
Qed.

Lemma circleOffscreen_sameFrame (a b : CollisionIndex) (chain : list Circle) :
  sameFrame a b ->
  forallb (circleOffscreen a) chain = forallb (circleOffscreen b) chain.
Proof.
  intros H. induction chain as [| c chain IH]; simpl; [reflexivity |].
  rewrite IH. unfold circleOffscreen.
  rewrite (isOffscreen_sameFrame a b _ _ _ _ H). reflexivity.
Qed.

Section CircleFrame.
Context {SymbolLineVertexArray GlyphOffsetArray : Type}.
Variable project : Point -> mat4 -> Point.
Variable placeFirstAndLastGlyph :
R -> GlyphOffsetArray -> R -> R -> bool -> Point -> Point -> Symbol ->
SymbolLineVertexArray -> mat4 -> bool -> option FirstAndLastGlyph.t.

Lemma firstAndLastGlyphOf_sameFrame (a b : CollisionIndex) (symbol : Symbol)
  (lineVertexArray : SymbolLineVertexArray) (glyphOffsetArray : GlyphOffsetArray)
  (fontSize : R) (posMatrix labelPlaneMatrix : mat4) :
sameFrame a b ->
firstAndLastGlyphOf project placeFirstAndLastGlyph a symbol lineVertexArray
  glyphOffsetArray fontSize posMatrix labelPlaneMatrix
= firstAndLastGlyphOf project placeFirstAndLastGlyph b symbol lineVertexArray
    glyphOffsetArray fontSize posMatrix labelPlaneMatrix.
Proof.
intros (Ht & _). unfold firstAndLastGlyphOf, projectAnchor. rewrite Ht. reflexivity.
Qed.

Lemma projectAnchor_sameFrame (a b : CollisionIndex) (posMatrix : mat4) (x y : R) :
sameFrame a b -> projectAnchor a posMatrix x y = projectAnchor b posMatrix x y.
Proof. intros (Ht & _). unfold projectAnchor. rewrite Ht. reflexivity. Qed.

(** X9.  Over the frame, for [placeCollisionCircles]: queries and
  insertions made with [ignorePlacement] never change its result; with
  [allowOverlap] no call changes it; and a chain that is rejected stays
  rejected after any further calls. *)
Theorem placeCollisionCircles_over_the_frame (this : CollisionIndex) (later : list Call)
  (collisionCircles : list R) (allowOverlap : bool) (scale textPixelRatio : R)
  (symbol : Symbol) (lineVertexArray : SymbolLineVertexArray)
  (glyphOffsetArray : GlyphOffsetArray) (fontSize : R)
  (posMatrix labelPlaneMatrix : mat4) (showCollisionCircles pitchWithMap : bool)
  (predicate : Predicate) :
let place this :=
  placeCollisionCircles project placeFirstAndLastGlyph this collisionCircles
    allowOverlap scale textPixelRatio symbol lineVertexArray glyphOffsetArray
    fontSize posMatrix labelPlaneMatrix showCollisionCircles pitchWithMap predicate in
(forallb blocksNothing later = true \/ allowOverlap = true ->
 place (afterAll later this) = place this)
/\ (PlacedCircles.circles (place this) = [] ->
    PlacedCircles.circles (place (afterAll later this)) = []).
Proof.
intros place. subst place. cbv beta.
pose proof (afterAll_sameFrame later this) as Hframe.
destruct (afterAll_grows later this) as ([added Hadded] & _).
rewrite !placeCollisionCircles_closed_form.
rewrite (firstAndLastGlyphOf_sameFrame _ _ _ _ _ _ _ _ Hframe).
destruct (firstAndLastGlyphOf _ _ _ _ _ _ _ _ _) as [fl |]; [| auto].
cbv zeta.
rewrite (projectAnchor_sameFrame _ _ _ _ _ Hframe),
        (chainCircles_sameFrame _ _ _ _ Hframe),
        (circleInsideGrid_sameFrame _ _ _ Hframe),
        (circleOffscreen_sameFrame _ _ _ Hframe).
set (chain := chainCircles _ _ _). split.
- intros [Hignored | ->]; [| reflexivity].
  unfold circleHits. rewrite (afterAll_blocksNothing _ _ Hignored). reflexivity.
- cbn [PlacedCircles.circles]. destruct allowOverlap; cbn [negb andb orb].
  + intros H. exact H.
  + destruct (existsb (circleHits this predicate) chain) eqn:Hex.
    * rewrite (existsb_circleHits_grows _ _ _ _ _ Hadded Hex). reflexivity.
    * cbn [orb]. intros H.
      destruct (existsb (circleHits (afterAll later this) predicate) chain);
        [reflexivity | exact H].
Qed.

(** X10.  Placing a chain and inserting the circles returned puts one
  entry per circle of the chain into the chosen grid, in order, with the
  centre moved by [viewportPadding] and the radius of the chain; the
  other grid is left as it is. *)
Theorem insert_placed_circles (this : CollisionIndex)
  (collisionCircles : list R) (allowOverlap : bool) (scale textPixelRatio : R)
  (symbol : Symbol) (lineVertexArray : SymbolLineVertexArray)
  (glyphOffsetArray : GlyphOffsetArray) (fontSize : R)
  (posMatrix labelPlaneMatrix : mat4) (showCollisionCircles pitchWithMap : bool)
  (predicate : Predicate) (ignorePlacement : bool) (b f g : Z) :
let placed :=
  placeCollisionCircles project placeFirstAndLastGlyph this collisionCircles
    allowOverlap scale textPixelRatio symbol lineVertexArray glyphOffsetArray
    fontSize posMatrix labelPlaneMatrix showCollisionCircles pitchWithMap predicate in
let this' :=
  insertCollisionCircles (PlacedCircles.circles placed) ignorePlacement b f g this in
PlacedCircles.circles placed <> [] ->
exists fl : FirstAndLastGlyph.t,
  firstAndLastGlyphOf project placeFirstAndLastGlyph this symbol lineVertexArray
    glyphOffsetArray fontSize posMatrix labelPlaneMatrix = Some fl
  /\ let chain :=
       chainCircles this
         (projectAnchor this posMatrix (anchorX symbol) (anchorY symbol)) fl in
     let added := map (circleEntry (mkKey b f g)) chain in
     if ignorePlacement
     then Grid.entries (ignoredGrid this') = Grid.entries (ignoredGrid this) ++ added
          /\ grid this' = grid this
     else Grid.entries (grid this') = Grid.entries (grid this) ++ added
          /\ ignoredGrid this' = ignoredGrid this.
Proof.
intros placed this' Haccepted.
destruct (placeCollisionCircles_accepted project placeFirstAndLastGlyph
            _ _ _ _ _ _ _ _ _ _ _ _ _ _ Haccepted) as (fl & Hfl & Hplaced).
exists fl. split; [exact Hfl |]. cbv zeta. subst this' placed.
rewrite Hplaced. unfold insertCollisionCircles.
destruct ignorePlacement; simpl; rewrite insertCircleTuples_chain; auto.
Qed.

(** X11.  A chain blocks itself: once the circles returned for it are
  inserted into the occlusion grid under a key the predicate accepts,
  the same call without [allowOverlap] returns no circles, at any later
  point of the frame. *)
Theorem placed_circles_block_themselves (this : CollisionIndex)
  (collisionCircles : list R) (allowOverlap : bool) (scale textPixelRatio : R)
  (symbol : Symbol) (lineVertexArray : SymbolLineVertexArray)
  (glyphOffsetArray : GlyphOffsetArray) (fontSize : R)
  (posMatrix labelPlaneMatrix : mat4) (showCollisionCircles pitchWithMap : bool)
  (predicate : Predicate) (b f g : Z) (later : list Call) :
let place allowOverlap this :=
  placeCollisionCircles project placeFirstAndLastGlyph this collisionCircles
    allowOverlap scale textPixelRatio symbol lineVertexArray glyphOffsetArray
    fontSize posMatrix labelPlaneMatrix showCollisionCircles pitchWithMap predicate in
let this' :=
  afterAll later
    (insertCollisionCircles (PlacedCircles.circles (place allowOverlap this))
       false b f g this) in
PlacedCircles.circles (place allowOverlap this) <> [] ->
accepts predicate (mkKey b f g) = true ->
PlacedCircles.circles (place false this') = [].
Proof.
intros place this' Haccepted Hacc. subst place. cbv beta in *.
destruct (placeCollisionCircles_accepted project placeFirstAndLastGlyph
            _ _ _ _ _ _ _ _ _ _ _ _ _ _ Haccepted) as (fl & Hfl & Hplaced).
set (inserted := insertCollisionCircles _ false b f g this) in *.
assert (Hentries :
          Grid.entries (grid inserted)
          = Grid.entries (grid this)
            ++ map (circleEntry (mkKey b f g))
                 (chainCircles this
                    (projectAnchor this posMatrix (anchorX symbol) (anchorY symbol))
                    fl)).
{ unfold inserted. rewrite Hplaced. unfold insertCollisionCircles. simpl.
  rewrite insertCircleTuples_chain. reflexivity. }
assert (Hframe : sameFrame this' this).
{ apply (sameFrame_trans _ inserted); [apply afterAll_sameFrame |].
  exact (afterAll_sameFrame [InsertCollisionCircles _ false b f g] this). }
destruct (afterAll_grows later inserted) as ([added Hadded] & _).
fold this' in Hadded.
rewrite placeCollisionCircles_closed_form.
rewrite (firstAndLastGlyphOf_sameFrame _ _ _ _ _ _ _ _ Hframe), Hfl. cbv zeta.
rewrite (projectAnchor_sameFrame _ _ _ _ _ Hframe),
        (chainCircles_sameFrame _ _ _ _ Hframe).
cbv zeta in Hentries.
destruct (chainCircles this _ fl) as [| c rest] eqn:Hchain.
{ exfalso. apply Haccepted. rewrite Hplaced. reflexivity. }
assert (Hhit : circleHits this' predicate c = true).
{ apply (circleHits_own_entry this' predicate (mkKey b f g) c); [| exact Hacc].
  rewrite Hadded, Hentries. apply in_or_app. left. apply in_or_app. right.
  left. reflexivity. }
simpl. rewrite Hhit. reflexivity.
Qed.
End CircleFrame.

(** ** The tuples of an accepted chain *)

Lemma placeSegment_radius (r : R) (min max : Point) (st : list Circle * option Point)
    (a b : Point) :
  Forall (fun c => radius c = r) (fst st) ->
  Forall (fun c => radius c = r) (fst (placeSegment r min max st a b)).
Proof.
  destruct st as [circles lastPlacedCircle]. intros Hst.
  destruct (clipLine a b min max) as [[s e] |] eqn:Hclip.
  - destruct (placeSegment_clipped r min max circles lastPlacedCircle a b s e Hclip)
      as (startpart & Hstart & ->).
    cbn [fst]. apply Forall_app. split; [exact Hst |].
    apply Forall_app. split.
    + destruct Hstart as [-> | ->]; repeat constructor.
    + constructor; [reflexivity |]. unfold fillSegment.
      apply Forall_forall. intros c Hc. apply list_elem_of_In in Hc.
      apply in_map_iff in Hc as (i & <- & _). reflexivity.
  - unfold placeSegment. rewrite Hclip. exact Hst.
Qed.

Lemma placePath_radius (r : R) (min max : Point) (projectedPath : list Point)
    (st : list Circle * option Point) :
  Forall (fun c => radius c = r) (fst st) ->
  Forall (fun c => radius c = r) (fst (placePath r min max projectedPath st)).
Proof.
  revert st. induction projectedPath as [| a rest IH]; intros st Hst; [exact Hst |].
  destruct rest as [| b rest]; [exact Hst |].
  change (placePath r min max (a :: b :: rest) st)
    with (placePath r min max (b :: rest) (placeSegment r min max st a b)).
  apply IH, placeSegment_radius, Hst.
Qed.

Lemma circleTuples_lookup (chain : list Circle) (k : nat) (c : Circle) :
  chain !! k = Some c ->
  flat_map circleTuple chain !! (4 * k)%nat = Some (Point.x (point c) + viewportPadding)
  /\ flat_map circleTuple chain !! (4 * k + 1)%nat
     = Some (Point.y (point c) + viewportPadding)
  /\ flat_map circleTuple chain !! (4 * k + 2)%nat = Some (radius c)
  /\ flat_map circleTuple chain !! (4 * k + 3)%nat = Some 0.
Proof.
  revert k. induction chain as [| d chain IH]; intros k Hk; [discriminate |].
  destruct k as [| k].
  - injection Hk as ->. repeat split; reflexivity.
  - simpl in Hk. destruct (IH k Hk) as (H0 & H1 & H2 & H3).
    replace (4 * S k)%nat with (S (S (S (S (4 * k))))) by lia.
    cbn [flat_map circleTuple app]. cbn [lookup list_lookup Nat.add].
    simpl. auto.
Qed.

Lemma circleTuples_length (chain : list Circle) :
  length (flat_map circleTuple chain) = (4 * length chain)%nat.
Proof. induction chain as [| c chain IH]; simpl in *; lia. Qed.

Section CircleTuples.
Context {SymbolLineVertexArray GlyphOffsetArray : Type}.
Variable project : Point -> mat4 -> Point.
Variable placeFirstAndLastGlyph :
R -> GlyphOffsetArray -> R -> R -> bool -> Point -> Point -> Symbol ->
SymbolLineVertexArray -> mat4 -> bool -> option FirstAndLastGlyph.t.

(** X12.  The circles returned for an accepted chain are a flat sequence
  of 4-tuples, one per circle of the chain and in its order: the centre
  moved by [viewportPadding] into grid coordinates, the radius
  [10 * perspectiveRatio], which is the same for all of them, and a
  used flag that is 0. *)
Theorem accepted_circle_tuples (this : CollisionIndex)
  (collisionCircles : list R) (allowOverlap : bool) (scale textPixelRatio : R)
  (symbol : Symbol) (lineVertexArray : SymbolLineVertexArray)
  (glyphOffsetArray : GlyphOffsetArray) (fontSize : R)
  (posMatrix labelPlaneMatrix : mat4) (showCollisionCircles pitchWithMap : bool)
  (predicate : Predicate) :
let projectedAnchor :=
  projectAnchor this posMatrix (anchorX symbol) (anchorY symbol) in
let placed :=
  PlacedCircles.circles
    (placeCollisionCircles project placeFirstAndLastGlyph this collisionCircles
       allowOverlap scale textPixelRatio symbol lineVertexArray glyphOffsetArray
       fontSize posMatrix labelPlaneMatrix showCollisionCircles pitchWithMap
       predicate) in
placed <> [] ->
exists fl : FirstAndLastGlyph.t,
  firstAndLastGlyphOf project placeFirstAndLastGlyph this symbol lineVertexArray
    glyphOffsetArray fontSize posMatrix labelPlaneMatrix = Some fl
  /\ length placed = (4 * length (chainCircles this projectedAnchor fl))%nat
  /\ forall (k : nat) (c : Circle),
       chainCircles this projectedAnchor fl !! k = Some c ->
       placed !! (4 * k)%nat = Some (Point.x (point c) + viewportPadding)
       /\ placed !! (4 * k + 1)%nat = Some (Point.y (point c) + viewportPadding)
       /\ placed !! (4 * k + 2)%nat
          = Some (10 * ProjectedAnchor.perspectiveRatio projectedAnchor)
       /\ placed !! (4 * k + 3)%nat = Some 0.
Proof.
intros projectedAnchor placed Haccepted.
destruct (placeCollisionCircles_accepted project placeFirstAndLastGlyph
            _ _ _ _ _ _ _ _ _ _ _ _ _ _ Haccepted) as (fl & Hfl & Hplaced).
exists fl. split; [exact Hfl |]. subst placed. rewrite Hplaced.
split; [apply circleTuples_length |].
intros k c Hk. fold projectedAnchor in Hk |- *.
destruct (circleTuples_lookup _ k c Hk) as (H0 & H1 & H2 & H3).
assert (Hradius : radius c = 10 * ProjectedAnchor.perspectiveRatio projectedAnchor).
{ assert (Hall : Forall (fun c => radius c
                                   = 10 * ProjectedAnchor.perspectiveRatio projectedAnchor)
                   (chainCircles this projectedAnchor fl))
    by (unfold chainCircles; apply placePath_radius; constructor).
  rewrite Forall_forall in Hall. apply Hall.
  apply list_elem_of_lookup. eauto. }
rewrite <- Hradius. auto.
Qed.
End CircleTuples.

(** ** What the reverse query reports *)

Lemma intersected_snoc (intersects : list Point -> list Point -> bool)
    (query : list Point) (processed : list Grid.Found) (feature : Grid.Found) (b f : Z) :
  intersected intersects query (processed ++ [feature]) b f
  <-> intersected intersects query processed b f
      \/ (bucketInstanceId (Grid.found_key feature) = b
          /\ featureIndex (Grid.found_key feature) = f
          /\ intersects query (featureBox feature) = true).
Proof.
  unfold intersected. split.
  - intros (x & Hin & H). apply in_app_or in Hin as [Hin | [<- | []]]; eauto.
  - intros [(x & Hin & H) | H].
    + exists x. split; [apply in_or_app; auto | exact H].
    + exists feature. split; [apply in_or_app; right; left; reflexivity | exact H].
Qed.

Lemma query_finds (g : Grid.t) (x1 y1 x2 y2 : R) (e : Grid.Entry) :
  In e (Grid.entries g) ->
  Grid.boxMeets x1 y1 x2 y2 (Grid.shape e) = true ->
  In (Grid.found e) (Grid.query g x1 y1 x2 y2).
Proof.
  intros Hin Hmeets. unfold Grid.query. apply in_map.
  apply list_elem_of_In, list_elem_of_filter. split.
  - rewrite Hmeets. exact I.
  - apply list_elem_of_In, Hin.
Qed.

Lemma insertCircleTuples_grows (key : Key) (collisionCircles : list R) (g : Grid.t) :
  exists added : list Grid.Entry,
    Grid.entries (insertCircleTuples key collisionCircles g) = Grid.entries g ++ added.
Proof. apply grid_insertCircleTuples_entries. Qed.

(** Calls only add entries, to either grid. *)
Lemma after_grows_both (c : Call) (this : CollisionIndex) :
  (exists added, Grid.entries (grid (after c this)) = Grid.entries (grid this) ++ added)
  /\ (exists added,
        Grid.entries (ignoredGrid (after c this))
        = Grid.entries (ignoredGrid this) ++ added).
Proof.
  split; [apply after_grows |].
  destruct c as [| | | cb ig b f g | cc ig b f g]; simpl;
    try (exists []; rewrite app_nil_r; reflexivity).
  - unfold insertCollisionBox. destruct ig; simpl.
    + eexists; reflexivity.
    + exists []; rewrite app_nil_r; reflexivity.
  - unfold insertCollisionCircles. destruct ig; simpl.
    + apply insertCircleTuples_grows.
    + exists []; rewrite app_nil_r; reflexivity.
Qed.

Lemma afterAll_grows_both (cs : list Call) (this : CollisionIndex) :
  (exists added,
     Grid.entries (grid (afterAll cs this)) = Grid.entries (grid this) ++ added)
  /\ (exists added,
        Grid.entries (ignoredGrid (afterAll cs this))
        = Grid.entries (ignoredGrid this) ++ added).
Proof.
  split; [apply afterAll_grows |].
  unfold afterAll. revert this. induction cs as [| c cs IH]; intros this; simpl.
  - exists []. rewrite app_nil_r. reflexivity.
  - destruct (IH (after c this)) as [added2 H2].
    destruct (proj2 (after_grows_both c this)) as [added1 H1].
    exists (added1 ++ added2). rewrite H2, H1, app_assoc. reflexivity.
Qed.

Section QueryReports.
Variable polygonIntersectsPolygon : list Point -> list Point -> bool.

Lemma queryFeature_reports (query : list Point) (processed : list Grid.Found)
  (acc : gmap Z (gmap Z bool) * gmap Z (list Z)) (feature : Grid.Found) :
queryReports polygonIntersectsPolygon query processed acc ->
queryReports polygonIntersectsPolygon query (processed ++ [feature])
  (queryFeature polygonIntersectsPolygon query acc feature).
Proof.
destruct acc as [seenFeatures result]. intros (Hseen & Hresult & Hnonempty).
cbn [fst snd] in *. unfold queryFeature. fold (featureBox feature).
set (b0 := bucketInstanceId (Grid.found_key feature)).
set (f0 := featureIndex (Grid.found_key feature)).
set (seen1 := match seenFeatures !! b0 with
              | None => <[b0 := ∅]> seenFeatures
              | Some _ => seenFeatures
              end).
assert (Hseen1 : forall b f, seenBefore seen1 b f = seenBefore seenFeatures b f)
  by (intros b f; apply seenBefore_init).
destruct (seenBefore seen1 b0 f0) eqn:Hold.
{ (* seen before: nothing is recorded *)
  split; [| split]; cbn [fst snd].
  - intros b f. rewrite Hseen1, intersected_snoc, Hseen. split; [auto |].
    intros [H | (Hb & Hf & _)]; [exact H |]. subst b f.
    apply Hseen. rewrite <- Hseen1. exact Hold.
  - intros b f. rewrite Hseen1. apply Hresult.
  - exact Hnonempty. }
destruct (polygonIntersectsPolygon query (featureBox feature)) eqn:Hmeets; cbn [negb].
2:{ (* no intersection: nothing is recorded *)
  split; [| split]; cbn [fst snd].
  - intros b f. rewrite Hseen1, intersected_snoc, Hseen. split; [auto |].
    intros [H | (_ & _ & H)]; [exact H | congruence].
  - intros b f. rewrite Hseen1. apply Hresult.
  - exact Hnonempty. }
(* a new feature of the result *)
set (result1 := match result !! b0 with
                | None => <[b0 := []]> result
                | Some _ => result
                end).
assert (Hold1 : forall f, In f (default [] (result1 !! b0))
                          <-> exists fs, result !! b0 = Some fs /\ In f fs).
{ intros f. subst result1. destruct (result !! b0) as [fs |] eqn:Hb.
  - rewrite Hb. simpl. split; [eauto |]. intros (fs' & [= <-] & H). exact H.
  - rewrite lookup_insert_eq. simpl. split; [tauto |]. intros (fs' & [=] & _). }
assert (Hother : forall b, b <> b0 -> result1 !! b = result !! b).
{ intros b Hb. subst result1. destruct (result !! b0); [reflexivity |].
  apply lookup_insert_ne. congruence. }
split; [| split]; cbn [fst snd].
- intros b f. rewrite seenBefore_mark, intersected_snoc, <- Hseen, <- Hseen1.
  destruct (decide (b0 = b /\ f0 = f)) as [[<- <-] | Hne].
  + split; [auto | reflexivity].
  + split; [auto |]. intros [H | (Hb & Hf & _)]; [exact H | tauto].
- intros b f. rewrite seenBefore_mark.
  destruct (decide (b0 = b)) as [<- | Hb].
  + rewrite lookup_insert_eq.
    destruct (decide (b0 = b0 /\ f0 = f)) as [[_ <-] | Hne].
    * split; [reflexivity |]. intros _. eexists. split; [reflexivity |].
      apply in_or_app. right. left. reflexivity.
    * rewrite Hseen1, <- Hresult, <- Hold1. split.
      -- intros (fs & [= <-] & Hin). apply in_app_or in Hin as [Hin | [-> | []]];
           [exact Hin | tauto].
      -- intros Hin. eexists. split; [reflexivity |]. apply in_or_app. auto.
  + rewrite lookup_insert_ne by exact Hb. rewrite Hother by congruence.
    rewrite decide_False by tauto. rewrite Hseen1. apply Hresult.
- intros b fs. destruct (decide (b0 = b)) as [<- | Hb].
  + rewrite lookup_insert_eq. intros [= <-]. destruct (default [] _); discriminate.
  + rewrite lookup_insert_ne by exact Hb. rewrite Hother by congruence.
    apply Hnonempty.
Qed.

Lemma queryFeatures_reports (query : list Point) (features processed : list Grid.Found)
  (acc : gmap Z (gmap Z bool) * gmap Z (list Z)) :
queryReports polygonIntersectsPolygon query processed acc ->
queryReports polygonIntersectsPolygon query (processed ++ features)
  (foldl (queryFeature polygonIntersectsPolygon query) acc features).
Proof.
revert processed acc. induction features as [| feature features IH];
  intros processed acc Hacc; simpl.
- rewrite app_nil_r. exact Hacc.
- replace (processed ++ feature :: features)
    with ((processed ++ [feature]) ++ features)
    by (rewrite <- app_assoc; reflexivity).
  apply IH, queryFeature_reports, Hacc.
Qed.

Lemma queryRenderedSymbols_iff (this : CollisionIndex)
  (viewportQueryGeometry : list Point) :
viewportQueryGeometry <> [] ->
(forall b f : Z,
   (exists fs : list Z,
      queryRenderedSymbols polygonIntersectsPolygon this viewportQueryGeometry !! b
        = Some fs /\ In f fs)
   <-> intersected polygonIntersectsPolygon (gridQuery viewportQueryGeometry)
         (queriedFeatures this viewportQueryGeometry) b f)
/\ (forall (b : Z) (fs : list Z),
      queryRenderedSymbols polygonIntersectsPolygon this viewportQueryGeometry !! b
        = Some fs -> fs <> []).
Proof.
intros Hgeometry. unfold queryRenderedSymbols.
destruct viewportQueryGeometry as [| point0 geometry]; [congruence |].
cbn [length Nat.eqb orb].
destruct ((Grid.keysLength (grid this) =? 0)%nat
          && (Grid.keysLength (ignoredGrid this) =? 0)%nat) eqn:Hkeys.
- apply andb_true_iff in Hkeys as [Hg Hi].
  apply Nat.eqb_eq in Hg, Hi. unfold Grid.keysLength in Hg, Hi.
  apply length_zero_iff_nil in Hg, Hi.
  assert (Hnone : queriedFeatures this (point0 :: geometry) = []).
  { unfold queriedFeatures, Grid.query. rewrite Hg, Hi. reflexivity. }
  split.
  + intros b f. rewrite Hnone, lookup_empty. split.
    * intros (fs & [=] & _).
    * intros (feature & [] & _).
  + intros b fs. rewrite lookup_empty. discriminate.
- pose proof (queryFeatures_reports (gridQuery (point0 :: geometry))
                (queriedFeatures this (point0 :: geometry)) [] (∅, ∅)) as Hreports.
  destruct Hreports as (Hseen & Hresult & Hnonempty).
  + split; [| split]; cbn [fst snd].
    * intros b f. unfold seenBefore. rewrite lookup_empty. split; [discriminate |].
      intros (feature & [] & _).
    * intros b f. unfold seenBefore. rewrite !lookup_empty. split; [| discriminate].
      intros (fs & [=] & _).
    * intros b fs. rewrite lookup_empty. discriminate.
  + split.
    * intros b f. rewrite <- Hseen. apply Hresult.
    * exact Hnonempty.
Qed.

(** X13.  For a query polygon with at least one point, the feature
  indices reported for a bucket are exactly those of the entries, among
  the ones the two grids return for the bounding box of the polygon,
  whose rectangle the polygon intersects; and no bucket is reported
  with an empty sequence. *)
Theorem queryRenderedSymbols_sound_complete (this : CollisionIndex)
  (viewportQueryGeometry : list Point) (b f : Z) :
viewportQueryGeometry <> [] ->
((exists fs : list Z,
    queryRenderedSymbols polygonIntersectsPolygon this viewportQueryGeometry !! b
      = Some fs /\ In f fs)
 <-> intersected polygonIntersectsPolygon (gridQuery viewportQueryGeometry)
       (queriedFeatures this viewportQueryGeometry) b f)
/\ queryRenderedSymbols polygonIntersectsPolygon this viewportQueryGeometry !! b
   <> Some [].
Proof.
intros Hgeometry.
destruct (queryRenderedSymbols_iff this viewportQueryGeometry Hgeometry)
  as [Hiff Hnonempty].
split; [apply Hiff |]. intros Hb. exact (Hnonempty b [] Hb eq_refl).
Qed.

(** X14.  What is inserted is found: after [insertCollisionBox], into
  either grid, and any further calls, a query whose polygon has a
  bounding box that meets the box and that intersects the rectangle of
  the box reports the feature index under its bucket. *)
Theorem inserted_box_is_found (this : CollisionIndex) (x1 y1 x2 y2 : R)
  (ignorePlacement : bool) (b f g : Z) (later : list Call)
  (viewportQueryGeometry : list Point) :
let this' :=
  afterAll later (insertCollisionBox [x1; y1; x2; y2] ignorePlacement b f g this) in
let query := gridQuery viewportQueryGeometry in
viewportQueryGeometry <> [] ->
Grid.boxMeets (minOf (map Point.x query)) (minOf (map Point.y query))
  (maxOf (map Point.x query)) (maxOf (map Point.y query)) (Grid.Box x1 y1 x2 y2)
  = true ->
polygonIntersectsPolygon query
  [Point.mk x1 y1; Point.mk x2 y1; Point.mk x2 y2; Point.mk x1 y2] = true ->
exists fs : list Z,
  queryRenderedSymbols polygonIntersectsPolygon this' viewportQueryGeometry !! b
    = Some fs
  /\ In f fs.
Proof.
intros this' query Hgeometry Hmeets Hintersects.
apply (proj1 (queryRenderedSymbols_iff this' viewportQueryGeometry Hgeometry)).
set (entry := Grid.mkEntry (mkKey b f g) (Grid.Box x1 y1 x2 y2)).
exists (Grid.found entry). split; [| split; [reflexivity | split; [reflexivity |]]].
- unfold queriedFeatures. fold query. apply in_or_app.
  destruct (afterAll_grows_both later
              (insertCollisionBox [x1; y1; x2; y2] ignorePlacement b f g this))
    as ([added1 Hgrid] & [added2 Hignored]).
  fold this' in Hgrid, Hignored.
  destruct ignorePlacement; [right | left]; apply query_finds; try exact Hmeets.
  + rewrite Hignored. unfold insertCollisionBox. simpl.
    apply in_or_app. left. apply in_or_app. right. left. reflexivity.
  + rewrite Hgrid. unfold insertCollisionBox. simpl.
    apply in_or_app. left. apply in_or_app. right. left. reflexivity.
- exact Hintersects.
Qed.
End QueryReports.

(** ** Where a point is projected *)

(** X15.  [projectPoint] maps the clip square onto the viewport inside
    the grid: when [x / w] and [y / w] of the transformed point lie in
    [-1, 1], the projected point lies between [viewportPadding] and
    [width + viewportPadding], [height + viewportPadding]; the y axis is
    flipped, so that [(-1, 1)] is the top left corner
    [(viewportPadding, viewportPadding)]; and
    [projectAndGetPerspectiveRatio] returns the same point. *)
Theorem projectPoint_in_viewport (this : CollisionIndex) (posMatrix : mat4) (x y : R) :
  let p := xyTransformMat4 (mkVec4 x y 0 1) (mkVec4 x y 0 1) posMatrix in
  let projected := projectPoint this posMatrix x y in
  let width := Transform.width (transform this) in
  let height := Transform.height (transform this) in
  v3 p <> 0 ->
  0 <= width -> 0 <= height ->
  -1 <= v0 p / v3 p <= 1 ->
  -1 <= v1 p / v3 p <= 1 ->
  viewportPadding <= Point.x projected <= width + viewportPadding
  /\ viewportPadding <= Point.y projected <= height + viewportPadding
  /\ (v0 p / v3 p = -1 -> Point.x projected = viewportPadding)
  /\ (v1 p / v3 p = 1 -> Point.y projected = viewportPadding)
  /\ ProjectedPoint.point (projectAndGetPerspectiveRatio this posMatrix x y) = projected.
Proof.
  intros p projected width height Hw Hwidth Hheight Hx Hy.
  subst projected. unfold projectPoint. fold p. cbn [Point.x Point.y].
  fold width height.
  replace (- v1 p / v3 p) with (- (v1 p / v3 p)) by (field; exact Hw).
  set (nx := v0 p / v3 p) in *. set (ny := v1 p / v3 p) in *.
  unfold viewportPadding.
  split; [split; nra |]. split; [split; nra |].
  split; [intros Hnx; rewrite Hnx; lra |].
  split; [intros Hny; rewrite Hny; lra |].
  unfold projectAndGetPerspectiveRatio. fold p. cbn [ProjectedPoint.point].
  fold width height.
  replace (- v1 p / v3 p) with (- (v1 p / v3 p)) by (field; exact Hw).
  reflexivity.
Qed.

Lemma projectPoint_in_viewport_witness :
  viewportPadding
    <= Point.x (projectPoint exampleIndex (scaleW 2) (-1) 1)
    <= 800 + viewportPadding.
Proof.
  refine (proj1 (projectPoint_in_viewport exampleIndex (scaleW 2) (-1) 1 _ _ _ _ _));
    simpl; lra.
Defined.

(** ** The index buffer of the quads *)

Lemma store_length (a : list Z) (i v : Z) : length (store a i v) = length a.
Proof. unfold store. destruct (0 <=? i)%Z; [apply length_insert | reflexivity]. Qed.

Lemma store_lookup_eq (a : list Z) (i v : Z) :
  (0 <= i)%Z -> (Z.to_nat i < length a)%nat -> store a i v !! Z.to_nat i = Some v.
Proof.
  intros Hi Hlen. unfold store. rewrite (proj2 (Z.leb_le 0 i) Hi).
  apply list_lookup_insert_eq, Hlen.
Qed.

Lemma store_lookup_ne (a : list Z) (i v : Z) (j : nat) :
  Z.of_nat j <> i -> store a i v !! j = a !! j.
Proof.
  intros Hne. unfold store. destruct (0 <=? i)%Z eqn:Hi; [| reflexivity].
  apply list_lookup_insert_ne. apply Z.leb_le in Hi. lia.
Qed.

Lemma writeQuadIndices_length (uint16 : list Z) (i : Z) :
  length (writeQuadIndices uint16 i) = length uint16.
Proof. unfold writeQuadIndices. rewrite !store_length. reflexivity. Qed.

Lemma writeQuadIndices_lookup_other (uint16 : list Z) (i : Z) (j : nat) :
  (Z.of_nat j < i * 6 \/ i * 6 + 6 <= Z.of_nat j)%Z ->
  writeQuadIndices uint16 i !! j = uint16 !! j.
Proof.
  intros Hj. unfold writeQuadIndices. rewrite !store_lookup_ne by lia. reflexivity.
Qed.

Lemma writeQuadIndices_lookup_quad (uint16 : list Z) (i k : Z) :
  (0 <= i)%Z -> (0 <= k < 6)%Z ->
  (Z.to_nat (i * 6 + k) < length uint16)%nat ->
  writeQuadIndices uint16 i !! Z.to_nat (i * 6 + k)
  = Some (ToUint16 (i * 4 + quadCorner k)).
Proof.
  intros Hi Hk Hlen. unfold writeQuadIndices.
  assert (Hcases : (k = 0 \/ k = 1 \/ k = 2 \/ k = 3 \/ k = 4 \/ k = 5)%Z) by lia.
  destruct Hcases as [-> | [-> | [-> | [-> | [-> | ->]]]]]; cbn [quadCorner];
    repeat first
      [ rewrite store_lookup_eq by (rewrite ?store_length; lia); reflexivity
      | rewrite store_lookup_ne by lia ].
Qed.

Lemma fillIndexBuffer_upto (n : nat) (uint16 : list Z) :
  let filled := foldl writeQuadIndices uint16 (map Z.of_nat (seq 0 n)) in
  length filled = length uint16
  /\ (forall i k : Z,
        (0 <= i < Z.of_nat n)%Z -> (0 <= k < 6)%Z ->
        (Z.to_nat (i * 6 + k) < length uint16)%nat ->
        filled !! Z.to_nat (i * 6 + k) = Some (ToUint16 (i * 4 + quadCorner k)))
  /\ (forall j : nat, (Z.of_nat n * 6 <= Z.of_nat j)%Z -> filled !! j = uint16 !! j).
Proof.
  induction n as [| n IH]; cbv zeta.
  - simpl. split; [reflexivity |]. split; [intros; lia | reflexivity].
  - rewrite seq_S, map_app, foldl_app. cbn [map foldl Nat.add].
    destruct IH as (Hlen & Hquads & Hrest).
    set (filled := foldl writeQuadIndices uint16 (map Z.of_nat (seq 0 n))) in *.
    split; [rewrite writeQuadIndices_length; exact Hlen |]. split.
    + intros i k Hi Hk Hin.
      destruct (Z.eq_dec i (Z.of_nat n)) as [-> | Hne].
      * apply writeQuadIndices_lookup_quad; [lia | exact Hk | rewrite Hlen; exact Hin].
      * rewrite writeQuadIndices_lookup_other by lia. apply Hquads; [lia | exact Hk | exact Hin].
    + intros j Hj. rewrite writeQuadIndices_lookup_other by lia. apply Hrest. lia.
Qed.

(** X16.  The index buffer after the loop: the six indices of each of
    the 4096 quads are the two triangles (0, 1, 2) and (2, 3, 0) of the
    four vertices of that quad; every index is below
    [maxVerticesPerBatch], so that none is changed by the conversion to
    16 bits; what lies beyond the [maxIndicesPerBatch] indices written is
    left as it was. *)
Theorem fillIndexBuffer_quads (uint16 : list Z) :
  length (fillIndexBuffer uint16) = length uint16
  /\ (forall i k : Z,
        (0 <= i < maxCirclesPerBatch)%Z -> (0 <= k < 6)%Z ->
        (Z.to_nat (i * 6 + k) < length uint16)%nat ->
        fillIndexBuffer uint16 !! Z.to_nat (i * 6 + k) = Some (i * 4 + quadCorner k)%Z
        /\ (i * 4 <= i * 4 + quadCorner k < i * 4 + 4)%Z
        /\ (i * 4 + quadCorner k < maxVerticesPerBatch)%Z)
  /\ (forall j : nat,
        (maxIndicesPerBatch <= Z.of_nat j)%Z ->
        fillIndexBuffer uint16 !! j = uint16 !! j).
Proof.
  unfold fillIndexBuffer.
  assert (Hn : Z.of_nat (Z.to_nat maxCirclesPerBatch) = maxCirclesPerBatch)
    by (apply Z2Nat.id; unfold maxCirclesPerBatch; lia).
  revert Hn. generalize (Z.to_nat maxCirclesPerBatch) as n. intros n Hn.
  destruct (fillIndexBuffer_upto n uint16) as (Hlen & Hquads & Hrest).
  set (filled := foldl writeQuadIndices uint16 (map Z.of_nat (seq 0 n))) in *.
  split; [exact Hlen |]. split.
  - intros i k Hi Hk Hin.
    assert (Hcorner : (0 <= quadCorner k < 4)%Z).
    { assert (Hcases : (k = 0 \/ k = 1 \/ k = 2 \/ k = 3 \/ k = 4 \/ k = 5)%Z) by lia.
      destruct Hcases as [-> | [-> | [-> | [-> | [-> | ->]]]]]; simpl; lia. }
    unfold maxVerticesPerBatch, maxCirclesPerBatch in *.
    rewrite Hquads by (try exact Hk; try exact Hin; lia).
    split; [| lia]. f_equal. unfold ToUint16. apply Z.mod_small. lia.
  - intros j Hj. apply Hrest. unfold maxIndicesPerBatch, maxCirclesPerBatch in *. lia.
Qed.

(** ** The vertices of the quads *)

Lemma appendVertex_length (int16 : list Z) (idx : Z) (x y z w : R) :
  length (appendVertex int16 idx x y z w) = length int16.
Proof. unfold appendVertex. rewrite !store_length. reflexivity. Qed.

Lemma appendVertex_lookup_other (int16 : list Z) (idx : Z) (x y z w : R) (j : nat) :
  (Z.of_nat j < idx * 4 \/ idx * 4 + 4 <= Z.of_nat j)%Z ->
  appendVertex int16 idx x y z w !! j = int16 !! j.
Proof.
  intros Hj. unfold appendVertex. rewrite !store_lookup_ne by lia. reflexivity.
Qed.

Lemma appendVertex_lookup (int16 : list Z) (idx : Z) (x y z w : R) (k : Z) :
  (0 <= idx)%Z -> (0 <= k < 4)%Z ->
  (Z.to_nat (idx * 4 + k) < length int16)%nat ->
  appendVertex int16 idx x y z w !! Z.to_nat (idx * 4 + k)
  = Some (match k with
          | 0 => ToInt16 x | 1 => ToInt16 y | 2 => ToInt16 z | _ => ToInt16 w
          end%Z).
Proof.
  intros Hidx Hk Hlen. unfold appendVertex.
  assert (Hcases : (k = 0 \/ k = 1 \/ k = 2 \/ k = 3)%Z) by lia.
  destruct Hcases as [-> | [-> | [-> | ->]]];
    repeat first
      [ rewrite store_lookup_eq by (rewrite ?store_length; lia); reflexivity
      | rewrite store_lookup_ne by lia ].
Qed.

Lemma appendQuads_step (fuel : nat) (arr : list R) (vIdx stop : Z) (int16 : list Z)
    (idx : Z) :
  (vIdx < stop)%Z ->
  appendQuads (S fuel) arr vIdx stop (int16, idx)
  = appendQuads fuel arr (vIdx + 4) stop (appendQuad arr vIdx int16 idx, (idx + 4)%Z).
Proof.
  intros Hlt. cbn [appendQuads]. rewrite (proj2 (Z.ltb_lt _ _) Hlt). reflexivity.
Qed.

Lemma appendQuads_done (fuel : nat) (arr : list R) (vIdx stop : Z) (st : list Z * Z) :
  (stop <= vIdx)%Z -> appendQuads fuel arr vIdx stop st = st.
Proof.
  intros Hge. destruct fuel; [reflexivity |]. cbn [appendQuads].
  rewrite (proj2 (Z.ltb_ge _ _) Hge). reflexivity.
Qed.

Lemma appendQuad_length (arr : list R) (vIdx : Z) (int16 : list Z) (idx : Z) :
  length (appendQuad arr vIdx int16 idx) = length int16.
Proof. unfold appendQuad. rewrite !appendVertex_length. reflexivity. Qed.

Lemma appendQuad_lookup_other (arr : list R) (vIdx : Z) (int16 : list Z) (idx : Z)
    (j : nat) :
  (Z.of_nat j < idx * 4 \/ (idx + 4) * 4 <= Z.of_nat j)%Z ->
  appendQuad arr vIdx int16 idx !! j = int16 !! j.
Proof.
  intros Hj. unfold appendQuad. rewrite !appendVertex_lookup_other by lia. reflexivity.
Qed.

Lemma appendQuad_lookup (arr : list R) (vIdx : Z) (int16 : list Z) (idx corner k : Z) :
  (0 <= idx)%Z -> (0 <= corner < 4)%Z -> (0 <= k < 4)%Z ->
  ((idx + 4) * 4 <= Z.of_nat (length int16))%Z ->
  appendQuad arr vIdx int16 idx !! Z.to_nat ((idx + corner) * 4 + k)
  = Some (cornerValue arr vIdx corner k).
Proof.
  intros Hidx Hcorner Hk Hlen. unfold appendQuad.
  assert (Hc : (corner = 0 \/ corner = 1 \/ corner = 2 \/ corner = 3)%Z) by lia.
  assert (Hcases : (k = 0 \/ k = 1 \/ k = 2 \/ k = 3)%Z) by lia.
  destruct Hc as [-> | [-> | [-> | ->]]];
    repeat first
      [ rewrite appendVertex_lookup
          by (rewrite ?appendVertex_length; lia);
        destruct Hcases as [-> | [-> | [-> | ->]]]; reflexivity
      | rewrite appendVertex_lookup_other by lia ].
Qed.

(** The loop over the circles of a batch: [n] circles from index [vIdx]
    of the array become the vertices [idx] to [idx + 4 n] of the batch. *)
Lemma appendQuads_spec (n fuel : nat) (arr : list R) (vIdx : Z) (int16 : list Z)
    (idx : Z) :
  (n <= fuel)%nat -> (0 <= idx)%Z ->
  ((idx + 4 * Z.of_nat n) * 4 <= Z.of_nat (length int16))%Z ->
  exists int16' : list Z,
    appendQuads fuel arr vIdx (vIdx + 4 * Z.of_nat n) (int16, idx)
    = (int16', (idx + 4 * Z.of_nat n)%Z)
    /\ length int16' = length int16
    /\ (forall j : nat, (Z.of_nat j < idx * 4)%Z -> int16' !! j = int16 !! j)
    /\ (forall m corner k : Z,
          (0 <= m < Z.of_nat n)%Z -> (0 <= corner < 4)%Z -> (0 <= k < 4)%Z ->
          int16' !! Z.to_nat ((idx + 4 * m + corner) * 4 + k)
          = Some (cornerValue arr (vIdx + 4 * m) corner k)).
Proof.
  revert fuel vIdx int16 idx. induction n as [| n IH];
    intros fuel vIdx int16 idx Hfuel Hidx Hlen.
  - exists int16. rewrite appendQuads_done by lia.
    split; [f_equal; f_equal; lia |]. split; [reflexivity |].
    split; [reflexivity | intros; lia].
  - destruct fuel as [| fuel]; [lia |].
    rewrite appendQuads_step by lia.
    destruct (IH fuel (vIdx + 4)%Z (appendQuad arr vIdx int16 idx) (idx + 4)%Z)
      as (int16' & Hrun & Hlength & Hbelow & Hquads);
      [lia | lia | rewrite appendQuad_length; lia |].
    exists int16'.
    replace (vIdx + 4 * Z.of_nat (S n))%Z with (vIdx + 4 + 4 * Z.of_nat n)%Z by lia.
    rewrite Hrun. split; [f_equal; lia |].
    split; [rewrite Hlength; apply appendQuad_length |]. split.
    + intros j Hj. rewrite Hbelow by lia. apply appendQuad_lookup_other. lia.
    + intros m corner k Hm Hcorner Hk.
      destruct (Z.eq_dec m 0%Z) as [-> | Hne].
      * rewrite Hbelow by lia.
        replace (idx + 4 * 0 + corner)%Z with (idx + corner)%Z by lia.
        replace (vIdx + 4 * 0)%Z with vIdx by lia.
        apply appendQuad_lookup; lia.
      * replace (idx + 4 * m + corner)%Z with (idx + 4 + 4 * (m - 1) + corner)%Z by lia.
        replace (vIdx + 4 * m)%Z with (vIdx + 4 + 4 * (m - 1))%Z by lia.
        apply Hquads; lia.
Qed.

(** ** The batches of a tile *)

Lemma maxVerticesPerBatch_eq : maxVerticesPerBatch = 16384%Z.
Proof. reflexivity. Qed.

Lemma batchLoop_spec (arr : list R) (fuel : nat) (o : Z) (int16 : list Z)
    (ds : list Draw) :
  (0 <= o <= Z.of_nat (length arr))%Z ->
  ((Z.of_nat (length arr) - o) mod 4 = 0)%Z ->
  (4 * maxVerticesPerBatch <= Z.of_nat (length int16))%Z ->
  (Z.to_nat (Z.of_nat (length arr) - o) + 2 <= fuel)%nat ->
  exists (st : BatchState) (new : list Draw),
    batchLoop fuel arr (mkBatchState int16 0 o ds) = Some st
    /\ draws st ++ leftover st = ds ++ new
    /\ length (batchVertices st) = length int16
    /\ batchesFrom arr o new.
Proof.
  revert o int16 ds. induction fuel as [| fuel IH]; intros o int16 ds Ho Hmod Hsize Hfuel;
    [lia |].
  pose proof maxVerticesPerBatch_eq as Hmax.
  cbn [batchLoop vertexOffset batchVertexIdx batchVertices draws].
  destruct (o <? Z.of_nat (length arr))%Z eqn:Hmore.
  2:{ (* nothing is left *)
    apply Z.ltb_ge in Hmore. assert (o = Z.of_nat (length arr)) as -> by lia.
    exists (mkBatchState int16 0 (Z.of_nat (length arr)) ds), [].
    split; [reflexivity |]. split; [reflexivity |]. split; [reflexivity |].
    unfold batchesFrom. rewrite Z.sub_diag. cbn. split; [reflexivity |].
    split; [intros d [] | intros j d Hd; destruct j; discriminate]. }
  apply Z.ltb_lt in Hmore.
  set (left := (Z.of_nat (length arr) - o)%Z) in *.
  set (batchSize := Z.min left (maxVerticesPerBatch - 0)).
  assert (Hleft : (4 <= left)%Z).
  { assert (0 < left)%Z by (unfold left; lia).
    pose proof (Z.div_mod left 4 ltac:(lia)) as Hdm. rewrite Hmod in Hdm. lia. }
  assert (Hsize4 : (batchSize = 4 * (batchSize / 4))%Z).
  { unfold batchSize. rewrite Z.sub_0_r.
    destruct (Z.min_spec left maxVerticesPerBatch) as [[_ ->] | [_ ->]].
    - pose proof (Z.div_mod left 4 ltac:(lia)) as Hdm. rewrite Hmod in Hdm. lia.
    - rewrite Hmax. reflexivity. }
  assert (Hbounds : (4 <= batchSize <= maxVerticesPerBatch)%Z)
    by (unfold batchSize; lia).
  destruct (appendQuads_spec (Z.to_nat (batchSize / 4)) (Z.to_nat batchSize) arr o
              int16 0)
    as (int16' & Hrun & Hlength & _ & Hquads); [lia | lia | lia |].
  replace (o + 4 * Z.of_nat (Z.to_nat (batchSize / 4)))%Z with (o + batchSize)%Z
    in Hrun by lia.
  replace (0 + 4 * Z.of_nat (Z.to_nat (batchSize / 4)))%Z with batchSize in Hrun by lia.
  rewrite Hrun. cbn [batchVertexIdx batchVertices vertexOffset draws].
  assert (Hdata : forall m corner k : Z,
            (0 <= 4 * m < batchSize)%Z -> (0 <= corner < 4)%Z -> (0 <= k < 4)%Z ->
            int16' !! Z.to_nat ((4 * m + corner) * 4 + k)
            = Some (cornerValue arr (o + 4 * m) corner k)).
  { intros m corner k Hm Hcorner Hk.
    replace (4 * m + corner)%Z with (0 + 4 * m + corner)%Z by lia.
    apply Hquads; lia. }
  destruct (batchSize =? maxVerticesPerBatch)%Z eqn:Hfull.
  - (* a full batch is drawn and the loop goes on *)
    apply Z.eqb_eq in Hfull.
    assert (Hge : (maxVerticesPerBatch <= left)%Z) by (unfold batchSize in Hfull; lia).
    destruct (IH (o + batchSize)%Z int16'
                (ds ++ [drawBatch (mkBatchState int16' batchSize (o + batchSize) ds)]))
      as (st & new & Hloop & Hdraws & Hlen & Hlengths & Hprims & Hvertices).
    { unfold left in *. lia. }
    { replace (Z.of_nat (length arr) - (o + batchSize))%Z
        with (left + (-4096) * 4)%Z by (unfold left; lia).
      rewrite Z.mod_add by lia. exact Hmod. }
    { lia. }
    { unfold left in *. lia. }
    exists st, (drawBatch (mkBatchState int16' batchSize (o + batchSize) ds) :: new).
    split; [exact Hloop |]. split; [rewrite Hdraws, <- app_assoc; reflexivity |].
    split; [lia |].
    replace (Z.of_nat (length arr) - (o + batchSize))%Z
      with (left - maxVerticesPerBatch)%Z in Hlengths by (unfold left; lia).
    assert (Hdiv : (left / maxVerticesPerBatch
                    = (left - maxVerticesPerBatch) / maxVerticesPerBatch + 1)%Z).
    { replace left with (left - maxVerticesPerBatch + 1 * maxVerticesPerBatch)%Z
        at 1 by lia.
      apply Z.div_add. lia. }
    assert (Hrem : (left mod maxVerticesPerBatch
                    = (left - maxVerticesPerBatch) mod maxVerticesPerBatch)%Z).
    { replace left with (left - maxVerticesPerBatch + 1 * maxVerticesPerBatch)%Z
        at 1 by lia.
      apply Z.mod_add. lia. }
    unfold batchesFrom. fold left. split; [| split].
    + rewrite Hdiv, Hrem. cbn [map]. rewrite Hlengths.
      assert (Hq : (0 <= (left - maxVerticesPerBatch) / maxVerticesPerBatch)%Z)
        by (apply Z.div_pos; lia).
      rewrite Z2Nat.inj_add by lia. rewrite Nat.add_comm. cbn [Z.to_nat Pos.to_nat
        Pos.iter_op Nat.add replicate]. cbn [drawBatch vertexLength batchVertexIdx app].
      rewrite Hfull. reflexivity.
    + intros d [<- | Hd]; [| apply Hprims, Hd].
      cbn [drawBatch primitiveLength vertexLength batchVertexIdx].
      rewrite Hfull, Hmax. reflexivity.
    + intros j d Hd m corner k Hm Hcorner Hk. destruct j as [| j].
      * injection Hd as <-. cbn [drawBatch vertexData vertexLength batchVertexIdx
          batchVertices] in *.
        replace (o + Z.of_nat 0 * maxVerticesPerBatch + 4 * m)%Z with (o + 4 * m)%Z by lia.
        apply Hdata; lia.
      * cbn [lookup list_lookup] in Hd.
        replace (o + Z.of_nat (S j) * maxVerticesPerBatch + 4 * m)%Z
          with (o + batchSize + Z.of_nat j * maxVerticesPerBatch + 4 * m)%Z by lia.
        apply (Hvertices j d Hd); assumption.
  - (* the rest of the array: the loop ends, the batch is left over *)
    apply Z.eqb_neq in Hfull.
    assert (Hlt : (left < maxVerticesPerBatch)%Z) by (unfold batchSize in *; lia).
    assert (Hbatch : batchSize = left) by (unfold batchSize; lia).
    destruct fuel as [| fuel]; [unfold left in *; lia |].
    cbn [batchLoop vertexOffset].
    replace (o + batchSize <? Z.of_nat (length arr))%Z with false
      by (symmetry; apply Z.ltb_ge; unfold left in *; lia).
    set (st := mkBatchState int16' batchSize (o + batchSize) ds).
    exists st, [drawBatch st].
    split; [reflexivity |]. split.
    { unfold leftover.
      replace (batchVertexIdx st =? 0)%Z with false
        by (symmetry; apply Z.eqb_neq; cbn; lia).
      reflexivity. }
    split; [exact Hlength |].
    unfold batchesFrom. fold left. split; [| split].
    + rewrite Z.div_small, Z.mod_small by lia.
      replace (left =? 0)%Z with false by (symmetry; apply Z.eqb_neq; lia).
      cbn. rewrite Hbatch. reflexivity.
    + intros d [<- | []]. cbn [drawBatch primitiveLength vertexLength batchVertexIdx st].
      rewrite Hsize4.
      replace (4 * (batchSize / 4))%Z with (2 * (batchSize / 4) * 2)%Z by lia.
      rewrite Z.div_mul by lia. reflexivity.
    + intros j d Hd m corner k Hm Hcorner Hk. destruct j as [| j]; [| destruct j; discriminate].
      injection Hd as <-. cbn [drawBatch vertexData vertexLength batchVertexIdx
        batchVertices st] in *.
      replace (o + Z.of_nat 0 * maxVerticesPerBatch + 4 * m)%Z with (o + 4 * m)%Z by lia.
      apply Hdata; lia.
Qed.

Lemma lookup_map_Some {A B : Type} (f : A -> B) (l : list A) (j : nat) (v : B) :
  map f l !! j = Some v -> exists d : A, l !! j = Some d /\ f d = v.
Proof.
  revert j. induction l as [| a l IH]; intros j Hj; [destruct j; discriminate |].
  destruct j as [| j].
  - injection Hj as <-. exists a. split; reflexivity.
  - apply IH, Hj.
Qed.

Lemma drawTileCircles_spec (fuel : nat) (arr : list R) (int16 : list Z) :
  (Z.of_nat (length arr) mod 4 = 0)%Z ->
  (4 * maxVerticesPerBatch <= Z.of_nat (length int16))%Z ->
  (length arr + 2 <= fuel)%nat ->
  exists (int16' : list Z) (ds : list Draw),
    drawTileCircles fuel arr int16 = Some (int16', ds)
    /\ length int16' = length int16
    /\ batchesFrom arr 0 ds.
Proof.
  intros Hmod Hsize Hfuel. unfold drawTileCircles.
  destruct (length arr =? 0)%nat eqn:Hempty.
  - apply Nat.eqb_eq in Hempty. exists int16, [].
    split; [reflexivity |]. split; [reflexivity |].
    unfold batchesFrom. rewrite Hempty. cbn. split; [reflexivity |].
    split; [intros d [] | intros j d Hd; destruct j; discriminate].
  - destruct (batchLoop_spec arr fuel 0 int16 [])
      as (st & new & Hloop & Hdraws & Hlength & Hnew);
      [lia | rewrite Z.sub_0_r; exact Hmod | exact Hsize | lia |].
    rewrite Hloop. unfold leftover in Hdraws. cbn [app] in Hdraws.
    destruct (batchVertexIdx st =? 0)%Z.
    + exists (batchVertices st), (draws st).
      rewrite app_nil_r in Hdraws. rewrite Hdraws.
      split; [reflexivity |]. split; [exact Hlength | exact Hnew].
    + exists (batchVertices st), (draws st ++ [drawBatch st]).
      rewrite Hdraws.
      split; [reflexivity |]. split; [exact Hlength | exact Hnew].
Qed.

(** X17.  The circles of a tile are drawn in batches: as many full
    batches of [maxVerticesPerBatch] vertices as the array holds, then
    one draw of what is left if anything is; the loop ends, and every
    draw is given half as many primitives as vertices: two triangles for
    the four vertices of a circle. *)
Theorem drawTileCircles_batches (fuel : nat) (arr : list R) (int16 : list Z) :
  (Z.of_nat (length arr) mod 4 = 0)%Z ->
  (4 * maxVerticesPerBatch <= Z.of_nat (length int16))%Z ->
  (length arr + 2 <= fuel)%nat ->
  exists (int16' : list Z) (ds : list Draw),
    drawTileCircles fuel arr int16 = Some (int16', ds)
    /\ length int16' = length int16
    /\ map vertexLength ds
       = replicate (Z.to_nat (Z.of_nat (length arr) / maxVerticesPerBatch))
           maxVerticesPerBatch
         ++ (if (Z.of_nat (length arr) mod maxVerticesPerBatch =? 0)%Z then []
             else [(Z.of_nat (length arr) mod maxVerticesPerBatch)%Z])
    /\ (forall d : Draw, In d ds -> (primitiveLength d * 2 = vertexLength d)%Z).
Proof.
  intros Hmod Hsize Hfuel.
  destruct (drawTileCircles_spec fuel arr int16 Hmod Hsize Hfuel)
    as (int16' & ds & Hrun & Hlength & Hlengths & Hprims & _).
  exists int16', ds. rewrite Z.sub_0_r in Hlengths.
  split; [exact Hrun |]. split; [exact Hlength |].
  split; [exact Hlengths | exact Hprims].
Qed.

Lemma drawTileCircles_batches_witness :
  exists (int16' : list Z) (ds : list Draw),
    drawTileCircles 10 [5; 6; 3; 0; 40; 50; 7; 0] (replicate (Z.to_nat 65536) 0%Z)
    = Some (int16', ds)
    /\ length int16' = length (replicate (Z.to_nat 65536) 0%Z)
    /\ map vertexLength ds
       = replicate (Z.to_nat (Z.of_nat (length [5; 6; 3; 0; 40; 50; 7; 0])
                              / maxVerticesPerBatch))
           maxVerticesPerBatch
         ++ (if (Z.of_nat (length [5; 6; 3; 0; 40; 50; 7; 0])
                 mod maxVerticesPerBatch =? 0)%Z then []
             else [(Z.of_nat (length [5; 6; 3; 0; 40; 50; 7; 0])
                    mod maxVerticesPerBatch)%Z])
    /\ (forall d : Draw, In d ds -> (primitiveLength d * 2 = vertexLength d)%Z).
Proof.
  apply (drawTileCircles_batches 10 [5; 6; 3; 0; 40; 50; 7; 0] (replicate (Z.to_nat 65536) 0%Z)).
  - reflexivity.
  - rewrite length_replicate. vm_compute. discriminate.
  - simpl. lia.
Defined.

(** X18.  Every circle of the tile is drawn, in the batch and at the
    place its index gives: the circle whose tuple starts at index [4 * i]
    of the array has its four corners at the vertices
    [4 * i mod maxVerticesPerBatch + corner] of the draw number
    [4 * i / maxVerticesPerBatch], within the vertices this draw is given;
    each corner carries the centre and the radius with the signs of the
    corner, converted to 16-bit integers. *)
Theorem every_circle_is_drawn (fuel : nat) (arr : list R) (int16 : list Z) (i : Z) :
  (Z.of_nat (length arr) mod 4 = 0)%Z ->
  (4 * maxVerticesPerBatch <= Z.of_nat (length int16))%Z ->
  (length arr + 2 <= fuel)%nat ->
  (0 <= 4 * i < Z.of_nat (length arr))%Z ->
  exists (int16' : list Z) (ds : list Draw) (d : Draw),
    drawTileCircles fuel arr int16 = Some (int16', ds)
    /\ ds !! Z.to_nat (4 * i / maxVerticesPerBatch) = Some d
    /\ (4 * i mod maxVerticesPerBatch + 4 <= vertexLength d)%Z
    /\ (forall corner k : Z, (0 <= corner < 4)%Z -> (0 <= k < 4)%Z ->
          vertexData d !! Z.to_nat ((4 * i mod maxVerticesPerBatch + corner) * 4 + k)
          = Some (cornerValue arr (4 * i) corner k)).
Proof.
  intros Hmod Hsize Hfuel Hi.
  destruct (drawTileCircles_spec fuel arr int16 Hmod Hsize Hfuel)
    as (int16' & ds & Hrun & _ & Hlengths & _ & Hvertices).
  rewrite Z.sub_0_r in Hlengths.
  pose proof maxVerticesPerBatch_eq as Hmax.
  set (len := Z.of_nat (length arr)) in *.
  set (j := (4 * i / maxVerticesPerBatch)%Z).
  assert (Hj : (0 <= j)%Z) by (apply Z.div_pos; lia).
  assert (Hsplit : (4 * i = maxVerticesPerBatch * j + 4 * i mod maxVerticesPerBatch)%Z)
    by (apply Z.div_mod; lia).
  assert (Hrem : (0 <= 4 * i mod maxVerticesPerBatch < maxVerticesPerBatch)%Z)
    by (apply Z.mod_pos_bound; lia).
  assert (Hrem4 : (4 * i mod maxVerticesPerBatch = 4 * (i mod 4096))%Z).
  { rewrite Hmax. change 16384%Z with (4 * 4096)%Z.
    apply Z.mul_mod_distr_l; lia. }
  assert (Hlen : (len = maxVerticesPerBatch * (len / maxVerticesPerBatch)
                        + len mod maxVerticesPerBatch)%Z)
    by (apply Z.div_mod; lia).
  assert (Hlenrem : (0 <= len mod maxVerticesPerBatch < maxVerticesPerBatch)%Z)
    by (apply Z.mod_pos_bound; lia).
  assert (Hlenrem4 : (len mod maxVerticesPerBatch = 4 * ((len / 4) mod 4096))%Z).
  { pose proof (Z.div_mod len 4 ltac:(lia)) as Hdm. rewrite Hmod, Z.add_0_r in Hdm.
    rewrite Hdm at 1. rewrite Hmax. change 16384%Z with (4 * 4096)%Z.
    apply Z.mul_mod_distr_l; lia. }
  assert (Hq : (0 <= len / maxVerticesPerBatch)%Z) by (apply Z.div_pos; lia).
  assert (Hjq : (j <= len / maxVerticesPerBatch)%Z)
    by (apply Z.div_le_mono; lia).
  assert (Hfound : exists d : Draw,
            ds !! Z.to_nat j = Some d
            /\ (4 * i mod maxVerticesPerBatch + 4 <= vertexLength d)%Z).
  { destruct (Z.eq_dec j (len / maxVerticesPerBatch)%Z) as [Hlast | Hfull].
    - (* the circle is in what is left over *)
      assert (Hin : (4 * i mod maxVerticesPerBatch < len mod maxVerticesPerBatch)%Z)
        by (rewrite Hlast in Hsplit; lia).
      destruct (lookup_map_Some vertexLength ds (Z.to_nat j)
                  (len mod maxVerticesPerBatch)%Z) as (d & Hd & Hvd).
      { rewrite Hlengths, Hlast.
        rewrite lookup_app_r by (rewrite length_replicate; lia).
        rewrite length_replicate, Nat.sub_diag.
        replace (len mod maxVerticesPerBatch =? 0)%Z with false
          by (symmetry; apply Z.eqb_neq; lia).
        reflexivity. }
      exists d. split; [exact Hd |]. rewrite Hvd. lia.
    - (* the circle is in a full batch *)
      destruct (lookup_map_Some vertexLength ds (Z.to_nat j) maxVerticesPerBatch)
        as (d & Hd & Hvd).
      { rewrite Hlengths.
        rewrite lookup_app_l by (rewrite length_replicate; lia).
        apply lookup_replicate. split; [reflexivity | lia]. }
      exists d. split; [exact Hd |]. rewrite Hvd. lia. }
  destruct Hfound as (d & Hd & Hwithin).
  exists int16', ds, d. split; [exact Hrun |]. split; [exact Hd |].
  split; [exact Hwithin |].
  intros corner k Hcorner Hk.
  pose proof (Hvertices (Z.to_nat j) d Hd (i mod 4096)%Z corner k) as Hdata.
  rewrite <- Hrem4 in Hdata. rewrite Z2Nat.id in Hdata by lia.
  replace (0 + j * maxVerticesPerBatch + 4 * i mod maxVerticesPerBatch)%Z
    with (4 * i)%Z in Hdata by lia.
  apply Hdata; lia.
Qed.

Lemma every_circle_is_drawn_witness :
  exists (int16' : list Z) (ds : list Draw) (d : Draw),
    drawTileCircles 10 [5; 6; 3; 0; 40; 50; 7; 0] (replicate (Z.to_nat 65536) 0%Z)
    = Some (int16', ds)
    /\ ds !! Z.to_nat (4 * 1 / maxVerticesPerBatch) = Some d
    /\ (4 * 1 mod maxVerticesPerBatch + 4 <= vertexLength d)%Z
    /\ (forall corner k : Z, (0 <= corner < 4)%Z -> (0 <= k < 4)%Z ->
          vertexData d !! Z.to_nat ((4 * 1 mod maxVerticesPerBatch + corner) * 4 + k)
          = Some (cornerValue [5; 6; 3; 0; 40; 50; 7; 0] (4 * 1) corner k)).
Proof.
  apply (every_circle_is_drawn 10 [5; 6; 3; 0; 40; 50; 7; 0] (replicate (Z.to_nat 65536) 0%Z) 1).
  - reflexivity.
  - rewrite length_replicate. vm_compute. discriminate.
  - simpl. lia.
  - simpl. lia.
Defined.

(** ** The vertex shader of the debug circles *)

Lemma mix_crossing (s0 s2 s3 e0 e2 e3 : R) :
  s3 <> 0 -> e3 <> 0 -> e2 / e3 <> s2 / s3 ->
  e2 * s3 - s2 * e3 <> 0
  /\ mix (s0 / s3) (e0 / e3) ((0 - s2 / s3) / (e2 / e3 - s2 / s3))
     = (s0 * e2 - e0 * s2) / (e2 * s3 - s2 * e3).
Proof.
  intros Hs He Hz.
  assert (Hd : e2 * s3 - s2 * e3 <> 0).
  { intros Hd. apply Hz. apply (Rmult_eq_reg_r (e3 * s3)).
    - replace (e2 / e3 * (e3 * s3)) with (e2 * s3) by (field; exact He).
      replace (s2 / s3 * (e3 * s3)) with (s2 * e3) by (field; exact Hs).
      lra.
    - apply Rmult_integral_contrapositive_currified; assumption. }
  split; [exact Hd |].
  assert (Hz' : e2 / e3 - s2 / s3 <> 0) by lra.
  unfold mix. field. repeat split; assumption.
Qed.

Lemma mix_line (s0 s2 s3 e0 e2 e3 alpha beta v w : R) :
  s3 <> 0 -> e3 <> 0 -> e2 / e3 <> s2 / s3 -> w <> 0 ->
  alpha * s0 + beta * e0 = v ->
  alpha * s2 + beta * e2 = 0 ->
  alpha * s3 + beta * e3 = w ->
  mix (s0 / s3) (e0 / e3) ((0 - s2 / s3) / (e2 / e3 - s2 / s3)) = v / w.
Proof.
  intros Hs He Hz Hw Hv H0 Hw'.
  destruct (mix_crossing s0 s2 s3 e0 e2 e3 Hs He Hz) as [Hd ->].
  assert (Hcross : (s0 * e2 - e0 * s2) * w - v * (e2 * s3 - s2 * e3)
                   = (alpha * s2 + beta * e2) * (s0 * e3 - e0 * s3))
    by (rewrite <- Hv, <- Hw'; ring).
  rewrite H0, Rmult_0_l in Hcross.
  replace (s0 * e2 - e0 * s2) with (v * (e2 * s3 - s2 * e3) / w).
  - field. split; assumption.
  - replace (v * (e2 * s3 - s2 * e3)) with ((s0 * e2 - e0 * s2) * w) by lra.
    field. exact Hw.
Qed.

(** X19.  The shader puts the vertex on the plane of the tile: where the
    ray under the screen position of the circle, from the near to the far
    plane and taken back by [u_toWorld], meets [z = 0].  The divisions
    are by numbers other than zero. *)
Theorem tilePos_on_tile_plane (u_matrix u_toWorld : mat4) (a_pos : vec2) :
  v3 (screenClipPos u_matrix a_pos) <> 0 ->
  v3 (ray u_matrix u_toWorld a_pos (-1)) <> 0 ->
  v3 (ray u_matrix u_toWorld a_pos 1) <> 0 ->
  v2 (ray u_matrix u_toWorld a_pos 1) <> v2 (ray u_matrix u_toWorld a_pos (-1)) ->
  vec3_z (tilePos u_matrix u_toWorld a_pos) = 0.
Proof.
  intros _ _ _ Hz. unfold tilePos. cbn [vec3_z]. unfold mix.
  set (s := v2 (ray u_matrix u_toWorld a_pos (-1))) in *.
  set (e := v2 (ray u_matrix u_toWorld a_pos 1)) in *.
  field. lra.
Qed.

Lemma tilePos_on_tile_plane_witness :
  vec3_z (tilePos (mkMat4 1 0 0 0  0 1 0 0  0 0 1 0  0 0 0 1)
            (mkMat4 2 0 0 0  0 2 0 0  0 0 2 0  0 0 3 1) (mkVec2 130 140)) = 0.
Proof.
  apply tilePos_on_tile_plane; cbn; lra.
Defined.

Lemma mulMat4Vec4_scaled (m : mat4) (x y : R) :
  v3 (tileClipPos m x y) <> 0 ->
  mulMat4Vec4 m (mkVec4 (x / v3 (tileClipPos m x y)) (y / v3 (tileClipPos m x y)) 0
                   (1 / v3 (tileClipPos m x y)))
  = mkVec4 (v0 (tileClipPos m x y) / v3 (tileClipPos m x y))
           (v1 (tileClipPos m x y) / v3 (tileClipPos m x y))
           (v2 (tileClipPos m x y) / v3 (tileClipPos m x y)) 1.
Proof.
  intros Hw. unfold tileClipPos, mulMat4Vec4 in *. cbn [v0 v1 v2 v3] in *.
  f_equal; field; lra.
Qed.

Lemma tilePos_reprojects (u_matrix u_toWorld posMatrix : mat4) (a_pos : vec2) (x y : R) :
  (forall v : vec4, mulMat4Vec4 u_toWorld (mulMat4Vec4 posMatrix v) = v) ->
  v3 (tileClipPos posMatrix x y) <> 0 ->
  v0 (screenClipPos u_matrix a_pos) / v3 (screenClipPos u_matrix a_pos)
  = v0 (tileClipPos posMatrix x y) / v3 (tileClipPos posMatrix x y) ->
  v1 (screenClipPos u_matrix a_pos) / v3 (screenClipPos u_matrix a_pos)
  = v1 (tileClipPos posMatrix x y) / v3 (tileClipPos posMatrix x y) ->
  v3 (ray u_matrix u_toWorld a_pos (-1)) <> 0 ->
  v3 (ray u_matrix u_toWorld a_pos 1) <> 0 ->
  v2 (ray u_matrix u_toWorld a_pos 1) <> v2 (ray u_matrix u_toWorld a_pos (-1)) ->
  tilePos u_matrix u_toWorld a_pos = mkVec3 x y 0.
Proof.
  intros Hinverse Hw Hx Hy Hstart Hend Hz.
  pose proof (Hinverse (mkVec4 (x / v3 (tileClipPos posMatrix x y))
                          (y / v3 (tileClipPos posMatrix x y)) 0
                          (1 / v3 (tileClipPos posMatrix x y)))) as Hback.
  rewrite (mulMat4Vec4_scaled posMatrix x y Hw), <- Hx, <- Hy in Hback.
  unfold tilePos, ray in *. cbn [v0 v1 v2 v3] in *.
  set (a := v0 (screenClipPos u_matrix a_pos) / v3 (screenClipPos u_matrix a_pos)) in *.
  set (b := v1 (screenClipPos u_matrix a_pos) / v3 (screenClipPos u_matrix a_pos)) in *.
  set (w := v3 (tileClipPos posMatrix x y)) in *.
  set (g := v2 (tileClipPos posMatrix x y) / w) in *.
  assert (Hinvw : 1 / w <> 0).
  { unfold Rdiv. rewrite Rmult_1_l. apply Rinv_neq_0_compat, Hw. }
  pose proof (f_equal v0 Hback) as H0. pose proof (f_equal v1 Hback) as H1.
  pose proof (f_equal v2 Hback) as H2. pose proof (f_equal v3 Hback) as H3.
  unfold mulMat4Vec4 in *. cbn [v0 v1 v2 v3] in *.
  f_equal.
  - replace x with (x / w / (1 / w)) by (field; exact Hw).
    apply (mix_line _ _ _ _ _ _ ((1 - g) / 2) ((1 + g) / 2)); try assumption;
      [rewrite <- H0 | rewrite <- H2 | rewrite <- H3]; field.
  - replace y with (y / w / (1 / w)) by (field; exact Hw).
    apply (mix_line _ _ _ _ _ _ ((1 - g) / 2) ((1 + g) / 2)); try assumption;
      [rewrite <- H1 | rewrite <- H2 | rewrite <- H3]; field.
  - transitivity (0 / (1 / w)); [| field; exact Hw].
    apply (mix_line _ _ _ _ _ _ ((1 - g) / 2) ((1 + g) / 2)); try assumption;
      [rewrite <- H2 | rewrite <- H2 | rewrite <- H3]; field.
Qed.

(** X20.  The shader takes a circle back to where it is on the tile.
    When the screen position of the circle is where [posMatrix] showed the
    point [(x, y)] of the plane of the tile, and [u_toWorld] undoes
    [posMatrix], the vertex is drawn where [u_fromWorld] shows this
    point, moved by the corner offset [a_reserved] in pixels: the circle
    follows the tile when the camera moves. *)
Theorem main_reprojects (a_pos a_reserved : vec2)
    (u_matrix u_toWorld u_fromWorld posMatrix : mat4) (u_viewport_size : vec2)
    (x y : R) :
  (forall v : vec4, mulMat4Vec4 u_toWorld (mulMat4Vec4 posMatrix v) = v) ->
  v3 (tileClipPos posMatrix x y) <> 0 ->
  v3 (screenClipPos u_matrix a_pos) <> 0 ->
  v0 (screenClipPos u_matrix a_pos) / v3 (screenClipPos u_matrix a_pos)
  = v0 (tileClipPos posMatrix x y) / v3 (tileClipPos posMatrix x y) ->
  v1 (screenClipPos u_matrix a_pos) / v3 (screenClipPos u_matrix a_pos)
  = v1 (tileClipPos posMatrix x y) / v3 (tileClipPos posMatrix x y) ->
  v3 (ray u_matrix u_toWorld a_pos (-1)) <> 0 ->
  v3 (ray u_matrix u_toWorld a_pos 1) <> 0 ->
  v2 (ray u_matrix u_toWorld a_pos 1) <> v2 (ray u_matrix u_toWorld a_pos (-1)) ->
  v3 (tileClipPos u_fromWorld x y) <> 0 ->
  vec2_x u_viewport_size <> 0 -> vec2_y u_viewport_size <> 0 ->
  main a_pos a_reserved u_matrix u_toWorld u_fromWorld u_viewport_size
  = mkVec4 (v0 (tileClipPos u_fromWorld x y) / v3 (tileClipPos u_fromWorld x y)
            + vec2_x a_reserved / vec2_x u_viewport_size * 2)
           (v1 (tileClipPos u_fromWorld x y) / v3 (tileClipPos u_fromWorld x y)
            + vec2_y a_reserved / vec2_y u_viewport_size * 2)
           (v2 (tileClipPos u_fromWorld x y) / v3 (tileClipPos u_fromWorld x y))
           1.
Proof.
  intros Hinverse Hw _ Hx Hy Hstart Hend Hz _ _ _.
  unfold main.
  rewrite (tilePos_reprojects u_matrix u_toWorld posMatrix a_pos x y
             Hinverse Hw Hx Hy Hstart Hend Hz).
  cbn [vec3_x vec3_y vec3_z]. fold (tileClipPos u_fromWorld x y).
  f_equal; ring.
Qed.

Lemma main_reprojects_witness :
  main (mkVec2 130 140) (mkVec2 3 (-3))
    (mkMat4 1 0 0 0  0 1 0 0  0 0 1 0  0 0 0 1)
    (mkMat4 (1 / 2) 0 0 0  0 (1 / 2) 0 0  0 0 (1 / 2) 0  0 0 0 1)
    (mkMat4 1 0 0 0  0 1 0 0  0 0 1 0  5 6 0 2)
    (mkVec2 800 600)
  = mkVec4 (v0 (tileClipPos (mkMat4 1 0 0 0  0 1 0 0  0 0 1 0  5 6 0 2) 15 20)
            / v3 (tileClipPos (mkMat4 1 0 0 0  0 1 0 0  0 0 1 0  5 6 0 2) 15 20)
            + vec2_x (mkVec2 3 (-3)) / vec2_x (mkVec2 800 600) * 2)
           (v1 (tileClipPos (mkMat4 1 0 0 0  0 1 0 0  0 0 1 0  5 6 0 2) 15 20)
            / v3 (tileClipPos (mkMat4 1 0 0 0  0 1 0 0  0 0 1 0  5 6 0 2) 15 20)
            + vec2_y (mkVec2 3 (-3)) / vec2_y (mkVec2 800 600) * 2)
           (v2 (tileClipPos (mkMat4 1 0 0 0  0 1 0 0  0 0 1 0  5 6 0 2) 15 20)
            / v3 (tileClipPos (mkMat4 1 0 0 0  0 1 0 0  0 0 1 0  5 6 0 2) 15 20))
           1.
Proof.
  apply (main_reprojects _ _ _ _ _
           (mkMat4 2 0 0 0  0 2 0 0  0 0 2 0  0 0 0 1)).
  - intros [a b c d]. unfold mulMat4Vec4. cbn. f_equal; lra.
  - cbn. lra.
  - cbn. lra.
  - cbn. lra.
  - cbn. lra.
  - cbn. lra.
  - cbn. lra.
  - cbn. lra.
  - cbn. lra.
  - cbn. lra.
  - cbn. lra.
Defined.

(** ** The properties on the examples *)

Lemma examplePlacement_accepted :
  PlacedCircles.circles (examplePlacement exampleIndex 1 None true true) <> [].
Proof.
  rewrite examplePlacement_circles
    by (rewrite (proj1 (example_radius exampleIndex eq_refl)); lra).
  rewrite example_chain_radius_10. discriminate.
Qed.

Lemma showCollisionCircles_keeps_circles_witness :
  PlacedCircles.circles (examplePlacement exampleIndex 1 None true true)
  = PlacedCircles.circles (examplePlacement exampleIndex 1 None true false).
Proof.
  exact (proj1 (showCollisionCircles_keeps_circles exampleProject
                  examplePlaceFirstAndLastGlyph exampleIndex [] true 1 1
                  (mkSymbol 0 0 0 0) tt tt 24 (scaleW 1) (scaleW 1) false None)).
Defined.

Lemma placeCollisionCircles_nothing_on_screen_witness :
  placeCollisionCircles exampleProject examplePlaceFirstAndLastGlyph smallIndex []
    false 1 1 (mkSymbol 0 0 0 0) tt tt 24 (scaleW 1) (scaleW 1) false false None
  = PlacedCircles.mk [] true.
Proof.
  apply (placeCollisionCircles_nothing_on_screen exampleProject
           examplePlaceFirstAndLastGlyph smallIndex [] false 1 1 (mkSymbol 0 0 0 0)
           tt tt 24 (scaleW 1) (scaleW 1) false false None).
  change (forall (pre : list Point) (a b : Point) (post : list Point),
            [Point.mk 100 100; Point.mk 130 100] = pre ++ a :: b :: post ->
            clipLine a b labelPlaneMin (labelPlaneMax smallIndex) = None).
  intros pre a b post Hpath.
  destruct pre as [| p pre].
  - injection Hpath as <- <- _.
    unfold clipLine, computeRegion, labelPlaneMin, labelPlaneMax, smallIndex.
    cbn [Point.x Point.y transform newCollisionIndex constructor
         Transform.width Transform.height].
    decide_cmp. reflexivity.
  - destruct pre as [| q pre]; [discriminate |].
    destruct pre; discriminate.
Defined.

Lemma placeCollisionCircles_over_the_frame_witness :
  examplePlacement
    (afterAll [InsertCollisionBox [190; 190; 210; 210] true 1 0 0; QueryRenderedSymbols]
       exampleIndex) 1 None false false
  = examplePlacement exampleIndex 1 None false false.
Proof.
  exact (proj1 (placeCollisionCircles_over_the_frame exampleProject
                  examplePlaceFirstAndLastGlyph exampleIndex
                  [InsertCollisionBox [190; 190; 210; 210] true 1 0 0;
                   QueryRenderedSymbols]
                  [] false 1 1 (mkSymbol 0 0 0 0) tt tt 24 (scaleW 1) (scaleW 1)
                  false false None)
           (or_introl eq_refl)).
Defined.

Lemma insert_placed_circles_witness :
  Grid.entries
    (grid (insertCollisionCircles
             (PlacedCircles.circles (examplePlacement exampleIndex 1 None true true))
             false 1 0 0 exampleIndex))
  = map (circleEntry (mkKey 1 0 0))
      [mkCircle (Point.mk 100 100) 10; mkCircle (Point.mk 130 100) 10;
       mkCircle (Point.mk 115 100) 10].
Proof.
  destruct (insert_placed_circles exampleProject examplePlaceFirstAndLastGlyph
              exampleIndex [] true 1 1 (mkSymbol 0 0 0 0) tt tt 24 (scaleW 1) (scaleW 1)
              true false None false 1 0 0 examplePlacement_accepted)
    as (fl & Hfl & Hentries & _).
  change (Some exampleGlyphs = Some fl) in Hfl. injection Hfl as <-.
  change (anchorX (mkSymbol 0 0 0 0)) with 0 in Hentries.
  change (anchorY (mkSymbol 0 0 0 0)) with 0 in Hentries.
  rewrite example_chain_radius_10 in Hentries. exact Hentries.
Defined.

Lemma placed_circles_block_themselves_witness :
  PlacedCircles.circles
    (examplePlacement
       (afterAll [QueryRenderedSymbols]
          (insertCollisionCircles
             (PlacedCircles.circles (examplePlacement exampleIndex 1 None true true))
             false 1 0 0 exampleIndex))
       1 None false true)
  = [].
Proof.
  exact (placed_circles_block_themselves exampleProject examplePlaceFirstAndLastGlyph
           exampleIndex [] true 1 1 (mkSymbol 0 0 0 0) tt tt 24 (scaleW 1) (scaleW 1)
           true false None 1 0 0 [QueryRenderedSymbols]
           examplePlacement_accepted eq_refl).
Defined.

Lemma accepted_circle_tuples_witness :
  length (PlacedCircles.circles (examplePlacement exampleIndex 1 None true true))
  = 12%nat.
Proof.
  destruct (accepted_circle_tuples exampleProject examplePlaceFirstAndLastGlyph
              exampleIndex [] true 1 1 (mkSymbol 0 0 0 0) tt tt 24 (scaleW 1) (scaleW 1)
              true false None examplePlacement_accepted)
    as (fl & Hfl & Hlength & _).
  change (Some exampleGlyphs = Some fl) in Hfl. injection Hfl as <-.
  change (anchorX (mkSymbol 0 0 0 0)) with 0 in Hlength.
  change (anchorY (mkSymbol 0 0 0 0)) with 0 in Hlength.
  rewrite example_chain_radius_10 in Hlength. exact Hlength.
Defined.

Lemma queryRenderedSymbols_sound_complete_witness :
  queryRenderedSymbols (fun _ _ => true)
    (insertCollisionBox [40; 40; 60; 60] false 7 3 0 exampleIndex)
    [Point.mk (-50) (-50)] !! 7%Z
  <> Some [].
Proof.
  refine (proj2 (queryRenderedSymbols_sound_complete (fun _ _ => true)
                   (insertCollisionBox [40; 40; 60; 60] false 7 3 0 exampleIndex)
                   [Point.mk (-50) (-50)] 7%Z 3%Z _)).
  discriminate.
Defined.

Lemma inserted_box_is_found_witness :
  exists fs : list Z,
    queryRenderedSymbols (fun _ _ => true)
      (afterAll [PlaceCollisionBox]
         (insertCollisionBox [40; 40; 60; 60] true 7 3 0 exampleIndex))
      [Point.mk (-50) (-50)] !! 7%Z
    = Some fs
    /\ In 3%Z fs.
Proof.
  apply (inserted_box_is_found (fun _ _ => true) exampleIndex 40 40 60 60 true
           7 3 0 [PlaceCollisionBox] [Point.mk (-50) (-50)]).
  - discriminate.
  - unfold gridQuery, Grid.boxMeets, viewportPadding. simpl. cmp.
  - reflexivity.
Defined.

Lemma fillIndexBuffer_quads_witness :
  fillIndexBuffer (replicate (Z.to_nat 24576) 0%Z) !! Z.to_nat (5 * 6 + 4)
  = Some (5 * 4 + quadCorner 4)%Z.
Proof.
  apply (proj1 (proj2 (fillIndexBuffer_quads (replicate (Z.to_nat 24576) 0%Z)))).
  - unfold maxCirclesPerBatch. lia.
  - lia.
  - rewrite length_replicate. lia.
Defined.
